(** * ARTAS1: orbital camera navigation and pointer interaction

    A shallow embedding of [assets/js/modules/CameraController.js],
    [modules/InteractionManager.js] and the wiring of the two in [main.js],
    with the properties the specification states about them.

    Numbers.  The state machines of the two classes are modelled over exact
    rationals ([Q]).  What is proved of them is what holds of the doubles
    of JavaScript as well: which branch is taken, what is emitted and in
    which order, which flag and index are set, and the bounds and orderings
    that rounding to the nearest double keeps.  Where the very value of an
    expression matters, for the built-in interpolator, the expression is
    taken over IEEE doubles (module [Doubles]).  The one place where the
    code divides by a value that an input event can make zero is the pinch
    ratio of [onTouchMove]; its
    result, and [spherical.radius] which receives it, live in [num], the
    rationals extended with the three special values of a JavaScript number.
    Every other number of the rational model is finite: what a radius that
    is not finite does to the camera position is not followed.

    Effects.  Every handler is a function from the object's state (and the
    event's fields) to the new state and the list of effects it performed on
    the outside world, in the order it performed them: listener calls, writes
    to the camera, calls on the DOM element. *)

From Stdlib Require Import QArith Qminmax Qabs Lqa ZArith List String Ascii Bool Lia.
From Stdlib Require Floats.
Import ListNotations.
Open Scope Q_scope.

(* ================================================================== *)
(** ** JavaScript numbers *)

Module JsNum.

(** A JavaScript number: a finite value, [Infinity], [-Infinity] or [NaN]. *)
Inductive num : Type :=
| Fin (q : Q)
| PInf
| NInf
| NaN.

(** [a < b] on finite numbers. *)
Definition Qltb (a b : Q) : bool := negb (Qle_bool b a).

(** [a / b] for finite [a] and a finite divisor [b] that is not [-0]
    (the divisors of the program are results of [Math.sqrt]). *)
Definition div (a b : Q) : num :=
  if Qeq_bool b 0 then
    if Qltb 0 a then PInf else if Qltb a 0 then NInf else NaN
  else Fin (a / b).

(** [x * Infinity] for a finite [x]. *)
Definition mul_inf (x : Q) (pos : bool) : num :=
  if Qltb 0 x then (if pos then PInf else NInf)
  else if Qltb x 0 then (if pos then NInf else PInf)
  else NaN.

Definition mul (a b : num) : num :=
  match a, b with
  | NaN, _ | _, NaN => NaN
  | Fin x, Fin y => Fin (x * y)
  | Fin x, PInf | PInf, Fin x => mul_inf x true
  | Fin x, NInf | NInf, Fin x => mul_inf x false
  | PInf, PInf | NInf, NInf => PInf
  | PInf, NInf | NInf, PInf => NInf
  end.

Definition add (a b : num) : num :=
  match a, b with
  | NaN, _ | _, NaN => NaN
  | Fin x, Fin y => Fin (x + y)
  | PInf, NInf | NInf, PInf => NaN
  | PInf, _ | _, PInf => PInf
  | NInf, _ | _, NInf => NInf
  end.

Definition opp (a : num) : num :=
  match a with
  | Fin x => Fin (- x)
  | PInf => NInf
  | NInf => PInf
  | NaN => NaN
  end.

Definition sub (a b : num) : num := add a (opp b).

(** [Math.max] and [Math.min]: [NaN] as soon as one argument is. *)
Definition max (a b : num) : num :=
  match a, b with
  | NaN, _ | _, NaN => NaN
  | PInf, _ | _, PInf => PInf
  | NInf, c | c, NInf => c
  | Fin x, Fin y => Fin (Qmax x y)
  end.

Definition min (a b : num) : num :=
  match a, b with
  | NaN, _ | _, NaN => NaN
  | NInf, _ | _, NInf => NInf
  | PInf, c | c, PInf => c
  | Fin x, Fin y => Fin (Qmin x y)
  end.

(** [lo <= a <= hi], which no special value satisfies for finite bounds. *)
Definition within (lo hi : Q) (a : num) : Prop :=
  match a with
  | Fin x => lo <= x /\ x <= hi
  | _ => False
  end.

Definition is_nan (a : num) : bool :=
  match a with NaN => true | _ => false end.

End JsNum.

Import JsNum.

(* ================================================================== *)
(** ** three.js values used by the controller *)

Record Vector3 : Type := vec3 { vx : Q; vy : Q; vz : Q }.

(** [THREE.Spherical]: radius, polar angle [phi], azimuthal angle [theta]. *)
Record Spherical : Type := sph { radius : num; phi : Q; theta : Q }.

Definition v_add (a b : Vector3) : Vector3 :=
  vec3 (vx a + vx b) (vy a + vy b) (vz a + vz b).

Definition v_sub (a b : Vector3) : Vector3 :=
  vec3 (vx a - vx b) (vy a - vy b) (vz a - vz b).

(** [Vector3.lerpVectors(v1, v2, alpha)]: [v1 + (v2 - v1) * alpha] on each
    component.  (Here without rounding; with it in [Doubles].) *)
Definition lerpVectors (v1 v2 : Vector3) (alpha : Q) : Vector3 :=
  vec3 (vx v1 + (vx v2 - vx v1) * alpha)
       (vy v1 + (vy v2 - vy v1) * alpha)
       (vz v1 + (vz v2 - vz v1) * alpha).

(** Equality of vectors as numbers (the components are fractions). *)
Definition v_eq (a b : Vector3) : Prop :=
  vx a == vx b /\ vy a == vy b /\ vz a == vz b.

(* ================================================================== *)
(** ** CameraController.js: data *)

Module CameraController.

(** [this.options]. *)
Record Options : Type := mkOptions {
  enableDamping : bool;
  dampingFactor : Q;
  rotateSpeed : Q;
  zoomSpeed : Q;
  minDistance : Q;
  maxDistance : Q;
  minPolarAngle : Q;
  maxPolarAngle : Q;
  transitionDuration : Q;
  reducedMotion : bool
}.

(** An entry of [this.nodePositions]. *)
Record Node : Type := mkNode {
  position : Vector3;
  node_target : Vector3;
  name : string
}.

Record PointerState : Type := mkPointer {
  isDown : bool;
  startX : Q;
  startY : Q;
  currentX : Q;
  currentY : Q
}.

Record TouchState : Type := mkTouch {
  initialDistance : Q;
  currentDistance : Q
}.

(** What the closure [animate] of [fallbackTransition] captures. *)
Record Transition : Type := mkTransition {
  startPos : Vector3;
  startTarget : Vector3;
  startTime : Q;
  durationMs : Q;
  dest : Node
}.

(** The pending motion: nothing, a frame callback of the built-in
    interpolator, or a pair of tweens handed to GSAP. *)
Inductive Motion : Type :=
| NoMotion
| Fallback (t : Transition)
| Gsap (n : Node) (duration : Q).

(** The object a GSAP tween animates. *)
Inductive Tweened : Type := CameraPosition | LookAtTarget.

(** Effects on the outside of the controller.  A navigation listener is
    known by a number; calling it is the effect [Notify].  A listener is taken
    to return, and to leave the controller as it is. *)
Inductive Action : Type :=
| Notify (cb : nat) (index : Z) (nm : string)
| WritePosition (v : Vector3)
| WriteTarget (v : Vector3)
| LookAt (v : Vector3)
| GsapTo (obj : Tweened) (to : Vector3) (duration : Q)
| RequestAnimationFrame
| PreventDefault
| SetCursor (c : string)
| SetPointerCapture (id : Z)
| ReleasePointerCapture (id : Z).

Record Controller : Type := mkController {
  options : Options;
  spherical : Spherical;
  sphericalDelta : Spherical;
  target : Vector3;
  camera_position : Vector3;
  enabled : bool;
  isTransitioning : bool;
  currentNodeIndex : Z;
  nodePositions : list Node;
  pointerState : PointerState;
  touchState : TouchState;
  onNavigateCallbacks : list nat;
  gsap : bool;
  motion : Motion
}.

(** Field updates. *)
Definition set_options (o : Options) (c : Controller) : Controller :=
  mkController o (spherical c) (sphericalDelta c) (target c)
    (camera_position c) (enabled c) (isTransitioning c) (currentNodeIndex c)
    (nodePositions c) (pointerState c) (touchState c)
    (onNavigateCallbacks c) (gsap c) (motion c).

Definition set_spherical (s : Spherical) (c : Controller) : Controller :=
  mkController (options c) s (sphericalDelta c) (target c)
    (camera_position c) (enabled c) (isTransitioning c) (currentNodeIndex c)
    (nodePositions c) (pointerState c) (touchState c)
    (onNavigateCallbacks c) (gsap c) (motion c).

Definition set_sphericalDelta (s : Spherical) (c : Controller) : Controller :=
  mkController (options c) (spherical c) s (target c)
    (camera_position c) (enabled c) (isTransitioning c) (currentNodeIndex c)
    (nodePositions c) (pointerState c) (touchState c)
    (onNavigateCallbacks c) (gsap c) (motion c).

Definition set_target (v : Vector3) (c : Controller) : Controller :=
  mkController (options c) (spherical c) (sphericalDelta c) v
    (camera_position c) (enabled c) (isTransitioning c) (currentNodeIndex c)
    (nodePositions c) (pointerState c) (touchState c)
    (onNavigateCallbacks c) (gsap c) (motion c).

Definition set_camera_position (v : Vector3) (c : Controller) : Controller :=
  mkController (options c) (spherical c) (sphericalDelta c) (target c)
    v (enabled c) (isTransitioning c) (currentNodeIndex c)
    (nodePositions c) (pointerState c) (touchState c)
    (onNavigateCallbacks c) (gsap c) (motion c).

Definition set_isTransitioning (b : bool) (c : Controller) : Controller :=
  mkController (options c) (spherical c) (sphericalDelta c) (target c)
    (camera_position c) (enabled c) b (currentNodeIndex c)
    (nodePositions c) (pointerState c) (touchState c)
    (onNavigateCallbacks c) (gsap c) (motion c).

Definition set_currentNodeIndex (i : Z) (c : Controller) : Controller :=
  mkController (options c) (spherical c) (sphericalDelta c) (target c)
    (camera_position c) (enabled c) (isTransitioning c) i
    (nodePositions c) (pointerState c) (touchState c)
    (onNavigateCallbacks c) (gsap c) (motion c).

Definition set_pointerState (p : PointerState) (c : Controller) : Controller :=
  mkController (options c) (spherical c) (sphericalDelta c) (target c)
    (camera_position c) (enabled c) (isTransitioning c) (currentNodeIndex c)
    (nodePositions c) p (touchState c)
    (onNavigateCallbacks c) (gsap c) (motion c).

Definition set_touchState (t : TouchState) (c : Controller) : Controller :=
  mkController (options c) (spherical c) (sphericalDelta c) (target c)
    (camera_position c) (enabled c) (isTransitioning c) (currentNodeIndex c)
    (nodePositions c) (pointerState c) t
    (onNavigateCallbacks c) (gsap c) (motion c).

Definition set_onNavigateCallbacks (l : list nat) (c : Controller) : Controller :=
  mkController (options c) (spherical c) (sphericalDelta c) (target c)
    (camera_position c) (enabled c) (isTransitioning c) (currentNodeIndex c)
    (nodePositions c) (pointerState c) (touchState c)
    l (gsap c) (motion c).

Definition set_motion (m : Motion) (c : Controller) : Controller :=
  mkController (options c) (spherical c) (sphericalDelta c) (target c)
    (camera_position c) (enabled c) (isTransitioning c) (currentNodeIndex c)
    (nodePositions c) (pointerState c) (touchState c)
    (onNavigateCallbacks c) (gsap c) m.

Definition set_radius (r : num) (s : Spherical) : Spherical :=
  sph r (phi s) (theta s).

Definition set_phi (p : Q) (s : Spherical) : Spherical :=
  sph (radius s) p (theta s).

Definition set_theta (t : Q) (s : Spherical) : Spherical :=
  sph (radius s) (phi s) t.

Definition set_reducedMotion (b : bool) (o : Options) : Options :=
  mkOptions (enableDamping o) (dampingFactor o) (rotateSpeed o) (zoomSpeed o)
    (minDistance o) (maxDistance o) (minPolarAngle o) (maxPolarAngle o)
    (transitionDuration o) b.

(** The values the constructor gives when the caller overrides none.
    [Math.PI * 0.1] and [Math.PI * 0.9] are written to sixteen digits. *)
Definition default_options : Options :=
  mkOptions true (5 # 100) (5 # 10) 1 20 100
    (3141592653589793 # 10000000000000000)
    (28274333882308137 # 10000000000000000)
    2 false.

Definition default_nodes : list Node :=
  [ mkNode (vec3 0 0 50) (vec3 0 0 0) "Hub";
    mkNode (vec3 30 5 25) (vec3 25 0 10) "About";
    mkNode (vec3 (-30 # 1) 10 20) (vec3 (-25 # 1) 5 5) "Work";
    mkNode (vec3 15 (-10 # 1) 35) (vec3 10 (-5 # 1) 20) "Services";
    mkNode (vec3 (-20 # 1) 0 30) (vec3 (-15 # 1) 0 15) "Contact" ].

(** The number of nodes, [this.nodePositions.length]. *)
Definition node_count (c : Controller) : Z :=
  Z.of_nat (List.length (nodePositions c)).

(** [Math.max(lo, Math.min(hi, x))]. *)
Definition clamp_num (lo hi : Q) (x : num) : num :=
  JsNum.max (Fin lo) (JsNum.min (Fin hi) x).

Definition clampQ (lo hi x : Q) : Q := Qmax lo (Qmin hi x).

(* ---------------------------------------------------------------- *)
(** *** CameraController.js: the methods *)

Section Methods.

(** The two conversions of three.js between a vector and spherical
    coordinates ([Vector3.setFromSpherical], [Spherical.setFromVector3]).
    They involve square roots and trigonometry and are left abstract. *)
Variable setFromSpherical : Spherical -> Vector3.
Variable setFromVector3 : Vector3 -> Spherical.

Definition updateSphericalFromCamera (c : Controller) : Controller :=
  let offset := v_sub (camera_position c) (target c) in
  set_spherical (setFromVector3 offset) c.

(** The state once [init] has run, for a camera at [cam]. *)
Definition construct (cam : Vector3) (o : Options) (has_gsap : bool)
  : Controller :=
  updateSphericalFromCamera
    (mkController o (sph (Fin 1) 0 0) (sph (Fin 1) 0 0) (vec3 0 0 0) cam
       true false 0%Z default_nodes (mkPointer false 0 0 0 0) (mkTouch 0 0)
       [] has_gsap NoMotion).

Definition onPointerDown (c : Controller) (button : Z) (clientX clientY : Q)
  (pointerId : Z) : Controller * list Action :=
  if negb (enabled c) || isTransitioning c then (c, [])
  else if negb (button =? 0)%Z then (c, [])
  else (set_pointerState (mkPointer true clientX clientY clientX clientY) c,
        [SetCursor "grabbing"; SetPointerCapture pointerId]).

Definition onPointerMove (c : Controller) (clientX clientY : Q)
  : Controller * list Action :=
  if negb (enabled c) || negb (isDown (pointerState c)) then (c, [])
  else
    let p := pointerState c in
    let deltaX := clientX - currentX p in
    let deltaY := clientY - currentY p in
    let c1 :=
      set_pointerState
        (mkPointer (isDown p) (startX p) (startY p) clientX clientY) c in
    let d := sphericalDelta c1 in
    let d1 :=
      set_theta (theta d - deltaX * rotateSpeed (options c1) * (1 # 100)) d in
    let d2 :=
      set_phi (phi d1 - deltaY * rotateSpeed (options c1) * (1 # 100)) d1 in
    (set_sphericalDelta d2 c1, []).

Definition onPointerUp (c : Controller) (pointerId : Z)
  : Controller * list Action :=
  let p := pointerState c in
  (set_pointerState
     (mkPointer false (startX p) (startY p) (currentX p) (currentY p)) c,
   [SetCursor "grab"; ReleasePointerCapture pointerId]).

Definition clamp_zoom (c : Controller) : Controller :=
  let s := spherical c in
  set_spherical
    (set_radius
       (clamp_num (minDistance (options c)) (maxDistance (options c))
          (radius s)) s) c.

Definition onWheel (c : Controller) (deltaY : Q)
  : Controller * list Action :=
  if negb (enabled c) || isTransitioning c then (c, [])
  else
    let zoomDelta := deltaY * (1 # 1000) * zoomSpeed (options c) in
    let s := spherical c in
    let c1 :=
      set_spherical
        (set_radius (JsNum.mul (radius s) (Fin (1 + zoomDelta))) s) c in
    (clamp_zoom c1, [PreventDefault]).

(** A touch event is given by [event.touches.length] and, when there are
    two touches, by their separation
    [Math.sqrt(dx * dx + dy * dy)], a number that is not negative. *)
Definition onTouchStart (c : Controller) (touches : nat) (separation : Q)
  : Controller * list Action :=
  if (touches =? 2)%nat
  then (set_touchState
          (mkTouch separation (currentDistance (touchState c))) c, [])
  else (c, []).

Definition onTouchMove (c : Controller) (touches : nat) (separation : Q)
  : Controller * list Action :=
  if negb (enabled c) || isTransitioning c then (c, [])
  else if (touches =? 2)%nat then
    let c1 :=
      set_touchState
        (mkTouch (initialDistance (touchState c)) separation) c in
    let ratio :=
      JsNum.div (initialDistance (touchState c1))
                (currentDistance (touchState c1)) in
    let s := spherical c1 in
    let c2 := set_spherical (set_radius (JsNum.mul (radius s) ratio) s) c1 in
    let c3 := clamp_zoom c2 in
    (set_touchState
       (mkTouch (currentDistance (touchState c3))
                (currentDistance (touchState c3))) c3,
     [PreventDefault])
  else (c, []).

(** The continuation of [navigateToNode] after its [await]. *)
Definition finishTransition (c : Controller) : Controller :=
  set_motion NoMotion
    (set_isTransitioning false (updateSphericalFromCamera c)).

(** The easing of [animate]. *)
Definition ease (progress : Q) : Q :=
  if Qltb progress (1 # 2)
  then 2 * progress * progress
  else 1 - ((-2 # 1) * progress + 2) ^ 2 / 2.

(** [Math.min(elapsed / durationMs, 1)].  The quotient is the one of the
    rationals: a zero [durationMs], for which the code's quotient is
    [Infinity] or [NaN] and the first call of [animate] ends the transition,
    is outside this model and is followed in [Doubles]. *)
Definition progress_at (t : Transition) (now : Q) : Q :=
  Qmin ((now - startTime t) / durationMs t) 1.

(** One call of the closure [animate], [now] being what
    [performance.now()] returns in it.  When the promise is resolved the
    continuation of [navigateToNode] runs before any other handler. *)
Definition animate (t : Transition) (c : Controller) (now : Q)
  : Controller * list Action :=
  let progress := progress_at t now in
  let eased := ease progress in
  let pos := lerpVectors (startPos t) (position (dest t)) eased in
  let tgt := lerpVectors (startTarget t) (node_target (dest t)) eased in
  let c1 := set_target tgt (set_camera_position pos c) in
  let effects := [WritePosition pos; WriteTarget tgt; LookAt tgt] in
  if Qltb progress 1
  then (set_motion (Fallback t) c1, effects ++ [RequestAnimationFrame])
  else (finishTransition c1, effects).

(** [fallbackTransition(node, duration)]; [now0] and [now1] are the two
    readings of [performance.now()], the one that gives [startTime] and the
    one of the first call of [animate]. *)
Definition fallbackTransition (c : Controller) (node : Node) (duration : Q)
  (now0 now1 : Q) : Controller * list Action :=
  let t :=
    mkTransition (camera_position c) (target c) now0 (duration * 1000)
      node in
  animate t c now1.

(** The frame callback registered by [requestAnimationFrame]. *)
Definition onAnimationFrame (c : Controller) (now : Q)
  : Controller * list Action :=
  match motion c with
  | Fallback t => animate t c now
  | _ => (c, [])
  end.

Definition notify (c : Controller) (nodeIndex : Z) (node : Node)
  : list Action :=
  map (fun cb => Notify cb nodeIndex (name node)) (onNavigateCallbacks c).

(** [navigateToNode(nodeIndex)] up to its [await] (and beyond it when the
    promise is already resolved).  Past the first test the index is one of
    the array, so the last branch of the lookup is never taken. *)
Definition navigateToNode (c : Controller) (nodeIndex : Z) (now0 now1 : Q)
  : Controller * list Action :=
  if (nodeIndex <? 0)%Z || (nodeIndex >=? node_count c)%Z then (c, [])
  else if isTransitioning c then (c, [])
  else
    match nth_error (nodePositions c) (Z.to_nat nodeIndex) with
    | Some node =>
        let c1 := set_isTransitioning true (set_currentNodeIndex nodeIndex c) in
        let duration :=
          if reducedMotion (options c1) then 1 # 10
          else transitionDuration (options c1) in
        let told := notify c1 nodeIndex node in
        if gsap c1 then
          (set_motion (Gsap node duration) c1,
           told ++ [GsapTo CameraPosition (position node) duration;
                    GsapTo LookAtTarget (node_target node) duration])
        else
          let '(c2, moved) := fallbackTransition c1 node duration now0 now1 in
          (c2, told ++ moved)
    | None => (c, [])
    end.

(** GSAP, when loaded, is the one that moves the camera: at each of its
    ticks it writes the values it interpolated and calls [onUpdate]; when
    both tweens are over the continuation of [navigateToNode] runs. *)
Definition onGsapTick (c : Controller) (pos tgt : Vector3)
  : Controller * list Action :=
  match motion c with
  | Gsap _ _ =>
      (set_target tgt (set_camera_position pos c),
       [WritePosition pos; WriteTarget tgt; LookAt tgt])
  | _ => (c, [])
  end.

Definition onGsapComplete (c : Controller) : Controller * list Action :=
  match motion c with
  | Gsap _ _ => (finishTransition c, [])
  | _ => (c, [])
  end.

(** [parseInt] on a key name: the value of its leading decimal digits,
    [None] standing for [NaN].  (Leading blanks, a sign and a hexadecimal
    prefix do not occur in the names that reach it.) *)
Definition digit_of (a : ascii) : option Z :=
  let n := nat_of_ascii a in
  if ((48 <=? n) && (n <=? 57))%nat then Some (Z.of_nat (n - 48)) else None.

Fixpoint parse_digits (s : string) (acc : option Z) : option Z :=
  match s with
  | EmptyString => acc
  | String a rest =>
      match digit_of a with
      | Some d =>
          parse_digits rest
            (Some (10 * match acc with Some v => v | None => 0 end + d)%Z)
      | None => acc
      end
  end.

Definition parseInt (s : string) : option Z := parse_digits s None.

Definition add_delta_theta (x : Q) (c : Controller) : Controller :=
  let d := sphericalDelta c in
  set_sphericalDelta (set_theta (theta d + x) d) c.

Definition add_delta_phi (x : Q) (c : Controller) : Controller :=
  let d := sphericalDelta c in
  set_sphericalDelta (set_phi (phi d + x) d) c.

(** [onKeyDown(event)], from [event.key] and [event.shiftKey].  The
    remainder [%] is taken by a number of nodes that is not zero. *)
Definition onKeyDown (c : Controller) (key : string) (shiftKey : bool)
  (now0 now1 : Q) : Controller * list Action :=
  if negb (enabled c) then (c, [])
  else if (("1" <=? key) && (key <=? "5"))%string then
    match parseInt key with
    | Some n =>
        let nodeIndex := (n - 1)%Z in
        if (nodeIndex <? node_count c)%Z
        then navigateToNode c nodeIndex now0 now1
        else (c, [])
    | None => (c, [])
    end
  else
    let rotateAmount := rotateSpeed (options c) * (1 # 10) in
    let zoomAmount := 2 in
    let s := spherical c in
    if (key =? "ArrowLeft")%string then
      (add_delta_theta rotateAmount c, [PreventDefault])
    else if (key =? "ArrowRight")%string then
      (add_delta_theta (- rotateAmount) c, [PreventDefault])
    else if (key =? "ArrowUp")%string then
      (add_delta_phi (- rotateAmount) c, [PreventDefault])
    else if (key =? "ArrowDown")%string then
      (add_delta_phi rotateAmount c, [PreventDefault])
    else if ((key =? "+") || (key =? "="))%string then
      let r := JsNum.sub (radius s) (Fin zoomAmount) in
      (set_spherical
         (set_radius (JsNum.max (Fin (minDistance (options c))) r) s) c,
       [PreventDefault])
    else if ((key =? "-") || (key =? "_"))%string then
      let r := JsNum.add (radius s) (Fin zoomAmount) in
      (set_spherical
         (set_radius (JsNum.min (Fin (maxDistance (options c))) r) s) c,
       [PreventDefault])
    else if (key =? "Home")%string then
      let '(c1, done) := navigateToNode c 0 now0 now1 in
      (c1, done ++ [PreventDefault])
    else if (key =? "Tab")%string then
      let nextIndex :=
        if shiftKey
        then Z.rem (currentNodeIndex c - 1 + node_count c) (node_count c)
        else Z.rem (currentNodeIndex c + 1) (node_count c) in
      let '(c1, done) := navigateToNode c nextIndex now0 now1 in
      (c1, done ++ [PreventDefault])
    else (c, []).

(** [update(delta)], called once per rendered frame. *)
Definition update (c : Controller) (delta : Q) : Controller * list Action :=
  if negb (enabled c) || isTransitioning c then (c, [])
  else
    let o := options c in
    let s := spherical c in
    let d := sphericalDelta c in
    let '(s1, d1) :=
      if enableDamping o then
        (sph (radius s)
             (phi s + phi d * dampingFactor o)
             (theta s + theta d * dampingFactor o),
         sph (radius d)
             (phi d * (1 - dampingFactor o))
             (theta d * (1 - dampingFactor o)))
      else
        (sph (radius s) (phi s + phi d) (theta s + theta d),
         sph (Fin 0) 0 0) in
    let s2 :=
      set_phi (clampQ (minPolarAngle o) (maxPolarAngle o) (phi s1)) s1 in
    let offset := setFromSpherical s2 in
    let pos := v_add (target c) offset in
    (set_camera_position pos (set_sphericalDelta d1 (set_spherical s2 c)),
     [WritePosition pos; LookAt (target c)]).

Definition onNavigate (c : Controller) (cb : nat) : Controller :=
  set_onNavigateCallbacks (onNavigateCallbacks c ++ [cb]) c.

Fixpoint remove_first (cb : nat) (l : list nat) : list nat :=
  match l with
  | [] => []
  | x :: rest => if (x =? cb)%nat then rest else x :: remove_first cb rest
  end.

Definition offNavigate (c : Controller) (cb : nat) : Controller :=
  set_onNavigateCallbacks (remove_first cb (onNavigateCallbacks c)) c.

Definition setReducedMotion (c : Controller) (b : bool) : Controller :=
  set_options (set_reducedMotion b (options c)) c.

Definition reset (c : Controller) (now0 now1 : Q)
  : Controller * list Action :=
  navigateToNode c 0 now0 now1.

(** What can happen to a controller: a DOM event on its element, a call
    of its interface, a frame callback, a tick of the render loop or of
    GSAP. *)
Inductive Event : Type :=
| PointerDown (button : Z) (clientX clientY : Q) (pointerId : Z)
| PointerMove (clientX clientY : Q)
| PointerUp (pointerId : Z)
| Wheel (deltaY : Q)
| TouchStart (touches : nat) (separation : Q)
| TouchMove (touches : nat) (separation : Q)
| KeyDown (key : string) (shiftKey : bool) (now0 now1 : Q)
| Navigate (nodeIndex : Z) (now0 now1 : Q)
| AnimationFrame (now : Q)
| Update (delta : Q)
| GsapTick (pos tgt : Vector3)
| GsapComplete.

Definition step (c : Controller) (e : Event) : Controller * list Action :=
  match e with
  | PointerDown b x y id => onPointerDown c b x y id
  | PointerMove x y => onPointerMove c x y
  | PointerUp id => onPointerUp c id
  | Wheel dy => onWheel c dy
  | TouchStart n d => onTouchStart c n d
  | TouchMove n d => onTouchMove c n d
  | KeyDown k s t0 t1 => onKeyDown c k s t0 t1
  | Navigate i t0 t1 => navigateToNode c i t0 t1
  | AnimationFrame t => onAnimationFrame c t
  | Update dt => update c dt
  | GsapTick p t => onGsapTick c p t
  | GsapComplete => onGsapComplete c
  end.

(** A sequence of events, with all its effects in order. *)
Fixpoint run (c : Controller) (es : list Event) : Controller * list Action :=
  match es with
  | [] => (c, [])
  | e :: rest =>
      let '(c1, a1) := step c e in
      let '(c2, a2) := run c1 rest in
      (c2, a1 ++ a2)
  end.

(** The zoom inputs: wheel, pinch, and the keys [+ = - _]. *)
Definition is_zoom_key (key : string) : bool :=
  ((key =? "+") || (key =? "=") || (key =? "-") || (key =? "_"))%string.

Definition is_zoom_input (e : Event) : bool :=
  match e with
  | Wheel _ | TouchStart _ _ | TouchMove _ _ => true
  | KeyDown k _ _ _ => is_zoom_key k
  | Update _ => true
  | _ => false
  end.

(** The rotate inputs: dragging with the pointer, and the arrow keys. *)
Definition is_arrow_key (key : string) : bool :=
  ((key =? "ArrowLeft") || (key =? "ArrowRight")
   || (key =? "ArrowUp") || (key =? "ArrowDown"))%string.

Definition is_rotate_input (e : Event) : bool :=
  match e with
  | PointerDown _ _ _ _ | PointerMove _ _ | PointerUp _ => true
  | KeyDown k _ _ _ => is_arrow_key k
  | Update _ => true
  | _ => false
  end.

Definition is_notify (a : Action) : bool :=
  match a with Notify _ _ _ => true | _ => false end.

(** The effects that move the camera or its look-at target, or hand them
    to GSAP to be moved. *)
Definition is_camera_write (a : Action) : bool :=
  match a with
  | WritePosition _ | WriteTarget _ | LookAt _ | GsapTo _ _ _ => true
  | _ => false
  end.

Definition is_position_write (a : Action) : bool :=
  match a with WritePosition _ => true | _ => false end.

End Methods.

(* ---------------------------------------------------------------- *)
(** *** Vocabulary of the properties *)

(** The radius lies between the two distances of the options. *)
Definition radius_within (c : Controller) : Prop :=
  within (minDistance (options c)) (maxDistance (options c))
    (radius (spherical c)).

(** A pinch whose two touches are apart. *)
Definition fingers_apart (e : Event) : bool :=
  match e with
  | TouchMove _ d => negb (Qeq_bool d 0)
  | _ => true
  end.

(** What the rotate inputs and the ticks leave as it is. *)
Definition same_mode (c c' : Controller) : Prop :=
  options c' = options c /\ enabled c' = enabled c
  /\ isTransitioning c' = isTransitioning c.

(** The duration [navigateToNode] uses, in seconds. *)
Definition duration_of (c : Controller) : Q :=
  if reducedMotion (options c) then 1 # 10
  else transitionDuration (options c).

(** What [fallbackTransition] records when [navigateToNode] calls it. *)
Definition transition_of (c : Controller) (node : Node) (now0 : Q)
  : Transition :=
  mkTransition (camera_position c) (target c) now0 (duration_of c * 1000) node.

Definition entered (c : Controller) (i : Z) : Controller :=
  set_isTransitioning true (set_currentNodeIndex i c).

(** The events of a transition in flight, and the ticks of the render loop. *)
Definition is_transition_event (e : Event) : bool :=
  match e with
  | AnimationFrame _ | GsapTick _ _ | GsapComplete | Update _ => true
  | _ => false
  end.

(** [Tab] pressed again and again, each time followed by the events of the
    transition it starts. *)
Fixpoint tab_rounds (sfs : Spherical -> Vector3) (sfv : Vector3 -> Spherical)
  (c : Controller) (rounds : list (Q * Q * list Event)) : Controller :=
  match rounds with
  | [] => c
  | (now0, now1, es) :: rest =>
      tab_rounds sfs sfv
        (fst (run sfs sfv (fst (onKeyDown sfv c "Tab" false now0 now1)) es))
        rest
  end.

(** Each round consists of events of the transition and ends with the
    transition over. *)
Fixpoint completed (sfs : Spherical -> Vector3) (sfv : Vector3 -> Spherical)
  (c : Controller) (rounds : list (Q * Q * list Event)) : Prop :=
  match rounds with
  | [] => True
  | (now0, now1, es) :: rest =>
      let c' :=
        fst (run sfs sfv (fst (onKeyDown sfv c "Tab" false now0 now1)) es) in
      forallb is_transition_event es = true
      /\ isTransitioning c' = false
      /\ completed sfs sfv c' rest
  end.

(** The current index is one of the array of nodes. *)
Definition index_ok (c : Controller) : Prop :=
  (0 <= currentNodeIndex c < node_count c)%Z.

(** The current index stays one of the array, the array and the flag
    [enabled] stay as they are, whatever happens. *)
Definition settled (c c' : Controller) : Prop :=
  index_ok c' /\ nodePositions c' = nodePositions c /\ enabled c' = enabled c.

(** What only an accepted navigation changes. *)
Definition same_place (c c' : Controller) : Prop :=
  currentNodeIndex c' = currentNodeIndex c
  /\ enabled c' = enabled c
  /\ nodePositions c' = nodePositions c.

(** The keys that ask for a navigation: those the test on digits lets
    through, [Home] and [Tab]. *)
Definition is_navigation_key (key : string) : bool :=
  ((("1" <=? key) && (key <=? "5")) || (key =? "Home") || (key =? "Tab"))%string.

(** Effects that start nothing: no listener called, camera untouched. *)
Definition is_inert (a : Action) : bool :=
  negb (is_notify a) && negb (is_camera_write a).

(* ---------------------------------------------------------------- *)
(** *** CameraController.js: the remaining methods *)

(** [getCurrentTarget()]: the target of the current node; [None] is the
    [TypeError] of reading [target] of no node. *)
Definition getCurrentTarget (c : Controller) : option Vector3 :=
  if (currentNodeIndex c <? 0)%Z then None
  else option_map node_target
         (nth_error (nodePositions c) (Z.to_nat (currentNodeIndex c))).

Definition getNodePositions (c : Controller) : list Node := nodePositions c.

(** What [dispose()] does to the controller itself (what it asks of the DOM
    is in [Dom]). *)
Definition dispose (c : Controller) : Controller :=
  set_onNavigateCallbacks [] c.

Definition v_scale (v : Vector3) (k : Q) : Vector3 :=
  vec3 (vx v * k) (vy v * k) (vz v * k).

Section Position.

Variable setFromVector3 : Vector3 -> Spherical.

(** [Vector3.normalize] of three.js, which takes a square root. *)
Variable normalize : Vector3 -> Vector3.

(** [navigateToPosition(position, lookAt)] up to its [await]; the caller may
    leave [lookAt] out.  With GSAP the two tweens are kept as a motion whose
    destination has no name. *)
Definition navigateToPosition (c : Controller) (pos : Vector3)
  (lookAt : option Vector3) : Controller * list Action :=
  if isTransitioning c then (c, [])
  else
    let c1 := set_isTransitioning true c in
    let duration :=
      if reducedMotion (options c1) then 1 # 10
      else transitionDuration (options c1) in
    let direction :=
      normalize (v_sub pos match lookAt with Some l => l | None => pos end) in
    let viewPosition := v_add pos (v_scale direction 30) in
    if gsap c1 then
      (set_motion (Gsap (mkNode viewPosition pos EmptyString) duration) c1,
       [GsapTo CameraPosition viewPosition duration;
        GsapTo LookAtTarget pos duration])
    else
      (set_isTransitioning false (updateSphericalFromCamera setFromVector3 c1),
       []).

End Position.

(** Pointer moves that go to the right, the first one from [from]. *)
Fixpoint moving_right (from : Q) (es : list Event) : Prop :=
  match es with
  | [] => True
  | PointerMove x _ :: rest => from <= x /\ moving_right x rest
  | _ :: _ => False
  end.

(** How often a listener occurs in a list. *)
Definition occurrences (cb : nat) (l : list nat) : nat :=
  count_occ Nat.eq_dec l cb.

End CameraController.

(* ================================================================== *)
(** ** InteractionManager.js *)

Module InteractionManager.

(** [userData] of a scene object, as far as the program reads it. *)
Record UserData : Type := mkUserData {
  isNode : bool;
  index : Z;
  ud_name : string
}.

(** A [THREE.Object3D]: its identity, its [userData] if it has one, and its
    parent.  The scene is a tree: the chain of parents is finite. *)
#[warnings="-register-all"] Inductive Object3D : Type :=
| Obj (id : nat) (userData : option UserData) (parent : option Object3D).

Definition obj_id (o : Object3D) : nat := let 'Obj i _ _ := o in i.
Definition userData (o : Object3D) : option UserData :=
  let 'Obj _ u _ := o in u.
Definition parent (o : Object3D) : option Object3D :=
  let 'Obj _ _ p := o in p.

(** An element of the result of [Raycaster.intersectObjects]. *)
Record Intersection : Type := mkIntersection {
  object : Object3D;
  point : Vector3
}.

Inductive Channel : Type := Hover | Unhover | Click | Select.

(** A call of a listener: the channel, the listener, and the arguments
    (a [null] entity is [None]; [unhover] passes no intersection).  A listener
    is taken to return, and to leave the manager as it is. *)
Inductive Action : Type :=
| Call (ch : Channel) (cb : nat) (entity : option Object3D)
       (hit : option Intersection)
| SetCursor (c : string)
| SetTimeout (ms : Q)
| ClearTimeout.

Record Callbacks : Type := mkCallbacks {
  hover : list nat;
  unhover : list nat;
  click : list nat;
  select : list nat
}.

Record Manager : Type := mkManager {
  hoverDebounce : Q;
  mouse : Q * Q;
  normalizedMouse : Q * Q;
  hoveredObject : option Object3D;
  selectedObject : option Object3D;
  isEnabled : bool;
  callbacks : Callbacks;
  hoverDebounceTimer : bool
}.

Definition set_hoveredObject (h : option Object3D) (m : Manager) : Manager :=
  mkManager (hoverDebounce m) (mouse m) (normalizedMouse m) h
    (selectedObject m) (isEnabled m) (callbacks m) (hoverDebounceTimer m).

Definition set_selectedObject (s : option Object3D) (m : Manager) : Manager :=
  mkManager (hoverDebounce m) (mouse m) (normalizedMouse m) (hoveredObject m)
    s (isEnabled m) (callbacks m) (hoverDebounceTimer m).

Definition set_isEnabled (b : bool) (m : Manager) : Manager :=
  mkManager (hoverDebounce m) (mouse m) (normalizedMouse m) (hoveredObject m)
    (selectedObject m) b (callbacks m) (hoverDebounceTimer m).

Definition set_mouse (p n : Q * Q) (m : Manager) : Manager :=
  mkManager (hoverDebounce m) p n (hoveredObject m)
    (selectedObject m) (isEnabled m) (callbacks m) (hoverDebounceTimer m).

Definition set_timer (b : bool) (m : Manager) : Manager :=
  mkManager (hoverDebounce m) (mouse m) (normalizedMouse m) (hoveredObject m)
    (selectedObject m) (isEnabled m) (callbacks m) b.

Definition set_callbacks (k : Callbacks) (m : Manager) : Manager :=
  mkManager (hoverDebounce m) (mouse m) (normalizedMouse m) (hoveredObject m)
    (selectedObject m) (isEnabled m) k (hoverDebounceTimer m).

(** The state the constructor builds. *)
Definition construct : Manager :=
  mkManager 16 (0, 0) (0, 0) None None true (mkCallbacks [] [] [] []) false.

Definition listeners (m : Manager) (ch : Channel) : list nat :=
  match ch with
  | Hover => hover (callbacks m)
  | Unhover => unhover (callbacks m)
  | Click => click (callbacks m)
  | Select => select (callbacks m)
  end.

(** [on(event, callback)]. *)
Definition on (m : Manager) (ch : Channel) (cb : nat) : Manager :=
  let k := callbacks m in
  set_callbacks
    match ch with
    | Hover => mkCallbacks (hover k ++ [cb]) (unhover k) (click k) (select k)
    | Unhover => mkCallbacks (hover k) (unhover k ++ [cb]) (click k) (select k)
    | Click => mkCallbacks (hover k) (unhover k) (click k ++ [cb]) (select k)
    | Select => mkCallbacks (hover k) (unhover k) (click k) (select k ++ [cb])
    end m.

(** [triggerCallbacks(event, ...args)]. *)
Definition triggerCallbacks (m : Manager) (ch : Channel)
  (entity : option Object3D) (hit : option Intersection) : list Action :=
  map (fun cb => Call ch cb entity hit) (listeners m ch).

(** [findNodeGroup(object)]: the nearest of the object and its ancestors
    whose [userData.isNode] holds, [None] being [null]. *)
Fixpoint findNodeGroup (o : Object3D) : option Object3D :=
  match o with
  | Obj _ u p =>
      if match u with Some d => isNode d | None => false end
      then Some o
      else match p with
           | Some q => findNodeGroup q
           | None => None
           end
  end.

(** [a !== b] on two references, each possibly [null]: objects are the
    same when their identities are. *)
Definition differs (a b : option Object3D) : bool :=
  match a, b with
  | None, None => false
  | Some x, Some y => negb (obj_id x =? obj_id y)%nat
  | _, _ => true
  end.

Definition is_some {A : Type} (x : option A) : bool :=
  match x with Some _ => true | None => false end.

(** [checkHover()], for the list [this.raycast()] returns. *)
Definition checkHover (m : Manager) (intersections : list Intersection)
  : Manager * list Action :=
  match intersections with
  | first :: _ =>
      let firstHit := object first in
      let nodeGroup := findNodeGroup firstHit in
      if differs nodeGroup (hoveredObject m) then
        let left :=
          if is_some (hoveredObject m)
          then triggerCallbacks m Unhover (hoveredObject m) None
          else [] in
        let m1 := set_hoveredObject nodeGroup m in
        (m1,
         left ++ [SetCursor "pointer"]
              ++ triggerCallbacks m1 Hover nodeGroup (Some first))
      else (m, [])
  | [] =>
      if is_some (hoveredObject m) then
        (set_hoveredObject None m,
         triggerCallbacks m Unhover (hoveredObject m) None
           ++ [SetCursor "grab"])
      else (m, [])
  end.

(** [onPointerMove(event)]; [p] and [n] are what [updateMouse] computes
    from the event and the bounding rectangle. *)
Definition onPointerMove (m : Manager) (p n : Q * Q) : Manager * list Action :=
  if negb (isEnabled m) then (m, [])
  else
    let m1 := set_mouse p n m in
    (set_timer true m1,
     (if hoverDebounceTimer m1 then [ClearTimeout] else [])
       ++ [SetTimeout (hoverDebounce m1)]).

(** The body of [onClick] and of [onTouchEnd] once the ray is cast. *)
Definition select_hit (m : Manager) (intersections : list Intersection)
  : Manager * list Action :=
  match intersections with
  | first :: _ =>
      match findNodeGroup (object first) with
      | Some nodeGroup =>
          let m1 := set_selectedObject (Some nodeGroup) m in
          (m1,
           triggerCallbacks m1 Click (Some nodeGroup) (Some first)
             ++ triggerCallbacks m1 Select (Some nodeGroup) (Some first))
      | None => (m, [])
      end
  | [] => (m, [])
  end.

Definition onClick (m : Manager) (p n : Q * Q)
  (intersections : list Intersection) : Manager * list Action :=
  if negb (isEnabled m) then (m, [])
  else select_hit (set_mouse p n m) intersections.

(** [onTouchEnd(event)]: [changed] is [event.changedTouches.length]. *)
Definition onTouchEnd (m : Manager) (changed : nat) (n : Q * Q)
  (intersections : list Intersection) : Manager * list Action :=
  if negb (isEnabled m) then (m, [])
  else if (0 <? changed)%nat
       then select_hit (set_mouse (mouse m) n m) intersections
       else (m, []).

(** [setEnabled(enabled)]. *)
Definition setEnabled (m : Manager) (b : bool) : Manager * list Action :=
  let m1 := set_isEnabled b m in
  if negb b then
    if is_some (hoveredObject m1)
    then (set_hoveredObject None m1,
          triggerCallbacks m1 Unhover (hoveredObject m1) None
            ++ [SetCursor "default"])
    else (m1, [SetCursor "default"])
  else (m1, []).

Definition is_call (ch : Channel) (a : Action) : bool :=
  match a, ch with
  | Call Hover _ _ _, Hover | Call Unhover _ _ _, Unhover
  | Call Click _ _ _, Click | Call Select _ _ _, Select => true
  | _, _ => false
  end.

(* ---------------------------------------------------------------- *)
(** *** Vocabulary of the properties *)

(** The object and its ancestors, nearest first. *)
Fixpoint chain (o : Object3D) : list Object3D :=
  match o with
  | Obj _ _ p => o :: match p with Some q => chain q | None => [] end
  end.

(** [userData && userData.isNode]. *)
Definition flagged (o : Object3D) : bool :=
  match userData o with Some d => isNode d | None => false end.

(** What a list of intersections resolves to. *)
Definition resolved (intersections : list Intersection) : option Object3D :=
  match intersections with
  | first :: _ => findNodeGroup (object first)
  | [] => None
  end.

(* ---------------------------------------------------------------- *)
(** *** InteractionManager.js: the remaining methods *)

(** [off(event, callback)]: the first occurrence of the callback goes. *)
Fixpoint remove_first (cb : nat) (l : list nat) : list nat :=
  match l with
  | [] => []
  | x :: rest => if (x =? cb)%nat then rest else x :: remove_first cb rest
  end.

Definition off (m : Manager) (ch : Channel) (cb : nat) : Manager :=
  let k := callbacks m in
  set_callbacks
    match ch with
    | Hover =>
        mkCallbacks (remove_first cb (hover k)) (unhover k) (click k) (select k)
    | Unhover =>
        mkCallbacks (hover k) (remove_first cb (unhover k)) (click k) (select k)
    | Click =>
        mkCallbacks (hover k) (unhover k) (remove_first cb (click k)) (select k)
    | Select =>
        mkCallbacks (hover k) (unhover k) (click k) (remove_first cb (select k))
    end m.

Definition getHovered (m : Manager) : option Object3D := hoveredObject m.

Definition getSelected (m : Manager) : option Object3D := selectedObject m.

Definition clearSelection (m : Manager) : Manager := set_selectedObject None m.

(** [this.hoveredObject === object] and [this.selectedObject === object]. *)
Definition same_object (a : option Object3D) (o : Object3D) : bool :=
  match a with
  | Some x => (obj_id x =? obj_id o)%nat
  | None => false
  end.

Definition isHovered (m : Manager) (o : Object3D) : bool :=
  same_object (hoveredObject m) o.

Definition isSelected (m : Manager) (o : Object3D) : bool :=
  same_object (selectedObject m) o.

(** [this.selectables], which only the ray caster reads, is kept apart from
    the manager: the three methods on it, on the array itself. *)
Definition includes (objects : list Object3D) (o : Object3D) : bool :=
  existsb (fun x => (obj_id x =? obj_id o)%nat) objects.

Definition setSelectables (selectables objects : list Object3D)
  : list Object3D := objects.

Definition addSelectables (selectables objects : list Object3D)
  : list Object3D := selectables ++ objects.

Definition removeSelectables (selectables objects : list Object3D)
  : list Object3D :=
  filter (fun obj => negb (includes objects obj)) selectables.

(** [getBoundingClientRect()] of the element, as far as it is read. *)
Record Rect : Type := mkRect {
  left : Q;
  top : Q;
  width : Q;
  height : Q
}.

(** What [updateMouse(event)] gives [this.mouse] and [this.normalizedMouse].
    (The quotients are those of the rationals: an element of no width or no
    height is outside the model.) *)
Definition mouse_of (r : Rect) (clientX clientY : Q) : Q * Q :=
  (clientX - left r, clientY - top r).

Definition normalized_of (r : Rect) (clientX clientY : Q) : Q * Q :=
  (fst (mouse_of r clientX clientY) / width r * 2 - 1,
   - (snd (mouse_of r clientX clientY) / height r) * 2 + 1).

Definition updateMouse (m : Manager) (r : Rect) (clientX clientY : Q)
  : Manager :=
  set_mouse (mouse_of r clientX clientY) (normalized_of r clientX clientY) m.

(** What [onTouchEnd] gives [this.normalizedMouse] for the touch that
    ended. *)
Definition touch_normalized (r : Rect) (clientX clientY : Q) : Q * Q :=
  ((clientX - left r) / width r * 2 - 1,
   - ((clientY - top r) / height r) * 2 + 1).

(** What [dispose()] does to the manager itself. *)
Definition dispose (m : Manager) : Manager * list Action :=
  (set_callbacks (mkCallbacks [] [] [] []) m,
   if hoverDebounceTimer m then [ClearTimeout] else []).

(* ---------------------------------------------------------------- *)
(** *** The hover timer

    The manager with the timer it has set: [due] is the time at which the
    pending call of [checkHover] is due, if one is pending.  A timer that is
    due has fired before an event that comes no earlier than it is due. *)

Record Timed : Type := mkTimed {
  manager : Manager;
  due : option Q
}.

Section Resolution.

(** [this.raycast()] as a function of [this.normalizedMouse], for a camera
    and selectables that stay as they are. *)
Variable raycast : Q * Q -> list Intersection.

(** Time passes until [now]. *)
Definition timed_elapse (t : Timed) (now : Q) : Timed * list Action :=
  match due t with
  | Some d =>
      if Qle_bool d now then
        let '(m, emitted) :=
          checkHover (manager t) (raycast (normalizedMouse (manager t))) in
        (mkTimed m None, emitted)
      else (t, [])
  | None => (t, [])
  end.

(** A [pointermove] at the time [now]. *)
Definition timed_pointerMove (t : Timed) (now : Q) (p n : Q * Q)
  : Timed * list Action :=
  let '(t1, fired) := timed_elapse t now in
  let '(m, set) := onPointerMove (manager t1) p n in
  (mkTimed m
     (if isEnabled (manager t1) then Some (now + hoverDebounce m)
      else due t1),
   fired ++ set).

(** [setEnabled(enabled)] at the time [now]: the timer is left alone. *)
Definition timed_setEnabled (t : Timed) (now : Q) (b : bool)
  : Timed * list Action :=
  let '(t1, fired) := timed_elapse t now in
  let '(m, emitted) := setEnabled (manager t1) b in
  (mkTimed m (due t1), fired ++ emitted).

(** Pointer moves one after the other, each with its time. *)
Fixpoint timed_moves (t : Timed) (moves : list (Q * ((Q * Q) * (Q * Q))))
  : Timed * list Action :=
  match moves with
  | [] => (t, [])
  | (now, (p, n)) :: rest =>
      let '(t1, e1) := timed_pointerMove t now p n in
      let '(t2, e2) := timed_moves t1 rest in
      (t2, e1 ++ e2)
  end.

End Resolution.

(** *** Vocabulary of the properties (continued) *)

(** [null], or an object flagged as a node. *)
Definition node_or_null (o : option Object3D) : Prop :=
  match o with
  | Some g => flagged g = true
  | None => True
  end.

Definition is_timer_effect (a : Action) : bool :=
  match a with
  | SetTimeout _ | ClearTimeout => true
  | _ => false
  end.

(** Pointer moves that follow one another, each less than [w] after the one
    before. *)
Fixpoint close_moves (w start : Q) (moves : list (Q * ((Q * Q) * (Q * Q))))
  : Prop :=
  match moves with
  | [] => True
  | (t, _) :: rest => start <= t /\ t - start < w /\ close_moves w t rest
  end.

Fixpoint last_move (first : Q * ((Q * Q) * (Q * Q)))
  (moves : list (Q * ((Q * Q) * (Q * Q)))) : Q * ((Q * Q) * (Q * Q)) :=
  match moves with
  | [] => first
  | mv :: rest => last_move mv rest
  end.

(** What can happen to a manager: the three events it listens to, with the
    list the ray gives where one is cast; its timer firing; the calls of its
    interface. *)
Inductive Input : Type :=
| PointerMoved (p n : Q * Q)
| HoverChecked (intersections : list Intersection)
| Clicked (p n : Q * Q) (intersections : list Intersection)
| TouchEnded (changed : nat) (n : Q * Q) (intersections : list Intersection)
| EnabledSet (b : bool)
| SelectionCleared
| Registered (ch : Channel) (cb : nat)
| Unregistered (ch : Channel) (cb : nat).

Definition handle (m : Manager) (i : Input) : Manager * list Action :=
  match i with
  | PointerMoved p n => onPointerMove m p n
  | HoverChecked l => checkHover m l
  | Clicked p n l => onClick m p n l
  | TouchEnded k n l => onTouchEnd m k n l
  | EnabledSet b => setEnabled m b
  | SelectionCleared => (clearSelection m, [])
  | Registered ch cb => (on m ch cb, [])
  | Unregistered ch cb => (off m ch cb, [])
  end.

Fixpoint handle_all (m : Manager) (l : list Input) : Manager * list Action :=
  match l with
  | [] => (m, [])
  | i :: rest =>
      let '(m1, a1) := handle m i in
      let '(m2, a2) := handle_all m1 rest in
      (m2, a1 ++ a2)
  end.

(** The events of the pointer and of touch. *)
Definition is_pointer_input (i : Input) : bool :=
  match i with
  | PointerMoved _ _ | Clicked _ _ _ | TouchEnded _ _ _ => true
  | _ => false
  end.

End InteractionManager.

(* ================================================================== *)
(** ** main.js: the two objects wired together *)

Module App.

Record App : Type := mkApp {
  isInitialized : bool;
  cameraController : CameraController.Controller;
  interactionManager : InteractionManager.Manager
}.

(** Effects of the application: those of its two objects, and what its own
    listeners ask of the content nodes and of the panel. *)
Inductive Action : Type :=
| Camera (a : CameraController.Action)
| Interaction (a : InteractionManager.Action)
| SetSelected (index : Z)
| OpenPanelLater (index : Z) (ms : Q)
| SetHovered (id : option nat)
| ShowTooltip (nm : string)
| HighlightPosition (id : nat).

Definition set_cameraController (c : CameraController.Controller) (a : App)
  : App :=
  mkApp (isInitialized a) c (interactionManager a).

Definition set_interactionManager (m : InteractionManager.Manager) (a : App)
  : App :=
  mkApp (isInitialized a) (cameraController a) m.

(** The listener [setupInteractionCallbacks] registers on [select]. *)
Definition select_listener : nat := 0%nat.

(** The listener it registers on [hover], with what it does and whether it
    ends by throwing.  It tests [nodeGroup?.userData] before the tooltip, then
    reads [nodeGroup.position] with no test: a [TypeError] when the entity is
    [null]. *)
Definition onHover (nodeGroup : option InteractionManager.Object3D)
  : list Action * bool :=
  match nodeGroup with
  | Some g =>
      (SetHovered (Some (InteractionManager.obj_id g))
         :: match InteractionManager.userData g with
            | Some d => [ShowTooltip (InteractionManager.ud_name d)]
            | None => []
            end
         ++ [HighlightPosition (InteractionManager.obj_id g)],
       false)
  | None => ([SetHovered None], true)
  end.

Section Wiring.

Variable setFromVector3 : Vector3 -> Spherical.

(** [App.navigateToNode(index)]. *)
Definition navigateToNode (a : App) (index : Z) (now0 now1 : Q)
  : App * list Action :=
  if negb (isInitialized a) then (a, [])
  else
    let '(c, done) :=
      CameraController.navigateToNode setFromVector3
        (cameraController a) index now0 now1 in
    (set_cameraController c a, map Camera done ++ [SetSelected index]).

(** The [select] listener. *)
Definition onSelect (a : App) (nodeGroup : option InteractionManager.Object3D)
  (now0 now1 : Q) : App * list Action :=
  match nodeGroup with
  | Some g =>
      match InteractionManager.userData g with
      | Some d =>
          let nodeIndex := InteractionManager.index d in
          let '(a1, done) := navigateToNode a nodeIndex now0 now1 in
          (a1, done ++ [OpenPanelLater nodeIndex 500])
      | None => (a, [])
      end
  | None => (a, [])
  end.

(** The effects of the interaction manager, each call of the [select]
    listener being followed by what the listener does. *)
Fixpoint deliver (a : App) (l : list InteractionManager.Action)
  (now0 now1 : Q) : App * list Action :=
  match l with
  | [] => (a, [])
  | x :: rest =>
      let '(a1, here) :=
        match x with
        | InteractionManager.Call InteractionManager.Select cb e _ =>
            if (cb =? select_listener)%nat then onSelect a e now0 now1
            else (a, [])
        | _ => (a, [])
        end in
      let '(a2, after) := deliver a1 rest now0 now1 in
      (a2, Interaction x :: here ++ after)
  end.

(** A click on the canvas. *)
Definition onClick (a : App) (p n : Q * Q)
  (intersections : list InteractionManager.Intersection) (now0 now1 : Q)
  : App * list Action :=
  let '(m, emitted) :=
    InteractionManager.onClick (interactionManager a) p n intersections in
  deliver (set_interactionManager m a) emitted now0 now1.

(** The end of a touch on the canvas. *)
Definition onTouchEnd (a : App) (changed : nat) (n : Q * Q)
  (intersections : list InteractionManager.Intersection) (now0 now1 : Q)
  : App * list Action :=
  let '(m, emitted) :=
    InteractionManager.onTouchEnd (interactionManager a) changed n
      intersections in
  deliver (set_interactionManager m a) emitted now0 now1.

(** The two objects wired as [initialize3D] wires them: one listener on
    each of the channels [navigate], [hover], [unhover] and [select].  The
    controller is the one [new CameraController] gives for a camera at
    [(0, 0, 50)] when its [init] reads the camera before any frame is
    rendered.  In [main.js] the render loop starts at once and its first
    [update] moves the camera before [init] has read it, so this is a sample
    state of the application, not the one it starts in: the properties of
    the application hold of every state, and the closed examples are run on
    this one. *)
Definition start (o : CameraController.Options) (has_gsap : bool) : App :=
  mkApp true
    (CameraController.onNavigate
       (CameraController.construct setFromVector3 (vec3 0 0 50) o has_gsap)
       0%nat)
    (InteractionManager.on
       (InteractionManager.on
          (InteractionManager.on InteractionManager.construct
             InteractionManager.Hover 0%nat)
          InteractionManager.Unhover 0%nat)
       InteractionManager.Select select_listener).

Definition is_select (x : Action) : bool :=
  match x with
  | Interaction (InteractionManager.Call InteractionManager.Select _ _ _) =>
      true
  | _ => false
  end.

End Wiring.

End App.

(* ================================================================== *)
(** ** A scene to run the model on *)

Module Sample.

Import CameraController.

(** The polar angle of a point of the z axis, [Math.PI / 2], to sixteen
    digits. *)
Definition half_pi : Q := 15707963267948966 # 10000000000000000.

(** Two functions to run the model on, in the place of the conversions of
    three.js, which need a square root and trigonometry.  On the z axis
    through the target they are the conversions: the point [(0, 0, z)] is at
    radius [|z|], polar angle [pi / 2] and azimuth [0].  Off the axis they
    are not, and the spherical coordinates they give after the camera has
    gone to a node off the axis are not those of three.js: the closed
    examples read flags, indices, effects, positions and targets, none of
    which depends on them. *)
Definition from_z_axis (v : Vector3) : Spherical :=
  sph (Fin (Qabs (vz v))) half_pi 0.

Definition on_z_axis (s : Spherical) : Vector3 :=
  vec3 0 0 match radius s with Fin r => r | _ => 0 end.

(** The application as [main.js] wires it, without GSAP. *)
Definition app : App.App := App.start from_z_axis default_options false.

Definition controller : Controller := App.cameraController app.

Definition manager : InteractionManager.Manager := App.interactionManager app.

(** The same controller once the user prefers reduced motion. *)
Definition reduced : Controller := setReducedMotion controller true.

(** The group of the node "Work", a mesh in it, and a selectable object that
    belongs to no node. *)
Definition work_group : InteractionManager.Object3D :=
  InteractionManager.Obj 2
    (Some (InteractionManager.mkUserData true 2 "Work")) None.

Definition work_mesh : InteractionManager.Object3D :=
  InteractionManager.Obj 20 None (Some work_group).

Definition stray : InteractionManager.Object3D :=
  InteractionManager.Obj 9
    (Some (InteractionManager.mkUserData false 0 EmptyString)) None.

Definition hit (o : InteractionManager.Object3D)
  : InteractionManager.Intersection :=
  InteractionManager.mkIntersection o (vec3 0 0 0).

(** The manager while the pointer rests on the mesh of "Work". *)
Definition hovering : InteractionManager.Manager :=
  fst (InteractionManager.checkHover manager [hit work_mesh]).

(** Five presses of [Tab], three seconds apart, each followed by two frames,
    the second one after the two seconds of the transition. *)
Definition five_rounds : list (Q * Q * list Event) :=
  [ (0, 0, [AnimationFrame 16; AnimationFrame 2000]);
    (3000, 3000, [AnimationFrame 3016; AnimationFrame 5000]);
    (6000, 6000, [AnimationFrame 6016; AnimationFrame 8000]);
    (9000, 9000, [AnimationFrame 9016; AnimationFrame 11000]);
    (12000, 12000, [AnimationFrame 12016; AnimationFrame 14000]) ].

End Sample.

(* ================================================================== *)
(** ** AnimationHelpers.js *)

Module AnimationHelpers.

(** *** The easing functions that are polynomials

    ([--t] decrements [t] before the product is taken: the factors that
    follow read the decremented value.) *)

Module Easing.

Definition linear (t : Q) : Q := t.

Definition easeInQuad (t : Q) : Q := t * t.

Definition easeOutQuad (t : Q) : Q := t * (2 - t).

Definition easeInOutQuad (t : Q) : Q :=
  if Qltb t (1 # 2) then 2 * t * t else (-1 # 1) + (4 - 2 * t) * t.

Definition easeInCubic (t : Q) : Q := t * t * t.

Definition easeOutCubic (t : Q) : Q :=
  let t := t - 1 in t * t * t + 1.

Definition easeInOutCubic (t : Q) : Q :=
  if Qltb t (1 # 2) then 4 * t * t * t
  else (t - 1) * (2 * t - 2) * (2 * t - 2) + 1.

Definition easeInQuart (t : Q) : Q := t * t * t * t.

Definition easeOutQuart (t : Q) : Q :=
  let t := t - 1 in 1 - t * t * t * t.

Definition easeInOutQuart (t : Q) : Q :=
  if Qltb t (1 # 2) then 8 * t * t * t * t
  else let t := t - 1 in 1 - 8 * t * t * t * t.

Definition easeInQuint (t : Q) : Q := t * t * t * t * t.

Definition easeOutQuint (t : Q) : Q :=
  let t := t - 1 in 1 + t * t * t * t * t.

Definition easeInOutQuint (t : Q) : Q :=
  if Qltb t (1 # 2) then 16 * t * t * t * t * t
  else let t := t - 1 in 1 + 16 * t * t * t * t * t.

(** The constant [1.70158] of the "back" easings. *)
Definition back_c : Q := 170158 # 100000.

Definition easeInBack (t : Q) : Q :=
  let c := back_c in
  (c + 1) * t * t * t - c * t * t.

Definition easeOutBack (t : Q) : Q :=
  let c := back_c in
  1 + (c + 1) * (t - 1) ^ 3 + c * (t - 1) ^ 2.

Definition easeOutBounce (t : Q) : Q :=
  let n1 := 75625 # 10000 in
  let d1 := 275 # 100 in
  if Qltb t (1 / d1) then n1 * t * t
  else if Qltb t (2 / d1) then
    let t := t - (15 # 10) / d1 in n1 * t * t + (75 # 100)
  else if Qltb t ((25 # 10) / d1) then
    let t := t - (225 # 100) / d1 in n1 * t * t + (9375 # 10000)
  else
    let t := t - (2625 # 1000) / d1 in n1 * t * t + (984375 # 1000000).

Definition easeInBounce (t : Q) : Q := 1 - easeOutBounce (1 - t).

End Easing.

(** *** [animate] *)

(** The options of [animate], the two callbacks being given or not. *)
Record AnimateOptions : Type := mkAnimate {
  from : Q;
  to : Q;
  duration : Q;
  easing : Q -> Q;
  onUpdate : bool;
  onComplete : bool
}.

(** What a tick does to the outside. *)
Inductive Effect (V : Type) : Type :=
| OnUpdate (value : V) (progress : Q)
| RequestAnimationFrame
| OnComplete.

Arguments OnUpdate {V} value progress.
Arguments RequestAnimationFrame {V}.
Arguments OnComplete {V}.

(** One call of [tick], [startTime] being what [performance.now()] gave when
    [animate] was called.  (The quotient is the one of the rationals: a zero
    [duration] is outside the model.) *)
Definition tick (o : AnimateOptions) (startTime currentTime : Q)
  : list (Effect Q) :=
  let elapsed := currentTime - startTime in
  let progress := Qmin (elapsed / duration o) 1 in
  let easedProgress := easing o progress in
  let currentValue := from o + (to o - from o) * easedProgress in
  (if onUpdate o then [OnUpdate currentValue progress] else [])
    ++ (if Qltb progress 1 then [RequestAnimationFrame]
        else if onComplete o then [OnComplete] else []).

(** *** Interpolation and ranges *)

Definition lerp (start end_ t : Q) : Q := start + (end_ - start) * t.

(** (The quotient is the one of the rationals: equal edges are outside the
    model.) *)
Definition smoothstep (edge0 edge1 x : Q) : Q :=
  let t := Qmax 0 (Qmin 1 ((x - edge0) / (edge1 - edge0))) in
  t * t * (3 - 2 * t).

(** (Likewise for [inMin = inMax].) *)
Definition mapRange (value inMin inMax outMin outMax : Q) : Q :=
  (value - inMin) * (outMax - outMin) / (inMax - inMin) + outMin.

Definition clamp (value min max : Q) : Q := Qmax min (Qmin max value).

(** *** [debounce] and [throttle]

    Time is given with each call.  A timer that is due has fired before a
    call that comes no earlier than it is due. *)

(** The closure [debounce] returns: the waiting time, and the timer that is
    set, with the time at which it is due and the arguments it will pass. *)
Record Debounced (A : Type) : Type := mkDebounced {
  wait : Q;
  timeout : option (Q * A)
}.

Arguments mkDebounced {A} wait timeout.
Arguments wait {A} d.
Arguments timeout {A} d.

Definition debounce {A : Type} (wait : Q) : Debounced A :=
  mkDebounced wait None.

(** Time passes until [now]: the timer, if due, runs [later], which calls
    [func] with the arguments kept. *)
Definition debounce_elapse {A : Type} (d : Debounced A) (now : Q)
  : Debounced A * list (Q * A) :=
  match timeout d with
  | Some (due, args) =>
      if Qle_bool due now then (mkDebounced (wait d) None, [(due, args)])
      else (d, [])
  | None => (d, [])
  end.

(** [executedFunction(...args)] at the time [now]. *)
Definition debounce_call {A : Type} (d : Debounced A) (now : Q) (args : A)
  : Debounced A * list (Q * A) :=
  let '(d1, fired) := debounce_elapse d now in
  (mkDebounced (wait d1) (Some (now + wait d1, args)), fired).

(** A sequence of calls, then the time [finally]; the result lists the calls
    of [func], each with the time at which its timer was due. *)
Fixpoint debounce_run {A : Type} (d : Debounced A) (calls : list (Q * A))
  (finally : Q) : list (Q * A) :=
  match calls with
  | [] => snd (debounce_elapse d finally)
  | (now, args) :: rest =>
      let '(d1, fired) := debounce_call d now args in
      fired ++ debounce_run d1 rest finally
  end.

(** The closure [throttle] returns: the limit, and, while [inThrottle]
    holds, the time at which its timer resets it. *)
Record Throttled : Type := mkThrottled {
  limit : Q;
  inThrottle : option Q
}.

Definition throttle (limit : Q) : Throttled := mkThrottled limit None.

Definition throttle_elapse (th : Throttled) (now : Q) : Throttled :=
  match inThrottle th with
  | Some due => if Qle_bool due now then mkThrottled (limit th) None else th
  | None => th
  end.

(** [executedFunction(...args)] at the time [now]: the call of [func], if it
    is made. *)
Definition throttle_call {A : Type} (th : Throttled) (now : Q) (args : A)
  : Throttled * list (Q * A) :=
  let th1 := throttle_elapse th now in
  match inThrottle th1 with
  | None => (mkThrottled (limit th1) (Some (now + limit th1)), [(now, args)])
  | Some _ => (th1, [])
  end.

Fixpoint throttle_run {A : Type} (th : Throttled) (calls : list (Q * A))
  : list (Q * A) :=
  match calls with
  | [] => []
  | (now, args) :: rest =>
      let '(th1, made) := throttle_call th now args in
      made ++ throttle_run th1 rest
  end.

(** *** [DeltaTime] *)

Record DeltaTime : Type := mkDeltaTime {
  lastTime : Q;
  delta : Q;
  elapsed : Q
}.

(** [new DeltaTime()] and [reset()], [now] being [performance.now()]. *)
Definition newDeltaTime (now : Q) : DeltaTime := mkDeltaTime now 0 0.

Definition dt_reset (d : DeltaTime) (now : Q) : DeltaTime := mkDeltaTime now 0 0.

(** [update()]: the new state; [getDelta] of it is what the call returns. *)
Definition dt_update (d : DeltaTime) (now : Q) : DeltaTime :=
  let delta := (now - lastTime d) / 1000 in
  mkDeltaTime now delta (elapsed d + delta).

(** *** Vocabulary of the properties *)

(** Between zero and one. *)
Definition unit (x : Q) : Prop := 0 <= x /\ x <= 1.

(** Calls that follow one another, the first one following the time
    [start], each less than [w] after the one before. *)
Fixpoint burst {A : Type} (w start : Q) (calls : list (Q * A)) : Prop :=
  match calls with
  | [] => True
  | (t, _) :: rest => start <= t /\ t - start < w /\ burst w t rest
  end.

(** Calls each at least [w] after the one before. *)
Fixpoint spaced {A : Type} (w start : Q) (calls : list (Q * A)) : Prop :=
  match calls with
  | [] => True
  | (t, _) :: rest => start + w <= t /\ spaced w t rest
  end.

(** The last of the calls, [first] when there is none. *)
Fixpoint last_call {A : Type} (first : Q * A) (calls : list (Q * A)) : Q * A :=
  match calls with
  | [] => first
  | c :: rest => last_call c rest
  end.

(** Calls of which each comes [lim] or more after the one before. *)
Fixpoint apart {A : Type} (lim : Q) (l : list (Q * A)) : Prop :=
  match l with
  | [] => True
  | (t, _) :: rest =>
      match rest with
      | (t', _) :: _ => t + lim <= t'
      | [] => True
      end
      /\ apart lim rest
  end.

(** Readings of a clock that does not go back, the first one not before
    [from]. *)
Fixpoint ascending (from : Q) (times : list Q) : Prop :=
  match times with
  | [] => True
  | t :: rest => from <= t /\ ascending t rest
  end.

(** The state after [update()] at each of the times, in turn. *)
Definition dt_updates (d : DeltaTime) (times : list Q) : DeltaTime :=
  fold_left dt_update times d.

End AnimationHelpers.

(* ================================================================== *)
(** ** Event listeners on the DOM

    What [setupEventListeners] and [dispose] of the two classes ask of the
    page.  A listener is known by its target, its event and its function, and
    functions are compared by identity: the method of a class is one
    function; each [bind] and each arrow makes a new one. *)

Module Dom.

Inductive Fn : Type :=
| Method (cls name : string)
| Bound (cls name : string) (serial : nat)
| Arrow (serial : nat).

Definition fn_eqb (f g : Fn) : bool :=
  match f, g with
  | Method c n, Method c' n' => ((c =? c') && (n =? n'))%string
  | Bound c n k, Bound c' n' k' =>
      ((c =? c') && (n =? n'))%string && (k =? k')%nat
  | Arrow k, Arrow k' => (k =? k')%nat
  | _, _ => false
  end.

Record Listener : Type := mkListener {
  on_target : string;
  on_event : string;
  fn : Fn
}.

Definition listener_eqb (a b : Listener) : bool :=
  ((on_target a =? on_target b) && (on_event a =? on_event b))%string
  && fn_eqb (fn a) (fn b).

(** The listeners of the page, and the number of functions made so far. *)
Record Page : Type := mkPage {
  listeners : list Listener;
  made : nat
}.

Definition empty : Page := mkPage [] 0.

(** [target.addEventListener(event, f)]: a listener already there is not
    added again. *)
Definition addEventListener (p : Page) (target event : string) (f : Fn)
  : Page :=
  let l := mkListener target event f in
  if existsb (listener_eqb l) (listeners p) then p
  else mkPage (listeners p ++ [l]) (made p).

(** [target.removeEventListener(event, f)]. *)
Definition removeEventListener (p : Page) (target event : string) (f : Fn)
  : Page :=
  mkPage
    (filter (fun x => negb (listener_eqb (mkListener target event f) x))
       (listeners p))
    (made p).

(** [target.addEventListener(event, this.name.bind(this))]. *)
Definition add_bound (p : Page) (target event cls name : string) : Page :=
  addEventListener (mkPage (listeners p) (S (made p))) target event
    (Bound cls name (made p)).

(** [target.addEventListener(event, (e) => ...)]. *)
Definition add_arrow (p : Page) (target event : string) : Page :=
  addEventListener (mkPage (listeners p) (S (made p))) target event
    (Arrow (made p)).

(** [target.removeEventListener(event, this.name)]. *)
Definition remove_method (p : Page) (target event cls name : string) : Page :=
  removeEventListener p target event (Method cls name).

(** [CameraController.setupEventListeners()] and [dispose()]. *)
Definition camera_setup (p : Page) : Page :=
  let c := "CameraController"%string in
  let p := add_bound p "domElement" "pointerdown" c "onPointerDown" in
  let p := add_bound p "domElement" "pointermove" c "onPointerMove" in
  let p := add_bound p "domElement" "pointerup" c "onPointerUp" in
  let p := add_bound p "domElement" "pointercancel" c "onPointerUp" in
  let p := add_bound p "domElement" "wheel" c "onWheel" in
  let p := add_bound p "domElement" "touchstart" c "onTouchStart" in
  let p := add_bound p "domElement" "touchmove" c "onTouchMove" in
  let p := add_bound p "document" "keydown" c "onKeyDown" in
  add_arrow p "domElement" "contextmenu".

Definition camera_dispose (p : Page) : Page :=
  let c := "CameraController"%string in
  let p := remove_method p "domElement" "pointerdown" c "onPointerDown" in
  let p := remove_method p "domElement" "pointermove" c "onPointerMove" in
  let p := remove_method p "domElement" "pointerup" c "onPointerUp" in
  let p := remove_method p "domElement" "wheel" c "onWheel" in
  let p := remove_method p "domElement" "touchstart" c "onTouchStart" in
  let p := remove_method p "domElement" "touchmove" c "onTouchMove" in
  remove_method p "document" "keydown" c "onKeyDown".

(** [InteractionManager.setupEventListeners()] and [dispose()]. *)
Definition interaction_setup (p : Page) : Page :=
  let c := "InteractionManager"%string in
  let p := add_bound p "domElement" "pointermove" c "onPointerMove" in
  let p := add_bound p "domElement" "click" c "onClick" in
  add_bound p "domElement" "touchend" c "onTouchEnd".

Definition interaction_dispose (p : Page) : Page :=
  let c := "InteractionManager"%string in
  let p := remove_method p "domElement" "pointermove" c "onPointerMove" in
  let p := remove_method p "domElement" "click" c "onClick" in
  remove_method p "domElement" "touchend" c "onTouchEnd".

(** A function made by [bind] or by an arrow, with a serial below [k]. *)
Definition serial_below (k : nat) (f : Fn) : bool :=
  match f with
  | Method _ _ => false
  | Bound _ _ s | Arrow s => (s <? k)%nat
  end.

(** Every listener of the page is such a function, made before now: no
    bare method of a class is registered. *)
Definition well_formed (p : Page) : bool :=
  forallb (fun l => serial_below (made p) (fn l)) (listeners p).

End Dom.

(* ================================================================== *)
(** ** AccessibilityManager.js: keyboard navigation *)

Module AccessibilityManager.

(** The manager: [options.nodeCount], whether the two callbacks of the
    options are given, and its own fields. *)
Record Manager : Type := mkManager {
  nodeCount : Z;
  onNodeFocus : bool;
  onNodeActivate : bool;
  currentFocusIndex : Z;
  isKeyboardNavActive : bool;
  reducedMotion : bool
}.

Inductive Action : Type :=
| PreventDefault
| NodeFocus (index : Z)
| NodeActivate (index : Z)
| AnnounceHelp.

(** A [keydown] on the document: the key, [shiftKey], whether the target is
    an [INPUT] or a [TEXTAREA], and whether it lies in the content panel or
    in the list of the navigation. *)
Record KeyEvent : Type := mkKey {
  key : string;
  shiftKey : bool;
  typing : bool;
  in_panel_or_list : bool
}.

(** The state the constructor builds, for a [matchMedia] that answers
    [reduced]. *)
Definition construct (count : Z) (focus activate reduced : bool) : Manager :=
  mkManager count focus activate 0 false reduced.

Definition focusNode (m : Manager) (index : Z) : Manager * list Action :=
  (mkManager (nodeCount m) (onNodeFocus m) (onNodeActivate m) index true
     (reducedMotion m),
   if onNodeFocus m then [NodeFocus index] else []).

(** The remainder [%] is taken by a number of nodes that is not zero. *)
Definition focusNextNode (m : Manager) : Manager * list Action :=
  focusNode m (Z.rem (currentFocusIndex m + 1) (nodeCount m)).

Definition focusPrevNode (m : Manager) : Manager * list Action :=
  focusNode m
    (Z.rem (currentFocusIndex m - 1 + nodeCount m) (nodeCount m)).

Definition activateCurrentNode (m : Manager) : list Action :=
  if onNodeActivate m then [NodeActivate (currentFocusIndex m)] else [].

Definition clearFocus (m : Manager) : Manager :=
  mkManager (nodeCount m) (onNodeFocus m) (onNodeActivate m)
    (currentFocusIndex m) false (reducedMotion m).

Definition setReducedMotion (m : Manager) (b : bool) : Manager :=
  mkManager (nodeCount m) (onNodeFocus m) (onNodeActivate m)
    (currentFocusIndex m) (isKeyboardNavActive m) b.

(** The listener [setupKeyboardNavigation] puts on [keydown]. *)
Definition onKeyDown (m : Manager) (e : KeyEvent) : Manager * list Action :=
  if typing e then (m, [])
  else if (key e =? "Tab")%string then
    if negb (in_panel_or_list e) then
      let '(m1, done) :=
        if shiftKey e then focusPrevNode m else focusNextNode m in
      (m1, PreventDefault :: done)
    else (m, [])
  else if ((key e =? "Enter") || (key e =? " "))%string then
    if isKeyboardNavActive m
    then (m, PreventDefault :: activateCurrentNode m)
    else (m, [])
  else if (key e =? "Escape")%string then (clearFocus m, [])
  else if (key e =? "Home")%string then
    let '(m1, done) := focusNode m 0 in (m1, PreventDefault :: done)
  else if (key e =? "End")%string then
    let '(m1, done) := focusNode m (nodeCount m - 1) in
    (m1, PreventDefault :: done)
  else if (key e =? "?")%string then (m, [AnnounceHelp])
  else (m, []).

Fixpoint onKeys (m : Manager) (l : list KeyEvent) : Manager * list Action :=
  match l with
  | [] => (m, [])
  | e :: rest =>
      let '(m1, a1) := onKeyDown m e in
      let '(m2, a2) := onKeys m1 rest in
      (m2, a1 ++ a2)
  end.

(** *** Vocabulary of the properties *)

(** The index is one of a node. *)
Definition on_a_node (m : Manager) (i : Z) : Prop := (0 <= i < nodeCount m)%Z.

Definition names_a_node (m : Manager) (a : Action) : Prop :=
  match a with
  | NodeFocus i | NodeActivate i => on_a_node m i
  | _ => True
  end.

(** [Tab] and [Shift+Tab] pressed in the 3D scene. *)
Definition tab : KeyEvent := mkKey "Tab" false false false.

Definition shift_tab : KeyEvent := mkKey "Tab" true false false.

End AccessibilityManager.

(* ================================================================== *)
(** ** The values of the built-in interpolator, in doubles

    The numbers of JavaScript are IEEE 754 doubles.  Where a property reads
    the very value an expression has, the expression is taken here over
    [float], the doubles of Rocq, whose operations round to nearest as
    those of JavaScript do: [fallbackTransition] with the closure [animate],
    and the functions of AnimationHelpers.js that are compared with it. *)

Module Doubles.

Import PrimFloat.

Local Open Scope float_scope.

Record Vector3 : Type := vec3 { vx : float; vy : float; vz : float }.

(** [Vector3.lerpVectors(v1, v2, alpha)] of three.js: on each component
    [v1 + (v2 - v1) * alpha]. *)
Definition lerpVectors (v1 v2 : Vector3) (alpha : float) : Vector3 :=
  vec3 (vx v1 + (vx v2 - vx v1) * alpha)
       (vy v1 + (vy v2 - vy v1) * alpha)
       (vz v1 + (vz v2 - vz v1) * alpha).

Record Node : Type := mkNode {
  position : Vector3;
  node_target : Vector3;
  name : string
}.

(** The array [nodePositions] of the constructor. *)
Definition default_nodes : list Node :=
  [ mkNode (vec3 0 0 50) (vec3 0 0 0) "Hub";
    mkNode (vec3 30 5 25) (vec3 25 0 10) "About";
    mkNode (vec3 (-30) 10 20) (vec3 (-25) 5 5) "Work";
    mkNode (vec3 15 (-10) 35) (vec3 10 (-5) 20) "Services";
    mkNode (vec3 (-20) 0 30) (vec3 (-15) 0 15) "Contact" ].

(** [Math.min(a, b)]: [NaN] when one of the two is; of two zeros the
    negative one. *)
Definition Math_min (a b : float) : float :=
  if is_nan a || is_nan b then nan
  else if is_zero a && is_zero b then (if get_sign a then a else b)
  else if b <? a then b else a.

(** [Math.pow(x, 2)], taken to be the square rounded once, [x * x]; at 0
    and at 1, where the properties below evaluate it, it is 0 and 1 for
    every implementation. *)
Definition Math_pow2 (x : float) : float := x * x.

(** The easing of [animate]. *)
Definition ease (progress : float) : float :=
  if progress <? 0.5
  then 2 * progress * progress
  else 1 - Math_pow2 (-2 * progress + 2) / 2.

(** [Easing.easeInOutQuad] of AnimationHelpers.js. *)
Definition easeInOutQuad (t : float) : float :=
  if t <? 0.5 then 2 * t * t else -1 + (4 - 2 * t) * t.

(** What the closure [animate] keeps of the call of [fallbackTransition]. *)
Record Transition : Type := mkTransition {
  startPos : Vector3;
  startTarget : Vector3;
  startTime : float;
  durationMs : float;
  dest : Node
}.

Inductive Action : Type :=
| WritePosition (v : Vector3)
| WriteTarget (v : Vector3)
| LookAt (v : Vector3)
| RequestAnimationFrame
| Resolve.

(** The camera position, the look-at target, and the closure handed to
    [requestAnimationFrame], if one is waiting for its frame. *)
Record Camera : Type := mkCamera {
  camera_position : Vector3;
  target : Vector3;
  waiting : option Transition
}.

Definition progress_at (t : Transition) (now : float) : float :=
  Math_min ((now - startTime t) / durationMs t) 1.

(** One call of [animate], [now] being what [performance.now()] returns in
    it. *)
Definition animate (t : Transition) (c : Camera) (now : float)
  : Camera * list Action :=
  let progress := progress_at t now in
  let eased := ease progress in
  let pos := lerpVectors (startPos t) (position (dest t)) eased in
  let tgt := lerpVectors (startTarget t) (node_target (dest t)) eased in
  let effects := [WritePosition pos; WriteTarget tgt; LookAt tgt] in
  if progress <? 1
  then (mkCamera pos tgt (Some t), effects ++ [RequestAnimationFrame])
  else (mkCamera pos tgt None, effects ++ [Resolve]).

(** [fallbackTransition(node, duration)]; [now0] and [now1] are the two
    readings of [performance.now()], the one that gives [startTime] and the
    one of the first call of [animate]. *)
Definition fallbackTransition (c : Camera) (node : Node)
  (duration now0 now1 : float) : Camera * list Action :=
  let t :=
    mkTransition (camera_position c) (target c) now0 (duration * 1000)
      node in
  animate t c now1.

(** The frame callback. *)
Definition onAnimationFrame (c : Camera) (now : float)
  : Camera * list Action :=
  match waiting c with
  | Some t => animate t c now
  | None => (c, [])
  end.

(** Frames one after the other, each with its reading of the clock. *)
Fixpoint frames (c : Camera) (nows : list float) : Camera * list Action :=
  match nows with
  | [] => (c, [])
  | now :: rest =>
      let '(c1, a1) := onAnimationFrame c now in
      let '(c2, a2) := frames c1 rest in
      (c2, a1 ++ a2)
  end.

(** A transition from its start: the call of [fallbackTransition], whose
    first call of [animate] reads the first of the times, then a frame at
    each of the others. *)
Definition flight (c : Camera) (node : Node) (duration now0 : float)
  (calls : list float) : Camera * list Action :=
  match calls with
  | [] => (c, [])
  | now1 :: rest =>
      let '(c1, a1) := fallbackTransition c node duration now0 now1 in
      let '(c2, a2) := frames c1 rest in
      (c2, a1 ++ a2)
  end.

(** *** Vocabulary of the properties *)

(** The camera and its target where a call of [animate] at [now] puts
    them. *)
Definition pose_at (t : Transition) (now : float) : Vector3 * Vector3 :=
  (lerpVectors (startPos t) (position (dest t)) (ease (progress_at t now)),
   lerpVectors (startTarget t) (node_target (dest t))
     (ease (progress_at t now))).

(** The calls of [animate] at these times all leave the transition in
    flight. *)
Definition in_flight (t : Transition) (nows : list float) : bool :=
  forallb (fun now => progress_at t now <? 1) nows.

(** The middle of two points, [(a + b) / 2] on each component. *)
Definition v_mid (a b : Vector3) : Vector3 :=
  vec3 ((vx a + vx b) / 2) ((vy a + vy b) / 2) ((vz a + vz b) / 2).

(** The camera of the scene as [main.js] places it, looking at the origin,
    and a camera behind the origin, 26.8 away from it (the double nearest
    to -26.8 is written out). *)
Definition at_hub : Camera := mkCamera (vec3 0 0 50) (vec3 0 0 0) None.

Definition behind : Camera :=
  mkCamera (vec3 0 0 (-0x1.acccccccccccdp+4)) (vec3 0 0 0) None.

Definition hub : Node := mkNode (vec3 0 0 50) (vec3 0 0 0) "Hub".

Definition about : Node := mkNode (vec3 30 5 25) (vec3 25 0 10) "About".

Definition work : Node := mkNode (vec3 (-30) 10 20) (vec3 (-25) 5 5) "Work".

End Doubles.

(* ================================================================== *)
(** * Properties *)

(** ** Arithmetic of the extended numbers *)

Module JsNumFacts.

Lemma Qltb_lt (a b : Q) : Qltb a b = true <-> a < b.
Proof.
  unfold Qltb. rewrite negb_true_iff.
  split; intro H.
  - apply Qnot_le_lt. intro L. apply Qle_bool_iff in L. congruence.
  - destruct (Qle_bool b a) eqn:E; [|reflexivity].
    apply Qle_bool_iff in E. lra.
Qed.

Lemma Qltb_ge (a b : Q) : Qltb a b = false <-> b <= a.
Proof.
  unfold Qltb. rewrite negb_false_iff. apply Qle_bool_iff.
Qed.

Lemma Qmax_between (lo hi x : Q) :
  lo <= hi -> x <= hi -> lo <= Qmax lo x /\ Qmax lo x <= hi.
Proof.
  intros H1 H2. split; [apply Q.le_max_l | apply Q.max_lub; assumption].
Qed.

Lemma Qmin_between (lo hi x : Q) :
  lo <= hi -> lo <= x -> lo <= Qmin hi x /\ Qmin hi x <= hi.
Proof.
  intros H1 H2. split; [apply Q.min_glb; assumption | apply Q.le_min_l].
Qed.

Lemma clampQ_between (lo hi x : Q) :
  lo <= hi ->
  lo <= CameraController.clampQ lo hi x /\ CameraController.clampQ lo hi x <= hi.
Proof.
  intro H. unfold CameraController.clampQ.
  apply Qmax_between; [assumption | apply Q.le_min_l].
Qed.

(** The clamp of the zoom brings every number into the interval, except
    [NaN], which it returns. *)
Lemma clamp_num_within (lo hi : Q) (x : num) :
  lo <= hi -> is_nan x = false ->
  within lo hi (CameraController.clamp_num lo hi x).
Proof.
  intros H N. destruct x as [q| | |]; simpl in *; try discriminate.
  - apply (clampQ_between lo hi q H).
  - apply Qmax_between; lra.
  - lra.
Qed.

Lemma clamp_num_nan (lo hi : Q) : CameraController.clamp_num lo hi NaN = NaN.
Proof. reflexivity. Qed.

Lemma within_ordered (lo hi : Q) (x : num) : within lo hi x -> lo <= hi.
Proof. destruct x; simpl; try tauto. lra. Qed.

Lemma within_fin (lo hi : Q) (x : num) :
  within lo hi x -> exists q, x = Fin q /\ lo <= q /\ q <= hi.
Proof. destruct x; simpl; try tauto. intros [? ?]. eauto. Qed.

Lemma div_fin (a b : Q) : ~ b == 0 -> div a b = Fin (a / b).
Proof.
  intro H. unfold div. destruct (Qeq_bool b 0) eqn:E; [|reflexivity].
  apply Qeq_bool_iff in E. contradiction.
Qed.

End JsNumFacts.

(** ** Zoom: the radius and its clamp *)

Module Zoom.

Import CameraController JsNumFacts.

Lemma zoom_key_cases (k : string) :
  is_zoom_key k = true -> k = "+"%string \/ k = "="%string
                          \/ k = "-"%string \/ k = "_"%string.
Proof.
  unfold is_zoom_key. rewrite !orb_true_iff, !String.eqb_eq. tauto.
Qed.

Lemma wheel_within (c : Controller) (dy : Q) :
  radius_within c ->
  radius_within (fst (onWheel c dy))
  /\ options (fst (onWheel c dy)) = options c.
Proof.
  intro W. unfold onWheel.
  destruct (negb (enabled c) || isTransitioning c); [split; trivial|].
  split; [|reflexivity].
  pose proof (within_ordered _ _ _ W) as O.
  unfold radius_within in *. destruct (within_fin _ _ _ W) as (q & E & _).
  cbn. rewrite E. cbn.
  apply (clampQ_between _ _ _ O).
Qed.

Lemma touch_move_within (c : Controller) (n : nat) (d : Q) :
  radius_within c -> ~ d == 0 ->
  radius_within (fst (onTouchMove c n d))
  /\ options (fst (onTouchMove c n d)) = options c.
Proof.
  intros W D. unfold onTouchMove.
  destruct (negb (enabled c) || isTransitioning c); [split; trivial|].
  destruct (n =? 2)%nat; [|split; trivial].
  split; [|reflexivity].
  pose proof (within_ordered _ _ _ W) as O.
  unfold radius_within in *. destruct (within_fin _ _ _ W) as (q & E & _).
  cbn. rewrite E, (div_fin _ _ D). cbn.
  apply (clampQ_between _ _ _ O).
Qed.

Lemma zoom_key_within (sfv : Vector3 -> Spherical) (c : Controller)
  (k : string) (s : bool) (t0 t1 : Q) :
  radius_within c -> is_zoom_key k = true ->
  radius_within (fst (onKeyDown sfv c k s t0 t1))
  /\ options (fst (onKeyDown sfv c k s t0 t1)) = options c.
Proof.
  intros W K. unfold onKeyDown.
  destruct (enabled c); [|split; trivial]. cbn [negb].
  pose proof (within_ordered _ _ _ W) as O.
  unfold radius_within in *.
  destruct (within_fin _ _ _ W) as (q & E & Lo & Hi).
  destruct (zoom_key_cases k K) as [-> | [-> | [-> | ->]]]; cbn;
    rewrite E; cbn; (split; [|reflexivity]).
  - apply Qmax_between; lra.
  - apply Qmax_between; lra.
  - apply Qmin_between; lra.
  - apply Qmin_between; lra.
Qed.

Lemma update_radius (sfs : Spherical -> Vector3) (c : Controller) (dt : Q) :
  radius (spherical (fst (update sfs c dt))) = radius (spherical c)
  /\ options (fst (update sfs c dt)) = options c.
Proof.
  unfold update.
  destruct (negb (enabled c) || isTransitioning c); [split; trivial|].
  destruct (enableDamping (options c)); split; reflexivity.
Qed.

Lemma zoom_step_within (sfs : Spherical -> Vector3)
  (sfv : Vector3 -> Spherical) (c : Controller) (e : Event) :
  radius_within c -> is_zoom_input e = true -> fingers_apart e = true ->
  radius_within (fst (step sfs sfv c e)).
Proof.
  intros W Z A. destruct e; simpl in Z; try discriminate; simpl step.
  - apply wheel_within, W.
  - unfold onTouchStart. destruct (touches =? 2)%nat; exact W.
  - apply touch_move_within; [exact W|].
    simpl in A. apply negb_true_iff, Qeq_bool_neq in A. exact A.
  - apply zoom_key_within; assumption.
  - unfold radius_within.
    destruct (update_radius sfs c delta) as [-> ->]. exact W.
Qed.

(** Zoom inputs and ticks keep the radius within the two distances, as long
    as no pinch brings the two touches on the same point. *)
Lemma zoom_run_within (sfs : Spherical -> Vector3)
  (sfv : Vector3 -> Spherical) (es : list Event) (c : Controller) :
  radius_within c ->
  forallb is_zoom_input es = true -> forallb fingers_apart es = true ->
  radius_within (fst (run sfs sfv c es)).
Proof.
  revert c. induction es as [|e es IH]; intros c W Z A; [exact W|].
  simpl in Z, A. apply andb_true_iff in Z, A.
  destruct Z as [Ze Zs], A as [Ae As].
  pose proof (zoom_step_within sfs sfv c e W Ze Ae) as W1.
  simpl. destruct (step sfs sfv c e) as [c1 a1]. simpl in W1.
  specialize (IH c1 W1 Zs As).
  destruct (run sfs sfv c1 es) as [c2 a2]. exact IH.
Qed.

(** Once the radius is [NaN] no zoom input brings it back. *)
Lemma nan_radius_stays (sfs : Spherical -> Vector3)
  (sfv : Vector3 -> Spherical) (c : Controller) (e : Event) :
  radius (spherical c) = NaN -> is_zoom_input e = true ->
  radius (spherical (fst (step sfs sfv c e))) = NaN.
Proof.
  intros N Z. destruct e; simpl in Z; try discriminate; simpl step.
  - unfold onWheel.
    destruct (negb (enabled c) || isTransitioning c); [exact N|].
    cbn. rewrite N. reflexivity.
  - unfold onTouchStart. destruct (touches =? 2)%nat; exact N.
  - unfold onTouchMove.
    destruct (negb (enabled c) || isTransitioning c); [exact N|].
    destruct (touches =? 2)%nat; [|exact N].
    cbn. rewrite N. reflexivity.
  - unfold onKeyDown. destruct (enabled c); [|exact N]. cbn [negb].
    destruct (zoom_key_cases key Z) as [-> | [-> | [-> | ->]]]; cbn;
      rewrite N; reflexivity.
  - destruct (update_radius sfs c delta) as [-> _]. exact N.
Qed.

(** C1, at the input where the code departs from it.  The controller of the
    application starts with its radius, 50, between the distances 20 and
    100.  A pinch whose two touches lie on one point, at its start and at its
    first move, is a zoom input; it divides zero by zero, and the clamp
    returns the [NaN] it is given: the radius is then no number of the
    interval, and stays so after a later wheel event or tick. *)
Theorem pinch_on_one_point_loses_radius :
  let c := fst (run Sample.on_z_axis Sample.from_z_axis Sample.controller
                  [TouchStart 2 0; TouchMove 2 0]) in
  radius_within Sample.controller
  /\ forallb is_zoom_input [TouchStart 2 0; TouchMove 2 0] = true
  /\ radius (spherical c) = NaN
  /\ ~ radius_within c
  /\ radius
       (spherical
          (fst (run Sample.on_z_axis Sample.from_z_axis c
                  [Wheel 100; Update (1 # 60)]))) = NaN.
Proof.
  cbv zeta. split; [vm_compute; split; discriminate|].
  split; [reflexivity|]. split; [reflexivity|].
  split; [|reflexivity].
  unfold radius_within.
  replace (radius (spherical _)) with NaN by reflexivity.
  intro H. exact H.
Qed.

End Zoom.

(** ** Free look: the polar angle *)

Module Orbit.

Import CameraController JsNumFacts.

Lemma same_mode_refl (c : Controller) : same_mode c c.
Proof. repeat split. Qed.

Lemma same_mode_trans (a b c : Controller) :
  same_mode a b -> same_mode b c -> same_mode a c.
Proof.
  intros (H1 & H2 & H3) (K1 & K2 & K3). repeat split; congruence.
Qed.

Lemma arrow_key_cases (k : string) :
  is_arrow_key k = true ->
  k = "ArrowLeft"%string \/ k = "ArrowRight"%string
  \/ k = "ArrowUp"%string \/ k = "ArrowDown"%string.
Proof.
  unfold is_arrow_key. rewrite !orb_true_iff, !String.eqb_eq. tauto.
Qed.

Lemma update_same_mode (sfs : Spherical -> Vector3) (c : Controller) (dt : Q) :
  same_mode c (fst (update sfs c dt)).
Proof.
  unfold update.
  destruct (negb (enabled c) || isTransitioning c); [apply same_mode_refl|].
  destruct (enableDamping (options c)); repeat split.
Qed.

Lemma rotate_step_same_mode (sfs : Spherical -> Vector3)
  (sfv : Vector3 -> Spherical) (c : Controller) (e : Event) :
  is_rotate_input e = true -> same_mode c (fst (step sfs sfv c e)).
Proof.
  intro R. destruct e; simpl in R; try discriminate; simpl step.
  - unfold onPointerDown.
    destruct (negb (enabled c) || isTransitioning c);
      [apply same_mode_refl|].
    destruct (negb (button =? 0)%Z); repeat split.
  - unfold onPointerMove.
    destruct (negb (enabled c) || negb (isDown (pointerState c)));
      repeat split.
  - repeat split.
  - unfold onKeyDown. destruct (enabled c) eqn:E; [|apply same_mode_refl].
    cbn [negb].
    destruct (arrow_key_cases key R) as [-> | [-> | [-> | ->]]];
      cbn; repeat split; assumption.
  - apply update_same_mode.
Qed.

Lemma rotate_run_same_mode (sfs : Spherical -> Vector3)
  (sfv : Vector3 -> Spherical) (es : list Event) (c : Controller) :
  forallb is_rotate_input es = true -> same_mode c (fst (run sfs sfv c es)).
Proof.
  revert c. induction es as [|e es IH]; intros c R; [apply same_mode_refl|].
  simpl in R. apply andb_true_iff in R. destruct R as [Re Rs].
  pose proof (rotate_step_same_mode sfs sfv c e Re) as M.
  simpl. destruct (step sfs sfv c e) as [c1 a1]. simpl in M.
  specialize (IH c1 Rs). destruct (run sfs sfv c1 es) as [c2 a2].
  simpl in *. eapply same_mode_trans; eassumption.
Qed.

(** A tick that runs leaves the polar angle between the two bounds. *)
Lemma update_clamps_phi (sfs : Spherical -> Vector3) (c : Controller) (dt : Q) :
  enabled c = true -> isTransitioning c = false ->
  minPolarAngle (options c) <= maxPolarAngle (options c) ->
  minPolarAngle (options c) <= phi (spherical (fst (update sfs c dt)))
  /\ phi (spherical (fst (update sfs c dt))) <= maxPolarAngle (options c).
Proof.
  intros E T O. unfold update. rewrite E, T. cbn [negb orb].
  destruct (enableDamping (options c)); cbn; apply clampQ_between; exact O.
Qed.

(** C2.  On an enabled controller with no transition in flight, and bounds
    of the polar angle in order, whatever dragging, arrow keys and ticks
    came before, the polar angle lies between [minPolarAngle] and
    [maxPolarAngle] right after a call of [update], with or without
    damping. *)
Theorem polar_angle_within_after_update (sfs : Spherical -> Vector3)
  (sfv : Vector3 -> Spherical) (c : Controller) (es : list Event) (dt : Q) :
  enabled c = true -> isTransitioning c = false ->
  minPolarAngle (options c) <= maxPolarAngle (options c) ->
  forallb is_rotate_input es = true ->
  let c' := fst (step sfs sfv (fst (run sfs sfv c es)) (Update dt)) in
  minPolarAngle (options c) <= phi (spherical c')
  /\ phi (spherical c') <= maxPolarAngle (options c).
Proof.
  intros E T O R. simpl.
  destruct (rotate_run_same_mode sfs sfv es c R) as (Ho & He & Ht).
  rewrite <- Ho. apply update_clamps_phi; congruence.
Qed.

(** The theorem on the controller of the application: a drag that would
    carry the camera far over the pole, an arrow key, and a tick. *)
Lemma polar_angle_within_after_update_witness :
  let c' :=
    fst (step Sample.on_z_axis Sample.from_z_axis
           (fst (run Sample.on_z_axis Sample.from_z_axis Sample.controller
                   [PointerDown 0 10 10 1; PointerMove 10 90000;
                    KeyDown "ArrowUp" false 0 0; Update (1 # 60)]))
           (Update (1 # 60))) in
  minPolarAngle (options Sample.controller) <= phi (spherical c')
  /\ phi (spherical c') <= maxPolarAngle (options Sample.controller).
Proof.
  apply (polar_angle_within_after_update Sample.on_z_axis Sample.from_z_axis
           Sample.controller
           [PointerDown 0 10 10 1; PointerMove 10 90000;
            KeyDown "ArrowUp" false 0 0; Update (1 # 60)] (1 # 60)).
  - reflexivity.
  - reflexivity.
  - vm_compute. discriminate.
  - reflexivity.
Defined.

End Orbit.

(** ** Navigation to a node *)

Module Navigation.

Import CameraController JsNumFacts.

Lemma index_in_range (c : Controller) (i : Z) :
  (0 <= i < node_count c)%Z ->
  ((i <? 0) || (i >=? node_count c))%Z = false
  /\ exists node, nth_error (nodePositions c) (Z.to_nat i) = Some node.
Proof.
  intros [L U]. split.
  - apply orb_false_iff. split; [apply Z.ltb_ge; lia|].
    rewrite Z.geb_leb. apply Z.leb_gt. lia.
  - destruct (nth_error (nodePositions c) (Z.to_nat i)) eqn:E; [eauto|].
    apply nth_error_None in E. unfold node_count in U. lia.
Qed.

(** An accepted call, unfolded. *)
Lemma navigate_accepted (sfv : Vector3 -> Spherical) (c : Controller)
  (i : Z) (node : Node) (now0 now1 : Q) :
  (0 <= i < node_count c)%Z -> isTransitioning c = false ->
  nth_error (nodePositions c) (Z.to_nat i) = Some node ->
  navigateToNode sfv c i now0 now1 =
    if gsap c then
      (set_motion (Gsap node (duration_of c)) (entered c i),
       notify c i node
         ++ [GsapTo CameraPosition (position node) (duration_of c);
             GsapTo LookAtTarget (node_target node) (duration_of c)])
    else
      (fst (animate sfv (transition_of c node now0) (entered c i) now1),
       notify c i node
         ++ snd (animate sfv (transition_of c node now0) (entered c i) now1)).
Proof.
  intros R T N. unfold navigateToNode.
  destruct (index_in_range c i R) as [-> _]. rewrite T, N.
  unfold fallbackTransition, notify, transition_of, duration_of, entered.
  cbn [gsap options onNavigateCallbacks camera_position target
       set_isTransitioning set_currentNodeIndex].
  destruct (gsap c); [reflexivity|].
  match goal with |- context [animate sfv ?t ?d now1] =>
    destruct (animate sfv t d now1) end.
  reflexivity.
Qed.

Lemma animate_effects (sfv : Vector3 -> Spherical) (t : Transition)
  (c : Controller) (now : Q) :
  exists pos tgt rest,
    snd (animate sfv t c now)
    = WritePosition pos :: WriteTarget tgt :: LookAt tgt :: rest
    /\ (rest = [] \/ rest = [RequestAnimationFrame])
    /\ pos = lerpVectors (startPos t) (position (dest t))
               (ease (progress_at t now)).
Proof.
  unfold animate. destruct (Qltb (progress_at t now) 1);
    do 3 eexists; (split; [reflexivity|]); split; auto.
Qed.

Lemma notify_only_notifies (c : Controller) (i : Z) (node : Node) :
  forallb is_notify (notify c i node) = true
  /\ forallb (fun a => negb (is_camera_write a)) (notify c i node) = true.
Proof.
  unfold notify. induction (onNavigateCallbacks c); simpl; auto.
Qed.

Lemma navigate_rejected (sfv : Vector3 -> Spherical) (c : Controller)
  (i : Z) (now0 now1 : Q) :
  (i < 0)%Z \/ (node_count c <= i)%Z \/ isTransitioning c = true ->
  navigateToNode sfv c i now0 now1 = (c, []).
Proof.
  intro H. unfold navigateToNode.
  destruct ((i <? 0) || (i >=? node_count c))%Z eqn:G; [reflexivity|].
  apply orb_false_iff in G. destruct G as [G1 G2].
  apply Z.ltb_ge in G1. rewrite Z.geb_leb in G2. apply Z.leb_gt in G2.
  destruct H as [H | [H | H]]; [lia | lia |]. rewrite H. reflexivity.
Qed.

(** C3.  A call of [navigateToNode] with a negative index, with an index
    that is not below the number of nodes, or while a transition is in
    flight, does nothing: the controller is left as it was (index, flag,
    camera position, target, the transition in flight and its destination
    included) and nothing is emitted, so no listener is called and no
    transition starts. *)
Theorem navigate_rejected_is_noop (sfv : Vector3 -> Spherical)
  (c : Controller) (i : Z) (now0 now1 : Q) :
  (i < 0)%Z \/ (node_count c <= i)%Z \/ isTransitioning c = true ->
  navigateToNode sfv c i now0 now1 = (c, [])
  /\ currentNodeIndex (fst (navigateToNode sfv c i now0 now1))
     = currentNodeIndex c
  /\ isTransitioning (fst (navigateToNode sfv c i now0 now1))
     = isTransitioning c
  /\ camera_position (fst (navigateToNode sfv c i now0 now1))
     = camera_position c
  /\ target (fst (navigateToNode sfv c i now0 now1)) = target c
  /\ motion (fst (navigateToNode sfv c i now0 now1)) = motion c.
Proof.
  intro H. rewrite (navigate_rejected sfv c i now0 now1 H).
  repeat split.
Qed.

(** Listeners registered one after the other are kept in that order, after
    those that were there. *)
Lemma registered_in_order (cbs : list nat) (c : Controller) :
  fold_left onNavigate cbs c
  = set_onNavigateCallbacks (onNavigateCallbacks c ++ cbs) c.
Proof.
  revert c. induction cbs as [|cb cbs IH]; intro c.
  - cbn [fold_left]. rewrite app_nil_r. destruct c; reflexivity.
  - cbn [fold_left]. rewrite IH. unfold onNavigate, set_onNavigateCallbacks.
    cbn. rewrite <- app_assoc. reflexivity.
Qed.

(** C4.  Let listeners be registered with [onNavigate], in some order, on a
    controller.  An accepted call of [navigateToNode] then calls every
    listener with the index and the name of the node, the earlier registered
    first, and only then touches the camera: what follows the calls contains
    no call of a listener.  With the built-in interpolator it starts with the
    first write of the camera position; with GSAP it consists of the two
    tweens handed to GSAP, the position and the target being still as they
    were when the call returns. *)
Theorem listeners_notified_before_motion (sfv : Vector3 -> Spherical)
  (c0 : Controller) (cbs : list nat) (i : Z) (now0 now1 : Q) :
  let c := fold_left onNavigate cbs c0 in
  (0 <= i < node_count c0)%Z -> isTransitioning c0 = false ->
  exists node moved,
    nth_error (nodePositions c0) (Z.to_nat i) = Some node
    /\ snd (navigateToNode sfv c i now0 now1)
       = map (fun cb => Notify cb i (name node))
           (onNavigateCallbacks c0 ++ cbs)
           ++ moved
    /\ forallb (fun a => negb (is_notify a)) moved = true
    /\ (gsap c0 = false ->
        exists pos rest, moved = WritePosition pos :: rest)
    /\ (gsap c0 = true ->
        moved = [GsapTo CameraPosition (position node) (duration_of c0);
                 GsapTo LookAtTarget (node_target node) (duration_of c0)]
        /\ camera_position (fst (navigateToNode sfv c i now0 now1))
           = camera_position c0
        /\ target (fst (navigateToNode sfv c i now0 now1)) = target c0).
Proof.
  intros c R T. subst c. rewrite registered_in_order.
  set (c := set_onNavigateCallbacks (onNavigateCallbacks c0 ++ cbs) c0).
  assert (Rc : (0 <= i < node_count c)%Z) by exact R.
  assert (Tc : isTransitioning c = false) by exact T.
  destruct (index_in_range c i Rc) as [_ [node N]].
  rewrite (navigate_accepted sfv c i node now0 now1 Rc Tc N).
  change (gsap c) with (gsap c0). change (duration_of c) with (duration_of c0).
  exists node.
  destruct (gsap c0) eqn:G.
  - eexists. split; [exact N|]. split; [reflexivity|].
    split; [reflexivity|]. split; [discriminate|].
    intros _. repeat split.
  - destruct (animate_effects sfv (transition_of c node now0) (entered c i)
                now1) as (pos & tgt & rest & E & L & _).
    eexists. split; [exact N|]. split; [reflexivity|].
    rewrite E. split.
    + destruct L as [-> | ->]; reflexivity.
    + split; [eauto | discriminate].
Qed.

(** *** The built-in interpolator *)

Lemma progress_full (t : Transition) (now : Q) :
  0 < durationMs t -> durationMs t <= now - startTime t ->
  progress_at t now == 1.
Proof.
  intros D H. unfold progress_at.
  apply Q.min_r. apply Qle_shift_div_l; [exact D | lra].
Qed.

Lemma progress_short (t : Transition) (now : Q) :
  0 < durationMs t -> now - startTime t < durationMs t ->
  progress_at t now < 1.
Proof.
  intros D H. unfold progress_at.
  apply Qle_lt_trans with ((now - startTime t) / durationMs t);
    [apply Q.le_min_l|].
  apply Qlt_shift_div_r; [exact D | lra].
Qed.

(** While the progress is below one the transition stays in flight and asks
    for another frame; once it is one the transition is over. *)
Lemma animate_flight (sfv : Vector3 -> Spherical) (t : Transition)
  (c : Controller) (now : Q) :
  (progress_at t now < 1 ->
   motion (fst (animate sfv t c now)) = Fallback t
   /\ isTransitioning (fst (animate sfv t c now)) = isTransitioning c
   /\ In RequestAnimationFrame (snd (animate sfv t c now)))
  /\ (1 <= progress_at t now ->
      motion (fst (animate sfv t c now)) = NoMotion
      /\ isTransitioning (fst (animate sfv t c now)) = false).
Proof.
  unfold animate. split; intro H.
  - apply Qltb_lt in H. rewrite H. cbn. repeat split. auto 10.
  - apply Qltb_ge in H. rewrite H. cbn. split; reflexivity.
Qed.

(** *** Cycling through the nodes with the keyboard *)

Lemma same_place_refl (c : Controller) : same_place c c.
Proof. repeat split. Qed.

Lemma same_place_trans (a b c : Controller) :
  same_place a b -> same_place b c -> same_place a c.
Proof.
  intros (H1 & H2 & H3) (K1 & K2 & K3). repeat split; congruence.
Qed.

Lemma animate_same_place (sfv : Vector3 -> Spherical) (t : Transition)
  (c : Controller) (now : Q) : same_place c (fst (animate sfv t c now)).
Proof.
  unfold animate. destruct (Qltb (progress_at t now) 1); repeat split.
Qed.

Lemma transition_step_same_place (sfs : Spherical -> Vector3)
  (sfv : Vector3 -> Spherical) (c : Controller) (e : Event) :
  is_transition_event e = true -> same_place c (fst (step sfs sfv c e)).
Proof.
  intro H. destruct e; simpl in H; try discriminate; simpl step.
  - unfold onAnimationFrame. destruct (motion c);
      [apply same_place_refl | apply animate_same_place
      | apply same_place_refl].
  - unfold update.
    destruct (negb (enabled c) || isTransitioning c);
      [apply same_place_refl|].
    destruct (enableDamping (options c)); repeat split.
  - unfold onGsapTick. destruct (motion c); repeat split.
  - unfold onGsapComplete. destruct (motion c); repeat split.
Qed.

Lemma transition_run_same_place (sfs : Spherical -> Vector3)
  (sfv : Vector3 -> Spherical) (es : list Event) (c : Controller) :
  forallb is_transition_event es = true ->
  same_place c (fst (run sfs sfv c es)).
Proof.
  revert c. induction es as [|e es IH]; intros c H; [apply same_place_refl|].
  simpl in H. apply andb_true_iff in H. destruct H as [He Hs].
  pose proof (transition_step_same_place sfs sfv c e He) as M.
  simpl. destruct (step sfs sfv c e) as [c1 a1]. simpl in M.
  specialize (IH c1 Hs). destruct (run sfs sfv c1 es) as [c2 a2].
  simpl in *. eapply same_place_trans; eassumption.
Qed.

(** Where an accepted navigation leaves the controller. *)
Lemma navigate_accepted_place (sfv : Vector3 -> Spherical) (c : Controller)
  (i : Z) (now0 now1 : Q) :
  (0 <= i < node_count c)%Z -> isTransitioning c = false ->
  let c' := fst (navigateToNode sfv c i now0 now1) in
  currentNodeIndex c' = i /\ enabled c' = enabled c
  /\ nodePositions c' = nodePositions c.
Proof.
  intros R T. destruct (index_in_range c i R) as [_ [node N]].
  cbv zeta. rewrite (navigate_accepted sfv c i node now0 now1 R T N).
  destruct (gsap c); cbn [fst]; [repeat split|].
  destruct (animate_same_place sfv (transition_of c node now0) (entered c i)
              now1) as (-> & -> & ->).
  repeat split.
Qed.

Lemma key_tab (sfv : Vector3 -> Spherical) (c : Controller) (s : bool)
  (now0 now1 : Q) :
  enabled c = true ->
  onKeyDown sfv c "Tab" s now0 now1 =
    let nextIndex :=
      if s
      then Z.rem (currentNodeIndex c - 1 + node_count c) (node_count c)
      else Z.rem (currentNodeIndex c + 1) (node_count c) in
    (fst (navigateToNode sfv c nextIndex now0 now1),
     snd (navigateToNode sfv c nextIndex now0 now1) ++ [PreventDefault]).
Proof.
  intro E. unfold onKeyDown. rewrite E. cbn.
  destruct (navigateToNode sfv c _ now0 now1). reflexivity.
Qed.

Lemma key_home (sfv : Vector3 -> Spherical) (c : Controller) (s : bool)
  (now0 now1 : Q) :
  enabled c = true ->
  onKeyDown sfv c "Home" s now0 now1 =
    (fst (navigateToNode sfv c 0 now0 now1),
     snd (navigateToNode sfv c 0 now0 now1) ++ [PreventDefault]).
Proof.
  intro E. unfold onKeyDown. rewrite E. cbn.
  destruct (navigateToNode sfv c 0 now0 now1). reflexivity.
Qed.

Lemma tab_rounds_index (sfs : Spherical -> Vector3)
  (sfv : Vector3 -> Spherical) (rounds : list (Q * Q * list Event))
  (c : Controller) :
  enabled c = true -> isTransitioning c = false ->
  (0 <= currentNodeIndex c < node_count c)%Z ->
  completed sfs sfv c rounds ->
  currentNodeIndex (tab_rounds sfs sfv c rounds)
  = ((currentNodeIndex c + Z.of_nat (List.length rounds))
       mod node_count c)%Z.
Proof.
  revert c. induction rounds as [|[[now0 now1] es] rest IH];
    intros c E T R C.
  - simpl. rewrite Z.add_0_r, Z.mod_small; [reflexivity | exact R].
  - simpl in C. destruct C as (Ces & Cover & Crest).
    cbn [tab_rounds].
    set (c1 := fst (onKeyDown sfv c "Tab" false now0 now1)) in *.
    set (c2 := fst (run sfs sfv c1 es)) in *.
    assert (N1 : (0 <= Z.rem (currentNodeIndex c + 1) (node_count c)
                  < node_count c)%Z).
    { rewrite Z.rem_mod_nonneg by lia. apply Z.mod_pos_bound. lia. }
    destruct (navigate_accepted_place sfv c _ now0 now1 N1 T)
      as (I1 & E1 & P1).
    assert (K : c1 = fst (navigateToNode sfv c
                            (Z.rem (currentNodeIndex c + 1) (node_count c))
                            now0 now1)).
    { subst c1. rewrite (key_tab sfv c false now0 now1 E). reflexivity. }
    rewrite <- K in I1, E1, P1.
    destruct (transition_run_same_place sfs sfv es c1 Ces) as (I2 & E2 & P2).
    fold c2 in I2, E2, P2.
    assert (NC : node_count c2 = node_count c).
    { unfold node_count. rewrite P2, P1. reflexivity. }
    rewrite IH; [| congruence | exact Cover | rewrite NC; lia | exact Crest].
    rewrite NC, I2, I1, Z.rem_mod_nonneg by lia.
    rewrite Zplus_mod_idemp_l. f_equal. cbn [List.length]. lia.
Qed.

Lemma settled_same (c c' : Controller) :
  index_ok c -> same_place c c' -> settled c c'.
Proof.
  intros H (I & E & P). split; [|split; assumption].
  unfold index_ok, node_count in *. rewrite I, P. exact H.
Qed.

Lemma navigate_settled (sfv : Vector3 -> Spherical) (c : Controller)
  (i : Z) (now0 now1 : Q) :
  index_ok c -> settled c (fst (navigateToNode sfv c i now0 now1)).
Proof.
  intro H.
  destruct (Z_lt_dec i 0) as [L|L];
    [rewrite navigate_rejected by auto;
     apply settled_same, same_place_refl; exact H|].
  destruct (Z_le_dec (node_count c) i) as [U|U];
    [rewrite navigate_rejected by auto;
     apply settled_same, same_place_refl; exact H|].
  destruct (isTransitioning c) eqn:T;
    [rewrite navigate_rejected by auto;
     apply settled_same, same_place_refl; exact H|].
  assert (R : (0 <= i < node_count c)%Z) by lia.
  destruct (navigate_accepted_place sfv c i now0 now1 R T) as (I & E & P).
  split; [|split; assumption].
  unfold index_ok, node_count. rewrite I, P. exact R.
Qed.

Lemma key_settled (sfv : Vector3 -> Spherical) (c : Controller)
  (key : string) (shift : bool) (now0 now1 : Q) :
  index_ok c -> settled c (fst (onKeyDown sfv c key shift now0 now1)).
Proof.
  intro H.
  pose proof (settled_same c c H (same_place_refl c)) as Here.
  unfold onKeyDown.
  destruct (negb (enabled c)); [exact Here|].
  destruct (("1" <=? key) && (key <=? "5"))%string.
  { destruct (parseInt key) as [n|]; [|exact Here].
    destruct (n - 1 <? node_count c)%Z; [|exact Here].
    apply navigate_settled, H. }
  repeat match goal with
         | |- context [if ?b then _ else _] => destruct b
         end;
    try solve [apply settled_same; [exact H | repeat split]];
    match goal with
    | |- context [navigateToNode sfv c ?i now0 now1] =>
        pose proof (navigate_settled sfv c i now0 now1 H) as K;
        destruct (navigateToNode sfv c i now0 now1); exact K
    end.
Qed.

Lemma step_settled (sfs : Spherical -> Vector3)
  (sfv : Vector3 -> Spherical) (c : Controller) (e : Event) :
  index_ok c -> settled c (fst (step sfs sfv c e)).
Proof.
  intro H.
  assert (Same : forall c', same_place c c' -> settled c c')
    by (intro c'; apply settled_same, H).
  destruct e; simpl step.
  - unfold onPointerDown.
    destruct (negb (enabled c) || isTransitioning c);
      [apply Same, same_place_refl|].
    destruct (negb (button =? 0)%Z); apply Same; repeat split.
  - unfold onPointerMove.
    destruct (negb (enabled c) || negb (isDown (pointerState c)));
      apply Same; repeat split.
  - apply Same; repeat split.
  - unfold onWheel. destruct (negb (enabled c) || isTransitioning c);
      apply Same; repeat split.
  - unfold onTouchStart. destruct (touches =? 2)%nat; apply Same; repeat split.
  - unfold onTouchMove.
    destruct (negb (enabled c) || isTransitioning c);
      [apply Same, same_place_refl|].
    destruct (touches =? 2)%nat; apply Same; repeat split.
  - apply key_settled, H.
  - apply navigate_settled, H.
  - apply Same, (transition_step_same_place sfs sfv c (AnimationFrame now)).
    reflexivity.
  - apply Same, (transition_step_same_place sfs sfv c (Update delta)).
    reflexivity.
  - apply Same, (transition_step_same_place sfs sfv c (GsapTick pos tgt)).
    reflexivity.
  - apply Same, (transition_step_same_place sfs sfv c GsapComplete).
    reflexivity.
Qed.

(** Every controller reached from the constructor is enabled and has its
    current index among its nodes. *)
Lemma run_settled (sfs : Spherical -> Vector3)
  (sfv : Vector3 -> Spherical) (es : list Event) (c : Controller) :
  index_ok c ->
  index_ok (fst (run sfs sfv c es))
  /\ enabled (fst (run sfs sfv c es)) = enabled c.
Proof.
  revert c. induction es as [|e es IH]; intros c H; [split; trivial|].
  destruct (step_settled sfs sfv c e H) as (H1 & _ & E1).
  simpl. destruct (step sfs sfv c e) as [c1 a1]. cbn [fst] in *.
  destruct (IH c1 H1) as [H2 E2].
  destruct (run sfs sfv c1 es) as [c2 a2]. cbn [fst] in *.
  split; [exact H2 | congruence].
Qed.

Lemma construct_settled (sfv : Vector3 -> Spherical) (cam : Vector3)
  (o : Options) (g : bool) :
  index_ok (construct sfv cam o g) /\ enabled (construct sfv cam o g) = true.
Proof. split; [unfold index_ok; cbn; lia | reflexivity]. Qed.

(** C7.  On an enabled controller with [N] nodes and no transition in
    flight, [Tab] calls [navigateToNode] with [(currentNodeIndex + 1) mod N],
    [Shift+Tab] with [(currentNodeIndex - 1 + N) mod N] and [Home] with [0],
    and the call is accepted: the current index becomes that one.  After
    [k] presses of [Tab], each made once the transition of the one before
    is over, the index is [(currentNodeIndex + k) mod N]; so from index 0
    of 5 nodes, five of them lead back to index 0. *)
Theorem tab_and_home_navigate (sfs : Spherical -> Vector3)
  (sfv : Vector3 -> Spherical) (c : Controller) :
  enabled c = true -> isTransitioning c = false ->
  (0 <= currentNodeIndex c < node_count c)%Z ->
  let N := node_count c in
  let cur := currentNodeIndex c in
  (forall now0 now1,
      onKeyDown sfv c "Tab" false now0 now1
      = (fst (navigateToNode sfv c ((cur + 1) mod N) now0 now1),
         snd (navigateToNode sfv c ((cur + 1) mod N) now0 now1)
           ++ [PreventDefault])
      /\ currentNodeIndex (fst (onKeyDown sfv c "Tab" false now0 now1))
         = ((cur + 1) mod N)%Z)
  /\ (forall now0 now1,
      onKeyDown sfv c "Tab" true now0 now1
      = (fst (navigateToNode sfv c ((cur - 1 + N) mod N) now0 now1),
         snd (navigateToNode sfv c ((cur - 1 + N) mod N) now0 now1)
           ++ [PreventDefault])
      /\ currentNodeIndex (fst (onKeyDown sfv c "Tab" true now0 now1))
         = ((cur - 1 + N) mod N)%Z)
  /\ (forall shift now0 now1,
      onKeyDown sfv c "Home" shift now0 now1
      = (fst (navigateToNode sfv c 0 now0 now1),
         snd (navigateToNode sfv c 0 now0 now1) ++ [PreventDefault])
      /\ currentNodeIndex (fst (onKeyDown sfv c "Home" shift now0 now1))
         = 0%Z)
  /\ (forall rounds,
      completed sfs sfv c rounds ->
      currentNodeIndex (tab_rounds sfs sfv c rounds)
      = ((cur + Z.of_nat (List.length rounds)) mod N)%Z)
  /\ (forall rounds,
      N = 5%Z -> cur = 0%Z -> List.length rounds = 5%nat ->
      completed sfs sfv c rounds ->
      currentNodeIndex (tab_rounds sfs sfv c rounds) = 0%Z).
Proof.
  intros E T R N cur.
  assert (Rn : (0 <= (cur + 1) mod N < N)%Z)
    by (apply Z.mod_pos_bound; subst N; lia).
  assert (Rp : (0 <= (cur - 1 + N) mod N < N)%Z)
    by (apply Z.mod_pos_bound; subst N; lia).
  assert (R0 : (0 <= 0 < N)%Z) by (subst N; lia).
  split; [|split; [|split; [|split]]].
  - intros now0 now1. rewrite (key_tab sfv c false now0 now1 E). cbv zeta.
    rewrite Z.rem_mod_nonneg by (subst N cur; lia).
    split; [reflexivity|]. cbn [fst].
    apply (navigate_accepted_place sfv c _ now0 now1 Rn T).
  - intros now0 now1. rewrite (key_tab sfv c true now0 now1 E). cbv zeta.
    rewrite Z.rem_mod_nonneg by (subst N cur; lia).
    split; [reflexivity|]. cbn [fst].
    apply (navigate_accepted_place sfv c _ now0 now1 Rp T).
  - intros shift now0 now1. rewrite (key_home sfv c shift now0 now1 E).
    split; [reflexivity|]. cbn [fst].
    apply (navigate_accepted_place sfv c _ now0 now1 R0 T).
  - intros rounds C. apply tab_rounds_index; assumption.
  - intros rounds HN Hc HL C.
    rewrite (tab_rounds_index sfs sfv rounds c E T R C).
    fold N cur. rewrite HN, Hc, HL. reflexivity.
Qed.

(** *** Reduced motion *)


(** *** The theorems on the controller of the application *)

(** A navigation asked for while another one is in flight. *)
Lemma navigate_rejected_is_noop_witness :
  let c := fst (navigateToNode Sample.from_z_axis Sample.controller 1 0 0) in
  isTransitioning c = true
  /\ navigateToNode Sample.from_z_axis c 3 500 500 = (c, [])
  /\ motion (fst (navigateToNode Sample.from_z_axis c 3 500 500)) = motion c.
Proof.
  cbv zeta. split; [reflexivity|].
  pose proof (navigate_rejected_is_noop Sample.from_z_axis
                (fst (navigateToNode Sample.from_z_axis Sample.controller
                        1 0 0))
                3 500 500 (or_intror (or_intror eq_refl))) as H.
  split; [apply H | apply (proj2 (proj2 (proj2 (proj2 H))))].
Defined.

Lemma listeners_notified_before_motion_witness :
  exists node moved,
    nth_error (nodePositions Sample.controller) 2 = Some node
    /\ snd (navigateToNode Sample.from_z_axis
              (fold_left onNavigate [7; 3]%nat Sample.controller) 2 0 0)
       = map (fun cb => Notify cb 2 (name node)) [0; 7; 3]%nat ++ moved
    /\ forallb (fun a => negb (is_notify a)) moved = true.
Proof.
  destruct (listeners_notified_before_motion Sample.from_z_axis
              Sample.controller [7; 3]%nat 2 0 0)
    as (node & moved & N & E & Q & _).
  - vm_compute. split; [discriminate | reflexivity].
  - reflexivity.
  - exists node, moved. split; [exact N|]. split; [exact E | exact Q].
Defined.

Lemma tab_and_home_navigate_witness :
  currentNodeIndex
    (fst (onKeyDown Sample.from_z_axis Sample.controller "Tab" true 0 0)) = 4%Z
  /\ currentNodeIndex
       (tab_rounds Sample.on_z_axis Sample.from_z_axis Sample.controller
          Sample.five_rounds) = 0%Z.
Proof.
  assert (R : (0 <= currentNodeIndex Sample.controller
               < node_count Sample.controller)%Z)
    by (vm_compute; split; [discriminate | reflexivity]).
  destruct (tab_and_home_navigate Sample.on_z_axis Sample.from_z_axis
              Sample.controller eq_refl eq_refl R)
    as (_ & B & _ & _ & F).
  split.
  - apply (B 0 0).
  - apply F; [reflexivity | reflexivity | reflexivity |].
    vm_compute. repeat split.
Defined.



(** The scenario of the direct navigation: node 2 in two seconds, seen from
    the events.  After one second the transition is in flight; after two it
    is over and free look resumes. *)
Example direct_navigation_scenario :
  let half :=
    fst (run Sample.on_z_axis Sample.from_z_axis Sample.controller
           [Navigate 2 0 0; AnimationFrame 1000]) in
  let done :=
    fst (run Sample.on_z_axis Sample.from_z_axis Sample.controller
           [Navigate 2 0 0; AnimationFrame 1000; AnimationFrame 2000]) in
  isTransitioning half = true
  /\ isTransitioning done = false
  /\ motion done = NoMotion
  /\ currentNodeIndex done = 2%Z.
Proof. vm_compute. repeat split. Qed.

(** A navigation asked for during the flight to node 2 changes neither the
    destination nor the arrival. *)
Example no_overlap_scenario :
  fst (run Sample.on_z_axis Sample.from_z_axis Sample.controller
         [Navigate 2 0 0; AnimationFrame 1000; Navigate 4 1000 1000;
          KeyDown "1" false 1200 1200; AnimationFrame 2000])
  = fst (run Sample.on_z_axis Sample.from_z_axis Sample.controller
           [Navigate 2 0 0; AnimationFrame 1000; AnimationFrame 2000]).
Proof. vm_compute. reflexivity. Qed.

End Navigation.

(** ** The built-in interpolator, value by value *)

Module Interpolator.

Import PrimFloat Doubles.

Local Open Scope float_scope.

(** A call of [animate] reads nothing of the camera: where it puts the
    camera depends on the start kept in the closure and on the clock. *)
Lemma animate_pose (t : Transition) (c : Camera) (now : float) :
  fst (animate t c now)
  = mkCamera (fst (pose_at t now)) (snd (pose_at t now))
      (if progress_at t now <? 1 then Some t else None).
Proof.
  unfold animate, pose_at. cbn [fst snd].
  destruct (progress_at t now <? 1); reflexivity.
Qed.

Lemma animate_actions (t : Transition) (c : Camera) (now : float) :
  snd (animate t c now)
  = [WritePosition (fst (pose_at t now)); WriteTarget (snd (pose_at t now));
     LookAt (snd (pose_at t now));
     if progress_at t now <? 1 then RequestAnimationFrame else Resolve].
Proof.
  unfold animate, pose_at. cbn [fst snd].
  destruct (progress_at t now <? 1); reflexivity.
Qed.

(** Frames that come while the transition is in flight are calls of its
    [animate]; the last of them decides where the camera is. *)
Lemma frames_pose (t : Transition) (later : list float) :
  forall (c : Camera) (now : float),
    waiting c = Some t -> in_flight t later = true ->
    fst (frames c (later ++ [now])) = fst (animate t c now)
    /\ exists before,
         snd (frames c (later ++ [now])) = before ++ snd (animate t c now).
Proof.
  induction later as [|n later IH]; intros c now W F.
  - cbn [app frames]. unfold onAnimationFrame. rewrite W.
    rewrite !animate_pose. destruct (animate t c now) as [c1 a1] eqn:A.
    cbn [fst snd]. pose proof (animate_pose t c now) as P.
    rewrite A in P. cbn [fst] in P. split.
    + exact P.
    + exists []. rewrite app_nil_r. reflexivity.
  - cbn [in_flight forallb] in F. apply andb_prop in F. destruct F as [Fn Fl].
    cbn [app frames]. unfold onAnimationFrame at 1 2. rewrite W.
    pose proof (animate_pose t c n) as P. rewrite Fn in P.
    destruct (animate t c n) as [c1 a1] eqn:A. cbn [fst] in P.
    assert (W1 : waiting c1 = Some t) by (rewrite P; reflexivity).
    destruct (IH c1 now W1 Fl) as (S & before & E).
    destruct (frames c1 (later ++ [now])) as [c2 a2]. cbn [fst snd] in *.
    split.
    + rewrite S, !animate_pose. reflexivity.
    + exists (a1 ++ before). rewrite E, <- app_assoc.
      rewrite !animate_actions. reflexivity.
Qed.

(** Between the places of the nodes of the list the interpolation is exact
    half way and at the end. *)
Lemma exact_between_nodes (a b : Node) :
  In a default_nodes -> In b default_nodes ->
  lerpVectors (position a) (position b) 0.5
  = v_mid (position a) (position b)
  /\ lerpVectors (position a) (position b) 1 = position b
  /\ lerpVectors (node_target a) (node_target b) 1 = node_target b.
Proof.
  intros Ha Hb. cbn [In default_nodes] in Ha, Hb.
  repeat (destruct Ha as [<- | Ha]; [|]); try contradiction;
    repeat (destruct Hb as [<- | Hb]; [|]); try contradiction;
    vm_compute; repeat split.
Qed.

(** *** Comparisons of doubles *)

Lemma SFcompare_refl (x : SpecFloat.spec_float) :
  x <> SpecFloat.S754_nan -> SpecFloat.SFcompare x x = Some Eq.
Proof.
  destruct x as [s | s | | s m e]; intro H; cbn.
  - reflexivity.
  - destruct s; reflexivity.
  - contradiction.
  - rewrite Z.compare_refl, Pos.compare_cont_refl. destruct s; reflexivity.
Qed.

Lemma one_as_spec :
  FloatOps.Prim2SF 1
  = SpecFloat.S754_finite false 4503599627370496 (-52).
Proof. vm_compute. reflexivity. Qed.

Lemma SFcompare_one_eq (y : SpecFloat.spec_float) :
  SpecFloat.SFcompare
    (SpecFloat.S754_finite false 4503599627370496 (-52)) y = Some Eq ->
  y = SpecFloat.S754_finite false 4503599627370496 (-52).
Proof.
  destruct y as [s | s | | s m e]; cbn [SpecFloat.SFcompare].
  - discriminate.
  - destruct s; discriminate.
  - discriminate.
  - destruct s; [discriminate|].
    destruct (Z.compare_spec (-52) e) as [E | E | E]; try discriminate.
    intro H. injection H as H. apply Pos.compare_eq in H.
    subst. reflexivity.
Qed.

Lemma not_nan_of_leb (r : float) : (1 <=? r) = true -> is_nan r = false.
Proof.
  rewrite FloatAxioms.leb_spec. unfold SpecFloat.SFleb, is_nan.
  rewrite FloatAxioms.eqb_spec. unfold SpecFloat.SFeqb.
  intro H.
  assert (N : FloatOps.Prim2SF r <> SpecFloat.S754_nan).
  { intro K. rewrite K in H. rewrite one_as_spec in H. cbn in H.
    discriminate. }
  rewrite (SFcompare_refl _ N). reflexivity.
Qed.

(** The linear progress is one exactly when the quotient
    [elapsed / durationMs], as the doubles give it, is one or more,
    [Infinity] included. *)
Lemma min_with_one (r : float) :
  Math_min r 1 = 1 <-> (1 <=? r) = true.
Proof.
  unfold Math_min.
  change (is_nan 1) with false. change (is_zero 1) with false.
  rewrite orb_false_r, andb_false_r.
  split.
  - destruct (is_nan r) eqn:N.
    + intro H. assert (K : is_nan nan = is_nan 1) by (rewrite H; reflexivity).
      vm_compute in K. discriminate.
    + destruct (1 <? r) eqn:L.
      * intros _. rewrite FloatAxioms.leb_spec.
        rewrite FloatAxioms.ltb_spec in L.
        unfold SpecFloat.SFleb, SpecFloat.SFltb in *.
        destruct (SpecFloat.SFcompare _ _) as [[| |]|]; try discriminate.
        reflexivity.
      * intros ->. vm_compute. reflexivity.
  - intro H. rewrite (not_nan_of_leb r H).
    destruct (1 <? r) eqn:L; [reflexivity|].
    rewrite FloatAxioms.leb_spec in H. rewrite FloatAxioms.ltb_spec in L.
    unfold SpecFloat.SFleb, SpecFloat.SFltb in *.
    destruct (SpecFloat.SFcompare (FloatOps.Prim2SF 1) (FloatOps.Prim2SF r))
      as [[| |]|] eqn:C; try discriminate.
    rewrite one_as_spec in C. apply SFcompare_one_eq in C.
    rewrite <- one_as_spec in C. apply FloatAxioms.Prim2SF_inj in C.
    exact C.
Qed.

Lemma flight_pose (c : Camera) (node : Node) (duration now0 : float)
  (earlier : list float) (now : float) :
  let t :=
    mkTransition (camera_position c) (target c) now0 (duration * 1000)
      node in
  in_flight t earlier = true ->
  fst (flight c node duration now0 (earlier ++ [now]))
  = mkCamera (fst (pose_at t now)) (snd (pose_at t now))
      (if progress_at t now <? 1 then Some t else None)
  /\ exists before,
       snd (flight c node duration now0 (earlier ++ [now]))
       = before
           ++ [WritePosition (fst (pose_at t now));
               WriteTarget (snd (pose_at t now));
               LookAt (snd (pose_at t now));
               if progress_at t now <? 1 then RequestAnimationFrame
               else Resolve].
Proof.
  intros t F. destruct earlier as [|n1 later].
  - cbn [app flight frames]. unfold fallbackTransition. fold t.
    pose proof (animate_pose t c now) as P.
    pose proof (animate_actions t c now) as E.
    destruct (animate t c now) as [c1 a1]. cbn [fst snd] in *.
    split; [exact P|]. exists []. rewrite app_nil_r. exact E.
  - cbn [in_flight forallb] in F. apply andb_prop in F. destruct F as [F1 Fl].
    cbn [app flight]. unfold fallbackTransition. fold t.
    pose proof (animate_pose t c n1) as P. rewrite F1 in P.
    destruct (animate t c n1) as [c1 a1]. cbn [fst] in P.
    assert (W1 : waiting c1 = Some t) by (rewrite P; reflexivity).
    destruct (frames_pose t later c1 now W1 Fl) as (S & before & E).
    destruct (frames c1 (later ++ [now])) as [c2 a2]. cbn [fst snd] in *.
    split.
    + rewrite S. apply animate_pose.
    + exists (a1 ++ before). rewrite E, <- app_assoc, animate_actions.
      reflexivity.
Qed.

(** C5, as the code has it.  Every call of [animate], the one
    [fallbackTransition] makes and those of the frames that follow while the
    transition is in flight, takes the linear progress
    [p = min(elapsed / duration, 1)], eases it by [2 p^2] below one half and
    by [1 - (-2 p + 2)^2 / 2] otherwise, and puts the camera position and
    the look-at target at [start + (end - start) * eased], the start being
    where they were when [fallbackTransition] was called.  At the step where
    [p] is one half the eased progress is one half and the camera is at
    [start + (end - start) * 0.5], the transition still in flight.  The
    step where [p] is one is the first whose quotient [elapsed / duration]
    is one or more: there the eased progress is one, the camera is at
    [start + (end - start) * 1], the promise is resolved and no frame is
    asked for.  Computed in doubles these two values are the midpoint and
    the destination themselves when the transition goes from the place of a
    node of the list to another, the scenario of a direct navigation from
    the hub included; from other places they are so up to rounding only. *)
Theorem fallback_transition_values (c : Camera) (node : Node)
  (duration now0 : float) (earlier : list float) (now : float) :
  let t :=
    mkTransition (camera_position c) (target c) now0 (duration * 1000)
      node in
  in_flight t earlier = true ->
  let run := flight c node duration now0 (earlier ++ [now]) in
  let p := progress_at t now in
  let c' := fst run in
  p = Math_min ((now - now0) / (duration * 1000)) 1
  /\ ((p <? 0.5) = true -> ease p = 2 * p * p)
  /\ ((p <? 0.5) = false -> ease p = 1 - Math_pow2 (-2 * p + 2) / 2)
  /\ camera_position c'
     = lerpVectors (camera_position c) (position node) (ease p)
  /\ target c' = lerpVectors (target c) (node_target node) (ease p)
  /\ (p = 0.5 ->
      camera_position c'
      = lerpVectors (camera_position c) (position node) 0.5
      /\ waiting c' = Some t)
  /\ (p = 1 <-> (1 <=? (now - now0) / (duration * 1000)) = true)
  /\ (p = 1 ->
      camera_position c' = lerpVectors (camera_position c) (position node) 1
      /\ target c' = lerpVectors (target c) (node_target node) 1
      /\ waiting c' = None
      /\ exists before,
           snd run
           = before ++ [WritePosition (camera_position c');
                        WriteTarget (target c'); LookAt (target c');
                        Resolve])
  /\ (forall a : Node,
        In a default_nodes -> In node default_nodes ->
        camera_position c = position a -> target c = node_target a ->
        (p = 0.5 ->
         camera_position c' = v_mid (position a) (position node))
        /\ (p = 1 ->
            camera_position c' = position node
            /\ target c' = node_target node)).
Proof.
  intros t F run p c'.
  destruct (flight_pose c node duration now0 earlier now F) as (S & before & E).
  fold t run in S, E. fold p in S, E.
  assert (Pc : camera_position c'
               = lerpVectors (camera_position c) (position node) (ease p)).
  { unfold c'. rewrite S. reflexivity. }
  assert (Pt : target c'
               = lerpVectors (target c) (node_target node) (ease p)).
  { unfold c'. rewrite S. reflexivity. }
  assert (W : waiting c' = if p <? 1 then Some t else None).
  { unfold c'. rewrite S. reflexivity. }
  split; [reflexivity|].
  split; [intro L; unfold ease; rewrite L; reflexivity|].
  split; [intro L; unfold ease; rewrite L; reflexivity|].
  split; [exact Pc|]. split; [exact Pt|].
  split.
  { intro H. rewrite Pc, W, H. split; reflexivity. }
  split; [apply min_with_one|].
  split.
  { intro H. rewrite Pc, Pt, W. rewrite H in E |- *.
    split; [reflexivity|]. split; [reflexivity|]. split; [reflexivity|].
    exists before. rewrite E. unfold pose_at. fold p. rewrite H.
    reflexivity. }
  intros a Ha Hn Ca Ta. rewrite Pc, Pt, Ca, Ta.
  destruct (exact_between_nodes a node Ha Hn) as (M & A & B).
  split.
  - intro H. rewrite H. exact M.
  - intro H. rewrite H. split; [exact A | exact B].
Qed.

(** The navigation from the hub to node 2 in two seconds: frames at 16 ms
    and at half a second, then the one after one second, and the one after
    two. *)
Lemma fallback_transition_values_witness :
  camera_position
    (fst (flight at_hub work 2 0 [0; 16; 500; 1000]))
  = vec3 (-15) 5 35
  /\ camera_position
       (fst (flight at_hub work 2 0 [0; 16; 500; 1000; 2000]))
     = vec3 (-30) 10 20.
Proof.
  split.
  - destruct (fallback_transition_values at_hub work 2 0 [0; 16; 500] 1000
                eq_refl) as (_ & _ & _ & _ & _ & _ & _ & _ & X).
    destruct (X hub) as (M & _);
      [left; reflexivity | right; right; left; reflexivity
       | reflexivity | reflexivity |].
    exact (M eq_refl).
  - destruct (fallback_transition_values at_hub work 2 0 [0; 16; 500; 1000]
                2000 eq_refl) as (_ & _ & _ & _ & _ & _ & _ & _ & X).
    destruct (X hub) as (_ & A);
      [left; reflexivity | right; right; left; reflexivity
       | reflexivity | reflexivity |].
    exact (proj1 (A eq_refl)).
Defined.

(** C5 as stated fails.  From a camera 26.8 behind the origin the
    navigation to the node "About" in two seconds is, after one second, at
    the step where the linear progress is one half, and after two at the
    step where it is one and the transition is over; the camera is then not
    at the destination, whose third coordinate is 25, but one unit in the
    last place below it, and half way it was not at the midpoint either. *)
Lemma arrival_is_rounded :
  let t := mkTransition (camera_position behind) (target behind) 0
             (2 * 1000) about in
  let half := fst (flight behind about 2 0 [0; 1000]) in
  let done := fst (flight behind about 2 0 [0; 1000; 2000]) in
  progress_at t 1000 = 0.5
  /\ (vz (camera_position half)
      =? vz (v_mid (camera_position behind) (position about))) = false
  /\ progress_at t 2000 = 1
  /\ waiting done = None
  /\ (vz (camera_position done) =? vz (position about)) = false
  /\ vz (camera_position done) = next_down 25.
Proof. vm_compute. repeat split. Qed.

(** A duration of zero.  The quotient [elapsed / durationMs] is [Infinity]
    when the clock has moved since [startTime] was read and [NaN] when it
    has not.  Either way the first call of [animate] resolves the promise
    and asks for no frame; the camera is at the destination in the first
    case, and its coordinates are [NaN] in the second. *)
Example zero_duration_scenario :
  let moved := flight at_hub work 0 100 [116] in
  let still := flight at_hub work 0 100 [100] in
  waiting (fst moved) = None
  /\ camera_position (fst moved) = position work
  /\ snd moved
     = [WritePosition (position work); WriteTarget (node_target work);
        LookAt (node_target work); Resolve]
  /\ waiting (fst still) = None
  /\ is_nan (vx (camera_position (fst still))) = true
  /\ is_nan (vz (camera_position (fst still))) = true
  /\ List.length (snd still) = 4%nat
  /\ ~ In RequestAnimationFrame (snd still).
Proof.
  vm_compute. repeat split.
  intros [H | [H | [H | [H | []]]]]; discriminate.
Qed.

(** X22.  The easing written in [fallbackTransition] and
    [Easing.easeInOutQuad] are the same expression below one half, and have
    the same value at one half and at one; above one half they are two
    expressions of one polynomial, which doubles do not always round to the
    same number. *)
Theorem fallback_ease_and_easeInOutQuad :
  (forall p, (p <? 0.5) = true -> ease p = easeInOutQuad p)
  /\ ease 0.5 = easeInOutQuad 0.5
  /\ ease 1 = easeInOutQuad 1
  /\ exists p,
       (0.5 <? p) = true /\ (p <? 1) = true
       /\ (ease p =? easeInOutQuad p) = false.
Proof.
  split; [|split; [|split]].
  - intros p L. unfold ease, easeInOutQuad. rewrite L. reflexivity.
  - vm_compute. reflexivity.
  - vm_compute. reflexivity.
  - exists 0x1.4d474883171ffp-1. vm_compute. repeat split.
Qed.
End Interpolator.

(** ** Hover resolution *)

Module Hovering.

Import InteractionManager.

(** [findNodeGroup] returns [null] exactly when neither the object nor any
    of its ancestors is flagged as a node. *)
Lemma findNodeGroup_none :
  forall o, findNodeGroup o = None
            <-> forallb (fun a => negb (flagged a)) (chain o) = true.
Proof.
  fix IH 1. intros [id u p]. cbn [findNodeGroup chain forallb].
  change (flagged (Obj id u p))
    with (match u with Some d => isNode d | None => false end).
  destruct (match u with Some d => isNode d | None => false end).
  - split; discriminate.
  - cbn [negb andb]. destruct p as [q|]; [apply IH|].
    split; reflexivity.
Qed.

(** What it returns otherwise is flagged. *)
Lemma findNodeGroup_flagged :
  forall o g, findNodeGroup o = Some g -> flagged g = true /\ In g (chain o).
Proof.
  fix IH 1. intros [id u p] g. cbn [findNodeGroup chain].
  destruct (match u with Some d => isNode d | None => false end) eqn:F.
  - intro H. injection H as <-. split; [exact F | left; reflexivity].
  - destruct p as [q|]; [|discriminate].
    intro H. destruct (IH q g H) as [Fg Ig]. split; [exact Fg | right; exact Ig].
Qed.

(** The four cases of [checkHover]. *)
Lemma checkHover_same (m : Manager) (l : list Intersection) :
  differs (resolved l) (hoveredObject m) = false -> checkHover m l = (m, []).
Proof.
  intro D. destruct l as [|first rest]; cbn in *.
  - destruct (hoveredObject m); [discriminate | reflexivity].
  - rewrite D. reflexivity.
Qed.

Lemma checkHover_hit (m : Manager) (first : Intersection)
  (rest : list Intersection) :
  differs (findNodeGroup (object first)) (hoveredObject m) = true ->
  checkHover m (first :: rest)
  = (set_hoveredObject (findNodeGroup (object first)) m,
     (match hoveredObject m with
      | Some prev => triggerCallbacks m Unhover (Some prev) None
      | None => []
      end)
       ++ [SetCursor "pointer"]
       ++ triggerCallbacks m Hover (findNodeGroup (object first))
            (Some first)).
Proof.
  intro D. cbn. rewrite D. destruct (hoveredObject m); reflexivity.
Qed.

Lemma checkHover_miss (m : Manager) (prev : Object3D) :
  hoveredObject m = Some prev ->
  checkHover m []
  = (set_hoveredObject None m,
     triggerCallbacks m Unhover (Some prev) None ++ [SetCursor "grab"]).
Proof. intro H. cbn. rewrite H. reflexivity. Qed.

(** After a resolution that changes the hover, [hoveredObject] is what the
    intersections resolve to. *)
Lemma checkHover_tracks (m : Manager) (l : list Intersection) :
  differs (resolved l) (hoveredObject m) = true ->
  hoveredObject (fst (checkHover m l)) = resolved l.
Proof.
  intro D. destruct l as [|first rest].
  - cbn in *. destruct (hoveredObject m); [reflexivity | discriminate].
  - rewrite checkHover_hit by exact D. reflexivity.
Qed.

(** C10, as the code has it.  When the first intersection is on an object
    that has no flagged object in its chain of ancestors: if an entity is
    hovered, [checkHover] calls the [unhover] listeners with it, sets the
    cursor to [pointer] and calls the [hover] listeners with a [null]
    entity, leaving [hoveredObject] [null]; if none is hovered it does
    nothing at all. *)
Theorem hover_of_unflagged_hit (m : Manager) (first : Intersection)
  (rest : list Intersection) :
  forallb (fun a => negb (flagged a)) (chain (object first)) = true ->
  (forall prev,
      hoveredObject m = Some prev ->
      checkHover m (first :: rest)
      = (set_hoveredObject None m,
         triggerCallbacks m Unhover (Some prev) None
           ++ [SetCursor "pointer"]
           ++ triggerCallbacks m Hover None (Some first)))
  /\ (hoveredObject m = None -> checkHover m (first :: rest) = (m, [])).
Proof.
  intro U. apply findNodeGroup_none in U. split.
  - intros prev H. rewrite checkHover_hit; rewrite U, H; reflexivity.
  - intro H. apply (checkHover_same m (first :: rest)).
    cbn. rewrite U, H. reflexivity.
Qed.

Lemma hover_of_unflagged_hit_witness :
  checkHover Sample.hovering [Sample.hit Sample.stray]
  = (set_hoveredObject None Sample.hovering,
     triggerCallbacks Sample.hovering Unhover (Some Sample.work_group) None
       ++ [SetCursor "pointer"]
       ++ triggerCallbacks Sample.hovering Hover None
            (Some (Sample.hit Sample.stray))).
Proof.
  apply (proj1 (hover_of_unflagged_hit Sample.hovering
                  (Sample.hit Sample.stray) [] eq_refl)).
  reflexivity.
Defined.

(** C10 as stated fails.  With nothing hovered, an intersection on an object
    that belongs to no node makes [checkHover] call no listener, the [hover]
    ones included. *)
Lemma unflagged_hit_with_nothing_hovered :
  hoveredObject Sample.manager = None
  /\ forallb (fun a => negb (flagged a)) (chain Sample.stray) = true
  /\ listeners Sample.manager Hover = [0%nat]
  /\ checkHover Sample.manager [Sample.hit Sample.stray] = (Sample.manager, [])
  /\ existsb (is_call Hover)
       (snd (checkHover Sample.manager [Sample.hit Sample.stray])) = false.
Proof. repeat split. Defined.

(** C8, at the input where the code departs from it.  The pointer leaves the
    node "Work" for a selectable object that belongs to no node: the hover
    resolves to no entity, yet after the [unhover] call [checkHover] sets the
    cursor to [pointer] and calls the [hover] listener, with [null].  Leaving
    for empty space emits the [unhover] call alone, with the cursor [grab];
    the click on the same object is stopped by the test [checkHover] lacks;
    and the [hover] listener of the application throws on [null]. *)
Theorem hover_emitted_for_no_entity :
  hoveredObject Sample.hovering = Some Sample.work_group
  /\ resolved [Sample.hit Sample.stray] = None
  /\ checkHover Sample.hovering [Sample.hit Sample.stray]
     = (set_hoveredObject None Sample.hovering,
        [Call Unhover 0 (Some Sample.work_group) None;
         SetCursor "pointer";
         Call Hover 0 None (Some (Sample.hit Sample.stray))])
  /\ checkHover Sample.hovering []
     = (set_hoveredObject None Sample.hovering,
        [Call Unhover 0 (Some Sample.work_group) None; SetCursor "grab"])
  /\ select_hit Sample.hovering [Sample.hit Sample.stray]
     = (Sample.hovering, [])
  /\ snd (App.onHover None) = true.
Proof. repeat split. Qed.

End Hovering.

(** ** Inputs that ask for a navigation *)

Module Gating.

Import CameraController.

Lemma key_gated (sfv : Vector3 -> Spherical) (c : Controller) (key : string)
  (shift : bool) (now0 now1 : Q) :
  is_navigation_key key = true ->
  enabled c = false \/ isTransitioning c = true ->
  fst (onKeyDown sfv c key shift now0 now1) = c
  /\ forallb is_inert (snd (onKeyDown sfv c key shift now0 now1)) = true.
Proof.
  intros K G. unfold onKeyDown.
  destruct (enabled c) eqn:E; cbn [negb]; [|split; reflexivity].
  destruct G as [G | G]; [discriminate|].
  assert (Rej : forall i, navigateToNode sfv c i now0 now1 = (c, []))
    by (intro i; apply Navigation.navigate_rejected; auto).
  destruct (("1" <=? key) && (key <=? "5"))%string eqn:D.
  - destruct (parseInt key) as [n|]; [|split; reflexivity].
    destruct (n - 1 <? node_count c)%Z; [rewrite Rej|]; split; reflexivity.
  - unfold is_navigation_key in K. rewrite D in K. cbn [orb] in K.
    apply orb_true_iff in K. rewrite !String.eqb_eq in K.
    destruct K as [-> | ->]; cbn; rewrite Rej; split; reflexivity.
Qed.

Lemma deliver_keeps_camera (sfv : Vector3 -> Spherical)
  (l : list InteractionManager.Action) (a : App.App) (now0 now1 : Q) :
  isTransitioning (App.cameraController a) = true ->
  App.cameraController (fst (App.deliver sfv a l now0 now1))
  = App.cameraController a
  /\ forallb (fun x => match x with
                       | App.Camera _ => false
                       | _ => true
                       end)
       (snd (App.deliver sfv a l now0 now1)) = true.
Proof.
  revert a. induction l as [|x rest IH]; intros a T; [split; reflexivity|].
  cbn [App.deliver].
  assert (H : forall e,
             App.cameraController (fst (App.onSelect sfv a e now0 now1))
             = App.cameraController a
             /\ forallb (fun x => match x with
                                  | App.Camera _ => false
                                  | _ => true
                                  end)
                  (snd (App.onSelect sfv a e now0 now1)) = true).
  { intro e. unfold App.onSelect.
    destruct e as [g|]; [|split; reflexivity].
    destruct (InteractionManager.userData g) as [d|]; [|split; reflexivity].
    unfold App.navigateToNode.
    destruct (App.isInitialized a); [|split; reflexivity].
    rewrite Navigation.navigate_rejected by auto.
    split; reflexivity. }
  match goal with
    |- context [let '(a1, here) := ?s in _] =>
      assert (S : App.cameraController (fst s) = App.cameraController a
                  /\ forallb (fun x => match x with
                                       | App.Camera _ => false
                                       | _ => true
                                       end) (snd s) = true);
      [| destruct s as [a1 here] ]
  end.
  { destruct x as [ch cb e hit| | |]; try (split; reflexivity).
    destruct ch; try (split; reflexivity).
    destruct (cb =? App.select_listener)%nat; [apply H | split; reflexivity]. }
  cbn [fst snd] in S. destruct S as [S1 S2].
  assert (T1 : isTransitioning (App.cameraController a1) = true)
    by (rewrite S1; exact T).
  destruct (IH a1 T1) as [I1 I2].
  destruct (App.deliver sfv a1 rest now0 now1) as [a2 after].
  cbn [fst snd] in *. split; [congruence|].
  cbn [forallb]. rewrite forallb_app, S2, I2. reflexivity.
Qed.

(** C9, as the code has it.  The keys that ask for a navigation (digits,
    [Tab], [Shift+Tab], [Home]) change nothing, call no listener and do not
    touch the camera while a transition is in flight or while the
    controller is not enabled.  A click or the end of a touch does nothing
    while the interaction manager is not enabled.  While a transition is in
    flight, a click or the end of a touch leaves the camera controller as it
    is and produces no effect of it: the navigation that its [select]
    listener asks for is refused; the [click] and [select] events
    themselves are not held back. *)
Theorem navigation_inputs_gated (sfv : Vector3 -> Spherical) :
  (forall c key shift now0 now1,
      is_navigation_key key = true ->
      enabled c = false \/ isTransitioning c = true ->
      fst (onKeyDown sfv c key shift now0 now1) = c
      /\ forallb is_inert (snd (onKeyDown sfv c key shift now0 now1)) = true)
  /\ (forall a p n hits now0 now1,
      InteractionManager.isEnabled (App.interactionManager a) = false ->
      App.onClick sfv a p n hits now0 now1 = (a, []))
  /\ (forall a changed n hits now0 now1,
      InteractionManager.isEnabled (App.interactionManager a) = false ->
      App.onTouchEnd sfv a changed n hits now0 now1 = (a, []))
  /\ (forall a p n hits now0 now1,
      isTransitioning (App.cameraController a) = true ->
      App.cameraController (fst (App.onClick sfv a p n hits now0 now1))
      = App.cameraController a
      /\ forallb (fun x => match x with App.Camera _ => false | _ => true end)
           (snd (App.onClick sfv a p n hits now0 now1)) = true)
  /\ (forall a changed n hits now0 now1,
      isTransitioning (App.cameraController a) = true ->
      App.cameraController
        (fst (App.onTouchEnd sfv a changed n hits now0 now1))
      = App.cameraController a
      /\ forallb (fun x => match x with App.Camera _ => false | _ => true end)
           (snd (App.onTouchEnd sfv a changed n hits now0 now1)) = true).
Proof.
  split; [intros; apply key_gated; assumption|].
  split; [|split; [|split]].
  - intros a p n hits now0 now1 D. unfold App.onClick, InteractionManager.onClick.
    rewrite D. destruct a; reflexivity.
  - intros a changed n hits now0 now1 D.
    unfold App.onTouchEnd, InteractionManager.onTouchEnd.
    rewrite D. destruct a; reflexivity.
  - intros a p n hits now0 now1 T. unfold App.onClick.
    destruct (InteractionManager.onClick _ p n hits) as [m emitted].
    apply (deliver_keeps_camera sfv emitted (App.set_interactionManager m a)).
    exact T.
  - intros a changed n hits now0 now1 T. unfold App.onTouchEnd.
    destruct (InteractionManager.onTouchEnd _ changed n hits) as [m emitted].
    apply (deliver_keeps_camera sfv emitted (App.set_interactionManager m a)).
    exact T.
Qed.

Lemma navigation_inputs_gated_witness :
  let c := fst (navigateToNode Sample.from_z_axis Sample.controller 1 0 0) in
  fst (onKeyDown Sample.from_z_axis c "Tab" false 500 500) = c
  /\ fst (onKeyDown Sample.from_z_axis c "3" false 500 500) = c
  /\ App.onClick Sample.from_z_axis
       (App.set_interactionManager
          (fst (InteractionManager.setEnabled Sample.manager false)) Sample.app)
       (0, 0) (0, 0) [Sample.hit Sample.work_mesh] 500 500
     = (App.set_interactionManager
          (fst (InteractionManager.setEnabled Sample.manager false)) Sample.app,
        []).
Proof.
  cbv zeta.
  destruct (navigation_inputs_gated Sample.from_z_axis) as (K & C & _).
  split; [|split].
  - apply (K (fst (navigateToNode Sample.from_z_axis Sample.controller 1 0 0))
             "Tab"%string false 500 500); [reflexivity | right; reflexivity].
  - apply (K (fst (navigateToNode Sample.from_z_axis Sample.controller 1 0 0))
             "3"%string false 500 500); [reflexivity | right; reflexivity].
  - apply C. reflexivity.
Defined.

(** C9 as stated fails.  While the transition to node 1 is in flight, a click
    on the mesh of "Work" calls the [select] listener; the application marks
    the node selected and schedules its panel, and only the move of the
    camera is refused. *)
Lemma click_during_transition_selects :
  let a := fst (App.navigateToNode Sample.from_z_axis Sample.app 1 0 0) in
  let out :=
    App.onClick Sample.from_z_axis a (0, 0) (0, 0)
      [Sample.hit Sample.work_mesh] 500 500 in
  isTransitioning (App.cameraController a) = true
  /\ existsb App.is_select (snd out) = true
  /\ snd out
     = [App.Interaction
          (InteractionManager.Call InteractionManager.Select 0
             (Some Sample.work_group) (Some (Sample.hit Sample.work_mesh)));
        App.SetSelected 2; App.OpenPanelLater 2 500]
  /\ App.cameraController (fst out) = App.cameraController a.
Proof. repeat split. Defined.

End Gating.

(* ================================================================== *)
(** ** The camera controller: free look, navigation to a point, listeners *)

Module ControllerFacts.

Import CameraController JsNumFacts.

Lemma update_keeps_mode (sfs : Spherical -> Vector3) (c : Controller) (dt : Q) :
  options (fst (update sfs c dt)) = options c
  /\ enabled (fst (update sfs c dt)) = enabled c
  /\ isTransitioning (fst (update sfs c dt)) = isTransitioning c
  /\ pointerState (fst (update sfs c dt)) = pointerState c.
Proof.
  unfold update.
  destruct (negb (enabled c) || isTransitioning c); [repeat split|].
  destruct (enableDamping (options c)); repeat split.
Qed.

Lemma updates_keep_mode (sfs : Spherical -> Vector3) (dt : Q) (n : nat)
  (c : Controller) :
  options (Nat.iter n (fun x => fst (update sfs x dt)) c) = options c
  /\ enabled (Nat.iter n (fun x => fst (update sfs x dt)) c) = enabled c
  /\ isTransitioning (Nat.iter n (fun x => fst (update sfs x dt)) c)
     = isTransitioning c.
Proof.
  induction n as [|n IH]; [repeat split|].
  rewrite Nat.iter_succ. destruct IH as (O & E & T).
  destruct (update_keeps_mode sfs
              (Nat.iter n (fun x => fst (update sfs x dt)) c) dt)
    as (O' & E' & T' & _).
  rewrite O', E', T'. repeat split; assumption.
Qed.

Lemma update_decays (sfs : Spherical -> Vector3) (c : Controller) (dt : Q) :
  enabled c = true -> isTransitioning c = false ->
  enableDamping (options c) = true ->
  0 <= dampingFactor (options c) <= 1 ->
  (0 <= theta (sphericalDelta c) ->
   0 <= theta (sphericalDelta (fst (update sfs c dt)))
   /\ theta (sphericalDelta (fst (update sfs c dt)))
      <= theta (sphericalDelta c)
   /\ theta (spherical c) <= theta (spherical (fst (update sfs c dt))))
  /\ (theta (sphericalDelta c) <= 0 ->
      theta (sphericalDelta c)
      <= theta (sphericalDelta (fst (update sfs c dt)))
      /\ theta (sphericalDelta (fst (update sfs c dt))) <= 0
      /\ theta (spherical (fst (update sfs c dt))) <= theta (spherical c)).
Proof.
  intros E T D [F0 F1]. unfold update. rewrite E, T, D.
  cbn [negb orb fst sphericalDelta spherical set_camera_position
       set_sphericalDelta set_spherical set_phi theta].
  set (f := dampingFactor (options c)) in *.
  set (d := theta (sphericalDelta c)) in *.
  set (th := theta (spherical c)) in *.
  split; intro H.
  - assert (0 <= d * f) by (apply Qmult_le_0_compat; assumption).
    assert (0 <= d * (1 - f)) by (apply Qmult_le_0_compat; lra).
    repeat split; lra.
  - assert (0 <= (- d) * f) by (apply Qmult_le_0_compat; lra).
    assert (0 <= (- d) * (1 - f)) by (apply Qmult_le_0_compat; lra).
    repeat split; lra.
Qed.



Lemma move_right_turns_back (c : Controller) (x y : Q) :
  enabled c = true -> isDown (pointerState c) = true ->
  0 <= rotateSpeed (options c) ->
  currentX (pointerState c) <= x ->
  let c' := fst (onPointerMove c x y) in
  theta (sphericalDelta c') <= theta (sphericalDelta c)
  /\ currentX (pointerState c') = x
  /\ currentY (pointerState c') = y
  /\ isDown (pointerState c') = true
  /\ enabled c' = true
  /\ options c' = options c
  /\ spherical c' = spherical c
  /\ camera_position c' = camera_position c
  /\ snd (onPointerMove c x y) = [].
Proof.
  intros E D R X. unfold onPointerMove. rewrite E, D.
  cbn [negb orb fst snd sphericalDelta set_sphericalDelta set_pointerState
       set_theta set_phi theta pointerState currentX currentY isDown enabled
       options spherical camera_position].
  split; [|repeat split; first [reflexivity | exact E | exact D]].
  assert (0 <= (x - currentX (pointerState c)) * rotateSpeed (options c))
    by (apply Qmult_le_0_compat; lra).
  lra.
Qed.



(** X3.  Without GSAP [navigateToPosition] goes nowhere: it moves neither
    the camera nor its target, calls no listener, asks for no frame, leaves
    the current index and the flag [isTransitioning] as they were, and only
    reads the spherical coordinates off the camera again. *)
Theorem navigateToPosition_needs_gsap (sfv : Vector3 -> Spherical)
  (normalize : Vector3 -> Vector3) (c : Controller) (pos : Vector3)
  (lookAt : option Vector3) :
  gsap c = false ->
  let c' := fst (navigateToPosition sfv normalize c pos lookAt) in
  snd (navigateToPosition sfv normalize c pos lookAt) = []
  /\ camera_position c' = camera_position c
  /\ target c' = target c
  /\ currentNodeIndex c' = currentNodeIndex c
  /\ isTransitioning c' = isTransitioning c
  /\ motion c' = motion c
  /\ (isTransitioning c = false ->
      spherical c' = sfv (v_sub (camera_position c) (target c))).
Proof.
  intro G. unfold navigateToPosition.
  destruct (isTransitioning c) eqn:T.
  - cbn [fst snd]. rewrite T. do 6 (split; [reflexivity|]). discriminate.
  - cbn [gsap set_isTransitioning]. rewrite G. cbn.
    do 6 (split; [reflexivity|]). reflexivity.
Qed.

Lemma navigateToPosition_needs_gsap_witness :
  let r := navigateToPosition Sample.from_z_axis (fun v => v)
             Sample.controller (vec3 10 0 0) (Some (vec3 0 0 0)) in
  snd r = []
  /\ camera_position (fst r) = vec3 0 0 50
  /\ isTransitioning (fst r) = false.
Proof.
  destruct (navigateToPosition_needs_gsap Sample.from_z_axis (fun v => v)
              Sample.controller (vec3 10 0 0) (Some (vec3 0 0 0)) eq_refl)
    as (A & B & _ & _ & T & _).
  split; [exact A|]. split; [exact B | exact T].
Defined.

(** X4.  [navigateToPosition] called without [lookAt] takes the position
    itself in its place: the direction is that of a vector of length zero,
    which [normalize] leaves at zero, and the camera is sent to the very
    point it is asked to look at. *)
Theorem navigateToPosition_without_lookAt (sfv : Vector3 -> Spherical)
  (normalize : Vector3 -> Vector3) (c : Controller) (pos : Vector3) :
  (forall v, v_eq v (vec3 0 0 0) -> v_eq (normalize v) (vec3 0 0 0)) ->
  gsap c = true -> isTransitioning c = false ->
  exists viewPosition,
    snd (navigateToPosition sfv normalize c pos None)
    = [GsapTo CameraPosition viewPosition (duration_of c);
       GsapTo LookAtTarget pos (duration_of c)]
    /\ v_eq viewPosition pos.
Proof.
  intros N G T. unfold navigateToPosition. rewrite T.
  cbn [gsap set_isTransitioning options]. rewrite G.
  eexists. split; [reflexivity|].
  assert (Z : v_eq (v_sub pos pos) (vec3 0 0 0)).
  { unfold v_eq, v_sub; cbn. repeat split; ring. }
  destruct (N _ Z) as (X & Y & W). cbn in X, Y, W.
  unfold v_eq, v_add, v_scale; cbn. rewrite X, Y, W.
  repeat split; ring.
Qed.

Lemma navigateToPosition_without_lookAt_witness :
  exists viewPosition,
    snd (navigateToPosition Sample.from_z_axis (fun v => v)
           (construct Sample.from_z_axis (vec3 0 0 50) default_options true)
           (vec3 10 5 0) None)
    = [GsapTo CameraPosition viewPosition 2;
       GsapTo LookAtTarget (vec3 10 5 0) 2]
    /\ v_eq viewPosition (vec3 10 5 0).
Proof.
  apply (navigateToPosition_without_lookAt Sample.from_z_axis (fun v => v)
           (construct Sample.from_z_axis (vec3 0 0 50) default_options true)
           (vec3 10 5 0)); [intros v H; exact H | reflexivity | reflexivity].
Defined.

Lemma remove_first_occurrences (cb x : nat) (l : list nat) :
  occurrences x (remove_first cb l)
  = (occurrences x l - (if (x =? cb)%nat then 1 else 0))%nat.
Proof.
  unfold occurrences. induction l as [|a l IH].
  - cbn. destruct (x =? cb)%nat; reflexivity.
  - cbn [remove_first]. destruct (a =? cb)%nat eqn:A.
    + apply Nat.eqb_eq in A. subst a. cbn [count_occ].
      destruct (Nat.eq_dec cb x) as [e | ne].
      * subst x. rewrite Nat.eqb_refl. lia.
      * destruct (x =? cb)%nat eqn:X;
          [apply Nat.eqb_eq in X; congruence | lia].
    + apply Nat.eqb_neq in A. cbn [count_occ].
      destruct (Nat.eq_dec a x) as [e | ne].
      * subst x. rewrite IH.
        destruct (a =? cb)%nat eqn:X;
          [apply Nat.eqb_eq in X; congruence | lia].
      * exact IH.
Qed.

Lemma remove_first_absent (cb : nat) (l : list nat) :
  ~ In cb l -> remove_first cb (l ++ [cb]) = l.
Proof.
  induction l as [|a l IH]; intro H.
  - cbn. rewrite Nat.eqb_refl. reflexivity.
  - cbn [app remove_first]. destruct (a =? cb)%nat eqn:A.
    + apply Nat.eqb_eq in A. subst a. exfalso. apply H. left. reflexivity.
    + f_equal. apply IH. intro K. apply H. right. exact K.
Qed.

(** X5.  [offNavigate] takes back one registration, the earliest, of the
    listener it is given and none of another: a listener registered twice is
    still called once.  It undoes [onNavigate] for a listener that was not
    registered before; and the listeners that remain are notified of an
    accepted navigation. *)
Theorem offNavigate_takes_back_one (sfv : Vector3 -> Spherical)
  (c : Controller) (cb : nat) :
  (forall x,
     occurrences x (onNavigateCallbacks (offNavigate c cb))
     = (occurrences x (onNavigateCallbacks c)
        - (if (x =? cb)%nat then 1 else 0))%nat)
  /\ (~ In cb (onNavigateCallbacks c) ->
      offNavigate (onNavigate c cb) cb = c)
  /\ (forall i node now0 now1,
        (0 <= i < node_count c)%Z -> isTransitioning c = false ->
        nth_error (nodePositions c) (Z.to_nat i) = Some node ->
        filter is_notify
          (snd (navigateToNode sfv (offNavigate c cb) i now0 now1))
        = map (fun l => Notify l i (name node))
            (remove_first cb (onNavigateCallbacks c))).
Proof.
  split; [|split].
  - intro x. apply remove_first_occurrences.
  - intro H. unfold offNavigate, onNavigate.
    cbn [onNavigateCallbacks set_onNavigateCallbacks].
    rewrite remove_first_absent by exact H. destruct c; reflexivity.
  - intros i node now0 now1 R T N.
    unfold navigateToNode.
    assert (R' : ((i <? 0)%Z || (i >=? node_count (offNavigate c cb))%Z)
                 = false).
    { unfold node_count in *. cbn. apply orb_false_intro; lia. }
    rewrite R'.
    change (isTransitioning (offNavigate c cb)) with (isTransitioning c).
    rewrite T.
    change (nodePositions (offNavigate c cb)) with (nodePositions c).
    rewrite N.
    set (told := notify _ i node).
    assert (Told : told = map (fun l => Notify l i (name node))
                            (remove_first cb (onNavigateCallbacks c)))
      by reflexivity.
    assert (F : forall l : list nat,
               filter is_notify (map (fun l => Notify l i (name node)) l)
               = map (fun l => Notify l i (name node)) l).
    { induction l as [|a l IH]; [reflexivity|]. cbn. rewrite IH. reflexivity. }
    destruct (gsap _).
    + cbn [snd]. rewrite filter_app, Told, F. cbn. apply app_nil_r.
    + destruct (fallbackTransition _ _ _ _ _) as [c2 moved] eqn:FT.
      cbn [snd]. rewrite filter_app, Told, F.
      assert (M : filter is_notify moved = []).
      { unfold fallbackTransition, animate in FT.
        destruct (Qltb _ 1); inversion FT; reflexivity. }
      rewrite M. apply app_nil_r.
Qed.

Lemma offNavigate_takes_back_one_witness :
  offNavigate (onNavigate Sample.controller 7) 7 = Sample.controller.
Proof.
  destruct (offNavigate_takes_back_one Sample.from_z_axis Sample.controller 7)
    as (_ & B & _).
  apply B. cbn. intros [H | []]. discriminate.
Defined.

End ControllerFacts.

(* ================================================================== *)
(** ** Listeners on the page: what [dispose] leaves behind *)

Module DomFacts.

Import Dom.

Lemma serial_below_succ (k : nat) (f : Fn) :
  serial_below k f = true -> serial_below (S k) f = true.
Proof.
  destruct f; cbn [serial_below]; try discriminate; intro H;
    apply Nat.ltb_lt in H; apply Nat.ltb_lt; lia.
Qed.

Lemma fresh_not_there (p : Page) (t e : string) (f : Fn) :
  well_formed p = true -> serial_below (made p) f = false ->
  existsb (listener_eqb (mkListener t e f)) (listeners p) = false.
Proof.
  unfold well_formed. intros W F.
  induction (listeners p) as [|x l IH]; [reflexivity|].
  cbn [forallb] in W. apply andb_prop in W. destruct W as [Wx Wl].
  cbn [existsb]. rewrite (IH Wl), orb_false_r.
  unfold listener_eqb. cbn [fn on_target on_event].
  destruct (fn_eqb f (fn x)) eqn:Q; [|apply andb_false_r].
  exfalso.
  destruct f, (fn x); cbn [fn_eqb serial_below] in Q, F, Wx;
    try discriminate.
  - apply andb_prop in Q. destruct Q as [_ Q]. apply Nat.eqb_eq in Q.
    subst. congruence.
  - apply Nat.eqb_eq in Q. subst. congruence.
Qed.

Lemma add_fresh (p : Page) (t e : string) (f : Fn) :
  well_formed p = true ->
  serial_below (made p) f = false -> serial_below (S (made p)) f = true ->
  let q := addEventListener (mkPage (listeners p) (S (made p))) t e f in
  well_formed q = true
  /\ listeners q = listeners p ++ [mkListener t e f]
  /\ made q = S (made p).
Proof.
  intros W F G. cbv zeta. unfold addEventListener. cbn [listeners made].
  rewrite (fresh_not_there p t e f W F).
  split; [|split; reflexivity].
  unfold well_formed in *. cbn [listeners made].
  rewrite forallb_app. cbn [forallb fn]. rewrite G, andb_true_r.
  rewrite forallb_forall in *. intros x Hx.
  apply serial_below_succ. apply W. exact Hx.
Qed.

Lemma add_bound_fresh (p : Page) (t e c n : string) :
  well_formed p = true ->
  well_formed (add_bound p t e c n) = true
  /\ listeners (add_bound p t e c n)
     = listeners p ++ [mkListener t e (Bound c n (made p))]
  /\ made (add_bound p t e c n) = S (made p).
Proof.
  intro W. apply (add_fresh p t e (Bound c n (made p)) W);
    cbn [serial_below].
  - apply Nat.ltb_irrefl.
  - apply Nat.ltb_lt. lia.
Qed.

Lemma add_arrow_fresh (p : Page) (t e : string) :
  well_formed p = true ->
  well_formed (add_arrow p t e) = true
  /\ listeners (add_arrow p t e)
     = listeners p ++ [mkListener t e (Arrow (made p))]
  /\ made (add_arrow p t e) = S (made p).
Proof.
  intro W. apply (add_fresh p t e (Arrow (made p)) W); cbn [serial_below].
  - apply Nat.ltb_irrefl.
  - apply Nat.ltb_lt. lia.
Qed.

Lemma remove_method_keeps (p : Page) (t e c n : string) :
  well_formed p = true ->
  remove_method p t e c n = p.
Proof.
  unfold well_formed, remove_method, removeEventListener. intro W.
  destruct p as [l k]. cbn [listeners made] in *. f_equal.
  induction l as [|x l IH]; [reflexivity|].
  cbn [forallb] in W. apply andb_prop in W. destruct W as [Wx Wl].
  cbn [filter]. rewrite (IH Wl).
  unfold listener_eqb at 1. cbn [fn].
  destruct (fn x); cbn [serial_below] in Wx; try discriminate;
    cbn [fn_eqb]; rewrite andb_false_r; reflexivity.
Qed.

Lemma add_bound_one (p : Page) (t e c n : string) :
  well_formed p = true ->
  well_formed (add_bound p t e c n) = true
  /\ List.length (listeners (add_bound p t e c n))
     = S (List.length (listeners p)).
Proof.
  intro W. destruct (add_bound_fresh p t e c n W) as (W' & L & _).
  split; [exact W'|]. rewrite L, length_app. cbn [List.length]. lia.
Qed.

Lemma add_arrow_one (p : Page) (t e : string) :
  well_formed p = true ->
  well_formed (add_arrow p t e) = true
  /\ List.length (listeners (add_arrow p t e))
     = S (List.length (listeners p)).
Proof.
  intro W. destruct (add_arrow_fresh p t e W) as (W' & L & _).
  split; [exact W'|]. rewrite L, length_app. cbn [List.length]. lia.
Qed.

Ltac one_more :=
  match goal with
  | W : well_formed ?q = true |- context [add_bound ?q ?t ?e ?c ?n] =>
      let W' := fresh "W" in
      let L := fresh "L" in
      destruct (add_bound_one q t e c n W) as (W' & L);
      clear W;
      let q' := fresh "q" in
      set (q' := add_bound q t e c n) in *; clearbody q'
  | W : well_formed ?q = true |- context [add_arrow ?q ?t ?e] =>
      let W' := fresh "W" in
      let L := fresh "L" in
      destruct (add_arrow_one q t e W) as (W' & L);
      clear W;
      let q' := fresh "q" in
      set (q' := add_arrow q t e) in *; clearbody q'
  end.

Lemma camera_setup_fresh (p : Page) :
  well_formed p = true ->
  well_formed (camera_setup p) = true
  /\ List.length (listeners (camera_setup p))
     = (List.length (listeners p) + 9)%nat.
Proof.
  intro W. unfold camera_setup. cbv zeta.
  repeat one_more. split; [assumption | lia].
Qed.

Lemma interaction_setup_fresh (p : Page) :
  well_formed p = true ->
  well_formed (interaction_setup p) = true
  /\ List.length (listeners (interaction_setup p))
     = (List.length (listeners p) + 3)%nat.
Proof.
  intro W. unfold interaction_setup. cbv zeta.
  repeat one_more. split; [assumption | lia].
Qed.

(** X6.  [dispose] of the two classes takes no listener off the page.
    [setupEventListeners] registers functions made by [bind] (and one arrow);
    [dispose] asks for the removal of the methods themselves, which were
    never registered.  On a page that holds no bare method, the nine
    listeners of the camera controller and the three of the interaction
    manager are all still there after [dispose]. *)
Theorem dispose_removes_no_listener (p : Page) :
  well_formed p = true ->
  camera_dispose (camera_setup p) = camera_setup p
  /\ List.length (listeners (camera_dispose (camera_setup p)))
     = (List.length (listeners p) + 9)%nat
  /\ interaction_dispose (interaction_setup p) = interaction_setup p
  /\ List.length (listeners (interaction_dispose (interaction_setup p)))
     = (List.length (listeners p) + 3)%nat.
Proof.
  intro W.
  destruct (camera_setup_fresh p W) as (Wc & Lc).
  destruct (interaction_setup_fresh p W) as (Wi & Li).
  assert (C : camera_dispose (camera_setup p) = camera_setup p).
  { unfold camera_dispose. cbv zeta.
    repeat rewrite (remove_method_keeps (camera_setup p)) by exact Wc.
    reflexivity. }
  assert (I : interaction_dispose (interaction_setup p) = interaction_setup p).
  { unfold interaction_dispose. cbv zeta.
    repeat rewrite (remove_method_keeps (interaction_setup p)) by exact Wi.
    reflexivity. }
  rewrite C, I. repeat split; assumption.
Qed.

Lemma dispose_removes_no_listener_witness :
  camera_dispose (camera_setup empty) = camera_setup empty
  /\ List.length (listeners (camera_dispose (camera_setup empty))) = 9%nat.
Proof.
  destruct (dispose_removes_no_listener empty eq_refl) as (A & B & _).
  split; [exact A | exact B].
Defined.

End DomFacts.

(* ================================================================== *)
(** ** The interaction manager: what it keeps, the pointer, the timer *)

Module InteractionFacts.

Import InteractionManager.

Lemma flagged_finds_itself (g : Object3D) :
  flagged g = true -> findNodeGroup g = Some g.
Proof.
  destruct g as [i u p]. unfold flagged. cbn [userData findNodeGroup].
  intro F. rewrite F. reflexivity.
Qed.

Lemma findNodeGroup_find :
  forall o, findNodeGroup o = find flagged (chain o).
Proof.
  fix IH 1. intros [i u p]. cbn [findNodeGroup chain find].
  change (flagged (Obj i u p))
    with (match u with Some d => isNode d | None => false end).
  destruct (match u with Some d => isNode d | None => false end);
    [reflexivity|].
  destruct p as [q|]; [apply IH | reflexivity].
Qed.

(** X7.  [findNodeGroup] returns the nearest of the object and its ancestors
    that is flagged as a node, [null] when there is none; what it returns is
    its own node group. *)
Theorem findNodeGroup_is_nearest_flagged (o : Object3D) :
  findNodeGroup o = find flagged (chain o)
  /\ (forall g, findNodeGroup o = Some g ->
                flagged g = true /\ In g (chain o)
                /\ findNodeGroup g = Some g).
Proof.
  split; [apply findNodeGroup_find|].
  intros g H. destruct (Hovering.findNodeGroup_flagged o g H) as [F I].
  split; [exact F|]. split; [exact I|]. apply flagged_finds_itself. exact F.
Qed.

Lemma findNodeGroup_node_or_null (o : Object3D) :
  node_or_null (findNodeGroup o).
Proof.
  destruct (findNodeGroup o) as [g|] eqn:H; [|exact I].
  apply (Hovering.findNodeGroup_flagged o g H).
Qed.

Lemma checkHover_hovered (m : Manager) (l : list Intersection) :
  (hoveredObject (fst (checkHover m l)) = hoveredObject m
   \/ hoveredObject (fst (checkHover m l)) = resolved l)
  /\ selectedObject (fst (checkHover m l)) = selectedObject m
  /\ isEnabled (fst (checkHover m l)) = isEnabled m
  /\ callbacks (fst (checkHover m l)) = callbacks m
  /\ normalizedMouse (fst (checkHover m l)) = normalizedMouse m
  /\ hoverDebounce (fst (checkHover m l)) = hoverDebounce m.
Proof.
  destruct l as [|first rest]; cbn [checkHover resolved].
  - destruct (hoveredObject m) eqn:H; cbn [is_some fst];
      [|rewrite H; repeat split; left; reflexivity].
    repeat split. right. reflexivity.
  - destruct (differs _ _); cbn [fst]; repeat split;
      [right | left]; reflexivity.
Qed.

Lemma select_hit_selected (m : Manager) (l : list Intersection) :
  node_or_null (selectedObject m) ->
  node_or_null (selectedObject (fst (select_hit m l)))
  /\ hoveredObject (fst (select_hit m l)) = hoveredObject m.
Proof.
  intro S. destruct l as [|first rest]; cbn [select_hit];
    [split; [exact S | reflexivity]|].
  destruct (findNodeGroup (object first)) as [g|] eqn:F; cbn [fst];
    [|split; [exact S | reflexivity]].
  split; [|reflexivity]. cbn.
  apply (Hovering.findNodeGroup_flagged _ _ F).
Qed.

Lemma handle_keeps_nodes (m : Manager) (i : Input) :
  node_or_null (hoveredObject m) -> node_or_null (selectedObject m) ->
  node_or_null (hoveredObject (fst (handle m i)))
  /\ node_or_null (selectedObject (fst (handle m i))).
Proof.
  intros H S. destruct i; cbn [handle].
  - unfold onPointerMove. destruct (isEnabled m); cbn; split; assumption.
  - destruct (checkHover_hovered m intersections) as ([E | E] & E' & _);
      rewrite E, E'; split; try assumption.
    destruct intersections as [|f r]; [exact I|].
    apply findNodeGroup_node_or_null.
  - unfold onClick. destruct (isEnabled m); cbn [negb fst];
      [|split; assumption].
    destruct (select_hit_selected (set_mouse p n m) intersections S)
      as [A B].
    rewrite B. split; [exact H | exact A].
  - unfold onTouchEnd. destruct (isEnabled m); cbn [negb fst];
      [|split; assumption].
    destruct (0 <? changed)%nat; [|split; assumption].
    destruct (select_hit_selected (set_mouse (mouse m) n m) intersections S)
      as [A B].
    rewrite B. split; [exact H | exact A].
  - unfold setEnabled. destruct b; cbn [negb fst]; [split; assumption|].
    cbn [hoveredObject set_isEnabled].
    destruct (hoveredObject m) eqn:Hm; cbn; rewrite ?Hm; split;
      try assumption; exact I.
  - cbn. split; [exact H | exact I].
  - destruct ch; cbn; split; assumption.
  - destruct ch; cbn; split; assumption.
Qed.

(** X8.  Whatever happens to the manager, the object it has as hovered and
    the one it has as selected are each [null] or an object flagged as a
    node: [getHovered] and [getSelected] never give a mesh or an object
    outside the nodes. *)
Theorem hovered_and_selected_are_nodes (m : Manager) (l : list Input) :
  node_or_null (hoveredObject m) -> node_or_null (selectedObject m) ->
  node_or_null (getHovered (fst (handle_all m l)))
  /\ node_or_null (getSelected (fst (handle_all m l))).
Proof.
  unfold getHovered, getSelected. revert m.
  induction l as [|i l IH]; intros m H S; [split; assumption|].
  cbn [handle_all].
  destruct (handle_keeps_nodes m i H S) as [H1 S1].
  destruct (handle m i) as [m1 a1]. cbn [fst] in H1, S1.
  specialize (IH m1 H1 S1).
  destruct (handle_all m1 l) as [m2 a2]. exact IH.
Qed.

Lemma hovered_and_selected_are_nodes_witness :
  let m :=
    fst (handle_all construct
           [PointerMoved (10, 10) (0, 0);
            HoverChecked [Sample.hit Sample.work_mesh];
            Clicked (10, 10) (0, 0) [Sample.hit Sample.stray];
            Clicked (10, 10) (0, 0) [Sample.hit Sample.work_mesh];
            HoverChecked [Sample.hit Sample.stray]]) in
  node_or_null (getHovered m) /\ node_or_null (getSelected m).
Proof.
  apply (hovered_and_selected_are_nodes construct); exact I.
Defined.

Lemma disabled_ignores (m : Manager) (l : list Input) :
  isEnabled m = false -> forallb is_pointer_input l = true ->
  handle_all m l = (m, []).
Proof.
  intros E. induction l as [|i l IH]; intro P; [reflexivity|].
  cbn [forallb] in P. apply andb_prop in P. destruct P as [Pi Pl].
  cbn [handle_all].
  assert (K : handle m i = (m, [])).
  { destruct i; try discriminate; cbn [handle];
      unfold onPointerMove, onClick, onTouchEnd; rewrite E; reflexivity. }
  rewrite K, (IH Pl). reflexivity.
Qed.

(** X9.  Disabling the manager ends the hover: the [unhover] listeners are
    called with the object that was hovered, if there was one, and no object
    is hovered afterwards.  From then on pointer moves, clicks and ends of
    touches do nothing: no listener is called, no timer is set, the manager
    stays as it is. *)
Theorem disabling_ends_hover_and_input (m : Manager) (l : list Input) :
  forallb is_pointer_input l = true ->
  let m1 := fst (setEnabled m false) in
  hoveredObject m1 = None
  /\ isEnabled m1 = false
  /\ selectedObject m1 = selectedObject m
  /\ snd (setEnabled m false)
     = match hoveredObject m with
       | Some prev => triggerCallbacks m Unhover (Some prev) None
       | None => []
       end ++ [SetCursor "default"]
  /\ handle_all m1 l = (m1, []).
Proof.
  intro P. cbv zeta.
  assert (E : isEnabled (fst (setEnabled m false)) = false).
  { unfold setEnabled. cbn [negb hoveredObject set_isEnabled].
    destruct (hoveredObject m); reflexivity. }
  split; [|split; [exact E|split; [|split]]].
  - unfold setEnabled. cbn [negb hoveredObject set_isEnabled].
    destruct (hoveredObject m) eqn:H; cbn; [reflexivity | exact H].
  - unfold setEnabled. cbn [negb hoveredObject set_isEnabled].
    destruct (hoveredObject m); reflexivity.
  - unfold setEnabled. cbn [negb hoveredObject set_isEnabled].
    destruct (hoveredObject m); reflexivity.
  - apply disabled_ignores; assumption.
Qed.

Lemma disabling_ends_hover_and_input_witness :
  let m1 := fst (setEnabled Sample.hovering false) in
  hoveredObject m1 = None
  /\ handle_all m1 [PointerMoved (3, 4) (0, 0);
                    Clicked (3, 4) (0, 0) [Sample.hit Sample.work_mesh]]
     = (m1, []).
Proof.
  destruct (disabling_ends_hover_and_input Sample.hovering
              [PointerMoved (3, 4) (0, 0);
               Clicked (3, 4) (0, 0) [Sample.hit Sample.work_mesh]] eq_refl)
    as (A & _ & _ & _ & B).
  split; [exact A | exact B].
Defined.

Lemma Qle_bool_refl (x : Q) : Qle_bool x x = true.
Proof. apply Qle_bool_iff. apply Qle_refl. Qed.

Lemma Qle_bool_lt (x y : Q) : x < y -> Qle_bool y x = false.
Proof.
  intro H. destruct (Qle_bool y x) eqn:E; [|reflexivity].
  apply Qle_bool_iff in E. exfalso. apply (Qlt_not_le _ _ H E).
Qed.

Lemma timed_elapse_early (raycast : Q * Q -> list Intersection) (t : Timed)
  (now d : Q) :
  due t = Some d -> now < d -> timed_elapse raycast t now = (t, []).
Proof.
  intros D L. unfold timed_elapse. rewrite D, (Qle_bool_lt _ _ L).
  reflexivity.
Qed.

(** X10.  Disabling the manager leaves its hover timer running: a pointer
    move made before [setEnabled(false)] is still resolved when its timer is
    due, and a node under the pointer then becomes hovered, its [hover]
    listeners called, on a manager that is disabled. *)
Theorem pending_hover_survives_disabling
  (raycast : Q * Q -> list Intersection) (t : Timed) (now d : Q)
  (first : Intersection) (rest : list Intersection) (g : Object3D) :
  due t = Some d -> now < d ->
  hoveredObject (manager t) = None ->
  raycast (normalizedMouse (manager t)) = first :: rest ->
  findNodeGroup (object first) = Some g ->
  let t1 := fst (timed_setEnabled raycast t now false) in
  let t2 := fst (timed_elapse raycast t1 d) in
  isEnabled (manager t1) = false
  /\ due t1 = Some d
  /\ isEnabled (manager t2) = false
  /\ hoveredObject (manager t2) = Some g
  /\ snd (timed_elapse raycast t1 d)
     = SetCursor "pointer"
       :: map (fun cb => Call Hover cb (Some g) (Some first))
            (hover (callbacks (manager t))).
Proof.
  intros D L H R F. cbv zeta.
  assert (T1 : timed_setEnabled raycast t now false
               = (mkTimed (set_isEnabled false (manager t)) (Some d),
                  [SetCursor "default"])).
  { unfold timed_setEnabled. rewrite (timed_elapse_early raycast t now d D L).
    unfold setEnabled. cbn [negb hoveredObject set_isEnabled]. rewrite H, D.
    reflexivity. }
  rewrite T1. cbn [fst manager due isEnabled set_isEnabled].
  split; [reflexivity|]. split; [reflexivity|].
  unfold timed_elapse. cbn [due manager]. rewrite Qle_bool_refl.
  cbn [normalizedMouse set_isEnabled]. rewrite R.
  cbn [checkHover hoveredObject set_isEnabled]. rewrite F, H.
  cbn [differs is_some fst snd manager isEnabled set_hoveredObject
       hoveredObject app triggerCallbacks listeners callbacks
       set_isEnabled].
  repeat split.
Qed.

Lemma pending_hover_survives_disabling_witness :
  let raycast := fun _ : Q * Q => [Sample.hit Sample.work_mesh] in
  let t := fst (timed_pointerMove raycast (mkTimed Sample.manager None) 0
                  (3, 4) (0, 0)) in
  let t1 := fst (timed_setEnabled raycast t 5 false) in
  let t2 := fst (timed_elapse raycast t1 16) in
  isEnabled (manager t2) = false
  /\ hoveredObject (manager t2) = Some Sample.work_group.
Proof.
  destruct (pending_hover_survives_disabling
              (fun _ : Q * Q => [Sample.hit Sample.work_mesh])
              (fst (timed_pointerMove
                      (fun _ : Q * Q => [Sample.hit Sample.work_mesh])
                      (mkTimed Sample.manager None) 0 (3, 4) (0, 0)))
              5 16 (Sample.hit Sample.work_mesh) [] Sample.work_group)
    as (_ & _ & A & B & _); try reflexivity.
  split; [exact A | exact B].
Defined.

Lemma timed_move_pending (raycast : Q * Q -> list Intersection) (t : Timed)
  (now : Q) (p n : Q * Q) :
  isEnabled (manager t) = true ->
  match due t with Some d => now < d | None => True end ->
  let r := timed_pointerMove raycast t now p n in
  forallb is_timer_effect (snd r) = true
  /\ due (fst r) = Some (now + hoverDebounce (manager t))
  /\ isEnabled (manager (fst r)) = true
  /\ hoverDebounce (manager (fst r)) = hoverDebounce (manager t)
  /\ normalizedMouse (manager (fst r)) = n
  /\ mouse (manager (fst r)) = p
  /\ hoveredObject (manager (fst r)) = hoveredObject (manager t)
  /\ selectedObject (manager (fst r)) = selectedObject (manager t)
  /\ callbacks (manager (fst r)) = callbacks (manager t).
Proof.
  intros E P. cbv zeta.
  assert (K : timed_elapse raycast t now = (t, [])).
  { destruct (due t) as [d|] eqn:D.
    - apply (timed_elapse_early raycast t now d D P).
    - unfold timed_elapse. rewrite D. reflexivity. }
  unfold timed_pointerMove. rewrite K. unfold onPointerMove. rewrite E.
  cbn [negb fst snd manager due app].
  cbn [hoverDebounce hoverDebounceTimer set_mouse set_timer isEnabled
       normalizedMouse mouse hoveredObject selectedObject callbacks].
  rewrite E.
  split; [destruct (hoverDebounceTimer (manager t)); reflexivity|].
  repeat split.
Qed.

Lemma timed_moves_pending (raycast : Q * Q -> list Intersection)
  (moves : list (Q * ((Q * Q) * (Q * Q)))) :
  forall (t : Timed) (first : Q * ((Q * Q) * (Q * Q))),
  isEnabled (manager t) = true ->
  match due t with Some d => fst first < d | None => True end ->
  close_moves (hoverDebounce (manager t)) (fst first) moves ->
  let r := timed_moves raycast t (first :: moves) in
  let lst := last_move first moves in
  forallb is_timer_effect (snd r) = true
  /\ due (fst r) = Some (fst lst + hoverDebounce (manager t))
  /\ isEnabled (manager (fst r)) = true
  /\ hoverDebounce (manager (fst r)) = hoverDebounce (manager t)
  /\ normalizedMouse (manager (fst r)) = snd (snd lst)
  /\ hoveredObject (manager (fst r)) = hoveredObject (manager t)
  /\ selectedObject (manager (fst r)) = selectedObject (manager t)
  /\ callbacks (manager (fst r)) = callbacks (manager t).
Proof.
  induction moves as [|mv moves IH]; intros t [now [p n]] E P C; cbv zeta.
  - cbn [timed_moves last_move].
    destruct (timed_move_pending raycast t now p n E P)
      as (A & B & E' & W & N & _ & H & S & K).
    destruct (timed_pointerMove raycast t now p n) as [t1 e1].
    cbn [fst snd] in *. rewrite app_nil_r. repeat split; assumption.
  - cbn [fst] in P, C. destruct mv as [now' [p' n']].
    cbn [close_moves] in C. destruct C as (C1 & C2 & C3).
    destruct (timed_move_pending raycast t now p n E P)
      as (A & B & E' & W & N & _ & H & S & K).
    change (timed_moves raycast t ((now, (p, n)) :: (now', (p', n')) :: moves))
      with (let '(t1, e1) := timed_pointerMove raycast t now p n in
            let '(t2, e2) :=
              timed_moves raycast t1 ((now', (p', n')) :: moves) in
            (t2, e1 ++ e2)).
    destruct (timed_pointerMove raycast t now p n) as [t1 e1].
    cbn [fst snd] in A, B, E', W, N, H, S, K.
    assert (P' : match due t1 with
                 | Some d => fst (now', (p', n')) < d
                 | None => True
                 end).
    { rewrite B. cbn [fst]. lra. }
    rewrite <- W in C3.
    destruct (IH t1 (now', (p', n')) E' P' C3)
      as (A2 & B2 & E2 & W2 & N2 & H2 & S2 & K2).
    destruct (timed_moves raycast t1 ((now', (p', n')) :: moves))
      as [t2 e2].
    cbn [fst snd last_move] in *.
    rewrite forallb_app, A, A2, B2, W2, N2, H2, S2, K2, W, H, S, K.
    repeat split; assumption.
Qed.

(** X11.  The hover is resolved once for a run of pointer moves that follow
    one another by less than [hoverDebounce]: during the run each move only
    cancels and sets the timer, no ray is cast, no listener called, the
    hovered object stays as it was; the timer left is due [hoverDebounce]
    after the last move, and when it fires [checkHover] resolves the last
    place of the pointer. *)
Theorem hover_debounce_resolves_last (raycast : Q * Q -> list Intersection)
  (t : Timed) (first : Q * ((Q * Q) * (Q * Q)))
  (moves : list (Q * ((Q * Q) * (Q * Q)))) :
  isEnabled (manager t) = true -> due t = None ->
  close_moves (hoverDebounce (manager t)) (fst first) moves ->
  let r := timed_moves raycast t (first :: moves) in
  let lst := last_move first moves in
  let at_last := fst lst + hoverDebounce (manager t) in
  forallb is_timer_effect (snd r) = true
  /\ hoveredObject (manager (fst r)) = hoveredObject (manager t)
  /\ due (fst r) = Some at_last
  /\ (forall now, now < at_last ->
        timed_elapse raycast (fst r) now = (fst r, []))
  /\ timed_elapse raycast (fst r) at_last
     = (mkTimed
          (fst (checkHover (manager (fst r)) (raycast (snd (snd lst))))) None,
        snd (checkHover (manager (fst r)) (raycast (snd (snd lst))))).
Proof.
  intros E D C. cbv zeta.
  assert (P : match due t with Some d => fst first < d | None => True end)
    by (rewrite D; exact I).
  destruct (timed_moves_pending raycast moves t first E P C)
    as (A & B & _ & _ & N & H & _ & _).
  set (r := timed_moves raycast t (first :: moves)) in *.
  split; [exact A|]. split; [exact H|]. split; [exact B|]. split.
  - intros now L. apply (timed_elapse_early raycast (fst r) now _ B L).
  - unfold timed_elapse. rewrite B, Qle_bool_refl, N.
    destruct (checkHover _ _). reflexivity.
Qed.

Lemma hover_debounce_resolves_last_witness :
  let raycast := fun n : Q * Q =>
    if Qle_bool (fst n) 0 then [] else [Sample.hit Sample.work_mesh] in
  let r :=
    timed_moves raycast (mkTimed Sample.manager None)
      [(0, ((1, 1), (-1 # 2, 0))); (10, ((2, 1), (0, 0)));
       (20, ((3, 1), (1 # 2, 0)))] in
  forallb is_timer_effect (snd r) = true
  /\ due (fst r) = Some (20 + 16)
  /\ hoveredObject (manager (fst (timed_elapse raycast (fst r) (20 + 16))))
     = Some Sample.work_group.
Proof.
  destruct (hover_debounce_resolves_last
              (fun n : Q * Q =>
                 if Qle_bool (fst n) 0 then []
                 else [Sample.hit Sample.work_mesh])
              (mkTimed Sample.manager None)
              (0, ((1, 1), (-1 # 2, 0)))
              [(10, ((2, 1), (0, 0))); (20, ((3, 1), (1 # 2, 0)))])
    as (A & _ & B & _ & C);
    [reflexivity | reflexivity | vm_compute; repeat split; discriminate |].
  split; [exact A|]. split; [exact B|].
  cbv zeta in C. cbn [last_move fst snd] in C.
  change (hoverDebounce (manager (mkTimed Sample.manager None))) with 16 in C.
  rewrite C. reflexivity.
Defined.

(** X12.  [updateMouse] takes a point of the element to the square
    [[-1, 1] x [-1, 1]], the vertical axis upwards: the corner at the top
    left goes to [(-1, 1)] and the one at the bottom right to [(1, -1)];
    and [onTouchEnd] normalises a touch the same way. *)
Theorem pointer_normalised_to_unit_square (r : Rect) (x y : Q) :
  0 < width r -> 0 < height r ->
  left r <= x <= left r + width r -> top r <= y <= top r + height r ->
  let n := normalized_of r x y in
  (-1 <= fst n <= 1 /\ -1 <= snd n <= 1)
  /\ (fst (normalized_of r (left r) (top r)) == -1
      /\ snd (normalized_of r (left r) (top r)) == 1)
  /\ (fst (normalized_of r (left r + width r) (top r + height r)) == 1
      /\ snd (normalized_of r (left r + width r) (top r + height r)) == -1)
  /\ (fst (touch_normalized r x y) == fst n
      /\ snd (touch_normalized r x y) == snd n).
Proof.
  intros W H [X0 X1] [Y0 Y1]. cbv zeta.
  unfold normalized_of, touch_normalized, mouse_of. cbn [fst snd].
  assert (Wn : ~ width r == 0) by lra.
  assert (Hn : ~ height r == 0) by lra.
  assert (U : 0 <= (x - left r) / width r <= 1).
  { split.
    - apply Qle_shift_div_l; [exact W | lra].
    - apply Qle_shift_div_r; [exact W | lra]. }
  assert (V : 0 <= (y - top r) / height r <= 1).
  { split.
    - apply Qle_shift_div_l; [exact H | lra].
    - apply Qle_shift_div_r; [exact H | lra]. }
  set (u := (x - left r) / width r) in *.
  set (v := (y - top r) / height r) in *.
  split; [split; lra|]. split; [split; field; assumption|].
  split; [split; field; assumption|].
  split; reflexivity.
Qed.

Lemma pointer_normalised_to_unit_square_witness :
  let n := normalized_of (mkRect 10 20 800 600) 410 170 in
  -1 <= fst n <= 1 /\ -1 <= snd n <= 1.
Proof.
  destruct (pointer_normalised_to_unit_square (mkRect 10 20 800 600) 410 170)
    as (A & _); try (vm_compute; split; discriminate);
    try reflexivity.
  exact A.
Defined.

(** X13.  On an enabled manager a click (or the end of a touch) on an object
    of a node selects the node group nearest to the object and calls, in
    this order, the [click] listeners and then the [select] listeners, each
    with the group and the first intersection; a click that meets nothing,
    or an object outside the nodes, calls no listener and keeps the
    selection. *)
Theorem click_selects_nearest_node (m : Manager) (p n : Q * Q)
  (l : list Intersection) :
  isEnabled m = true ->
  (forall first rest g,
     l = first :: rest -> findNodeGroup (object first) = Some g ->
     selectedObject (fst (onClick m p n l)) = Some g
     /\ find flagged (chain (object first)) = Some g
     /\ snd (onClick m p n l)
        = map (fun cb => Call Click cb (Some g) (Some first))
            (click (callbacks m))
          ++ map (fun cb => Call Select cb (Some g) (Some first))
               (select (callbacks m))
     /\ forall k, onTouchEnd m (S k) n l
                  = onClick m (mouse m) n l)
  /\ (resolved l = None ->
      selectedObject (fst (onClick m p n l)) = selectedObject m
      /\ snd (onClick m p n l) = []).
Proof.
  intro E. unfold onClick, onTouchEnd. rewrite E. cbn [negb]. split.
  - intros first rest g -> F. cbn [select_hit]. rewrite F.
    cbn [fst snd selectedObject set_selectedObject].
    split; [reflexivity|]. split; [rewrite <- findNodeGroup_find; exact F|].
    split; reflexivity.
  - intro R. destruct l as [|first rest]; cbn [select_hit];
      [split; reflexivity|].
    cbn [resolved] in R. rewrite R. split; reflexivity.
Qed.

Lemma click_selects_nearest_node_witness :
  selectedObject
    (fst (onClick Sample.manager (3, 4) (0, 0) [Sample.hit Sample.work_mesh]))
  = Some Sample.work_group.
Proof.
  destruct (click_selects_nearest_node Sample.manager (3, 4) (0, 0)
              [Sample.hit Sample.work_mesh] eq_refl) as (A & _).
  destruct (A (Sample.hit Sample.work_mesh) [] Sample.work_group
              eq_refl eq_refl) as (B & _).
  exact B.
Defined.

Lemma includes_same_id (objs : list Object3D) (a b : Object3D) :
  obj_id a = obj_id b -> includes objs a = includes objs b.
Proof. intro H. unfold includes. rewrite H. reflexivity. Qed.

Lemma includes_cons (a : Object3D) (s : list Object3D) (o : Object3D) :
  includes (a :: s) o = (obj_id a =? obj_id o)%nat || includes s o.
Proof. reflexivity. Qed.

Lemma includes_self (objs : list Object3D) (a : Object3D) :
  In a objs -> includes objs a = true.
Proof.
  intro H. unfold includes. apply existsb_exists. exists a.
  split; [exact H | apply Nat.eqb_refl].
Qed.

(** X14.  [removeSelectables] takes out every copy of every object it is
    given, those that were selectable before an [addSelectables] as well: an
    object is selectable afterwards exactly when it was and is not among the
    objects removed, so that adding objects and removing them again is the
    same as removing them. *)
Theorem removeSelectables_removes_every_copy
  (selectables objects : list Object3D) :
  (forall o,
     includes (removeSelectables selectables objects) o
     = includes selectables o && negb (includes objects o))
  /\ removeSelectables (addSelectables selectables objects) objects
     = removeSelectables selectables objects.
Proof.
  unfold removeSelectables, addSelectables. split.
  - intro o. induction selectables as [|a s IH]; [reflexivity|].
    cbn [filter]. rewrite (includes_cons a s o).
    destruct (includes objects a) eqn:Ia; cbn [negb].
    + rewrite IH. destruct (obj_id a =? obj_id o)%nat eqn:A; [|reflexivity].
      apply Nat.eqb_eq in A.
      rewrite <- (includes_same_id objects a o A), Ia.
      cbn. apply andb_false_r.
    + rewrite (includes_cons a _ o), IH.
      destruct (obj_id a =? obj_id o)%nat eqn:A; [|reflexivity].
      apply Nat.eqb_eq in A.
      rewrite <- (includes_same_id objects a o A), Ia. reflexivity.
  - rewrite filter_app.
    assert (K : filter (fun obj => negb (includes objects obj)) objects = []).
    { assert (G : forall l, incl l objects ->
                    filter (fun obj => negb (includes objects obj)) l = []).
      { induction l as [|a l IH]; intro I; [reflexivity|].
        cbn [filter]. rewrite (includes_self objects a).
        - cbn [negb]. apply IH. intros x Hx. apply I. right. exact Hx.
        - apply I. left. reflexivity. }
      apply G. apply incl_refl. }
    rewrite K. apply app_nil_r.
Qed.

Lemma remove_first_fresh (cb : nat) (l : list nat) :
  ~ In cb l -> remove_first cb (l ++ [cb]) = l.
Proof.
  induction l as [|a l IH]; intro H.
  - cbn. rewrite Nat.eqb_refl. reflexivity.
  - cbn [app remove_first]. destruct (a =? cb)%nat eqn:A.
    + apply Nat.eqb_eq in A. subst a. exfalso. apply H. left. reflexivity.
    + f_equal. apply IH. intro K. apply H. right. exact K.
Qed.

Lemma remove_first_count (cb : nat) (l : list nat) :
  count_occ Nat.eq_dec (remove_first cb l) cb
  = pred (count_occ Nat.eq_dec l cb).
Proof.
  induction l as [|a l IH]; [reflexivity|].
  cbn [remove_first]. destruct (a =? cb)%nat eqn:A.
  - apply Nat.eqb_eq in A. subst a. rewrite count_occ_cons_eq by reflexivity.
    reflexivity.
  - apply Nat.eqb_neq in A.
    rewrite !count_occ_cons_neq by exact A. exact IH.
Qed.

(** X15.  [off] takes back one registration of the listener on the channel
    it names, and touches no other channel: it undoes [on] for a listener
    that was not registered on the channel, and of a listener registered
    several times it leaves all but one registration. *)
Theorem off_takes_back_one (m : Manager) (ch : Channel) (cb : nat) :
  (~ In cb (listeners m ch) -> off (on m ch cb) ch cb = m)
  /\ count_occ Nat.eq_dec (listeners (off m ch cb) ch) cb
     = pred (count_occ Nat.eq_dec (listeners m ch) cb)
  /\ (forall ch', ch' <> ch ->
        listeners (off m ch cb) ch' = listeners m ch')
  /\ hoveredObject (off m ch cb) = hoveredObject m
  /\ selectedObject (off m ch cb) = selectedObject m.
Proof.
  split; [|split; [|split; [|split]]].
  - intro H. destruct m as [w mo nm ho so en [h u c s] tm].
    destruct ch; cbn in H; unfold off, on; cbn;
      rewrite (remove_first_fresh cb _ H); reflexivity.
  - destruct ch; unfold off; cbn; apply remove_first_count.
  - intros ch' N. destruct ch, ch'; try reflexivity; contradiction.
  - destruct ch; reflexivity.
  - destruct ch; reflexivity.
Qed.

Lemma off_takes_back_one_witness :
  off (on Sample.manager Click 4) Click 4 = Sample.manager.
Proof.
  destruct (off_takes_back_one Sample.manager Click 4) as (A & _).
  apply A. intros [].
Defined.

End InteractionFacts.

(* ================================================================== *)
(** ** main.js: from a click to the camera *)

Module AppFacts.

Import CameraController.

Lemma deliver_clicks (sfv : Vector3 -> Spherical) (a : App.App)
  (now0 now1 : Q) (e : option InteractionManager.Object3D)
  (h : option InteractionManager.Intersection)
  (l : list InteractionManager.Action) (cbs : list nat) :
  App.deliver sfv a
    (map (fun cb => InteractionManager.Call InteractionManager.Click cb e h)
       cbs ++ l) now0 now1
  = (fst (App.deliver sfv a l now0 now1),
     map App.Interaction
       (map (fun cb => InteractionManager.Call InteractionManager.Click cb e h)
          cbs)
       ++ snd (App.deliver sfv a l now0 now1)).
Proof.
  induction cbs as [|cb cbs IH].
  - cbn [map app]. destruct (App.deliver sfv a l now0 now1); reflexivity.
  - cbn [map app App.deliver]. rewrite IH. reflexivity.
Qed.

(** X16.  A click on an object of a node, on an application that is
    initialised and whose interaction manager is enabled, selects the node
    group, calls the [click] and [select] listeners, and passes
    [userData.index] of the group to [navigateToNode] of the camera
    controller, whether the controller is enabled or not; the node is then
    marked as selected and its panel asked to open half a second later.  The
    mark and the panel come also when the camera controller rejects the
    index or is in a transition, and so does not move. *)
Theorem click_on_node_navigates (sfv : Vector3 -> Spherical) (a : App.App)
  (p n : Q * Q) (first : InteractionManager.Intersection)
  (rest : list InteractionManager.Intersection)
  (g : InteractionManager.Object3D) (d : InteractionManager.UserData)
  (now0 now1 : Q) :
  App.isInitialized a = true ->
  InteractionManager.isEnabled (App.interactionManager a) = true ->
  InteractionManager.select
    (InteractionManager.callbacks (App.interactionManager a))
  = [App.select_listener] ->
  InteractionManager.findNodeGroup (InteractionManager.object first)
  = Some g ->
  InteractionManager.userData g = Some d ->
  let i := InteractionManager.index d in
  let c := App.cameraController a in
  let r := App.onClick sfv a p n (first :: rest) now0 now1 in
  App.cameraController (fst r) = fst (navigateToNode sfv c i now0 now1)
  /\ InteractionManager.selectedObject (App.interactionManager (fst r))
     = Some g
  /\ snd r
     = map App.Interaction
         (InteractionManager.triggerCallbacks (App.interactionManager a)
            InteractionManager.Click (Some g) (Some first)
          ++ InteractionManager.triggerCallbacks (App.interactionManager a)
               InteractionManager.Select (Some g) (Some first))
       ++ map App.Camera (snd (navigateToNode sfv c i now0 now1))
       ++ [App.SetSelected i; App.OpenPanelLater i 500]
  /\ ((0 <= i < node_count c)%Z -> isTransitioning c = false ->
      currentNodeIndex (App.cameraController (fst r)) = i)
  /\ ((i < 0)%Z \/ (node_count c <= i)%Z \/ isTransitioning c = true ->
      App.cameraController (fst r) = c
      /\ filter (fun x => negb (App.is_select x)
                          && match x with
                             | App.Interaction _ => false
                             | _ => true
                             end) (snd r)
         = [App.SetSelected i; App.OpenPanelLater i 500]).
Proof.
  intros I E S F U. cbv zeta.
  unfold App.onClick, InteractionManager.onClick. rewrite E. cbn [negb].
  cbn [InteractionManager.select_hit]. rewrite F.
  unfold InteractionManager.triggerCallbacks.
  cbn [InteractionManager.listeners InteractionManager.callbacks
       InteractionManager.set_selectedObject InteractionManager.set_mouse].
  rewrite S. rewrite deliver_clicks.
  cbn [map App.deliver]. rewrite Nat.eqb_refl.
  unfold App.onSelect. rewrite U. unfold App.navigateToNode.
  cbn [App.isInitialized App.set_interactionManager App.cameraController].
  rewrite I. cbn [negb].
  destruct (navigateToNode sfv (App.cameraController a)
              (InteractionManager.index d) now0 now1) as [c1 done] eqn:N.
  cbn [fst snd App.cameraController App.set_cameraController
       App.interactionManager InteractionManager.selectedObject].
  split; [reflexivity|]. split; [reflexivity|]. split.
  { rewrite map_app. cbn [map]. rewrite app_nil_r.
    rewrite <- !app_assoc. reflexivity. }
  split.
  - intros R T.
    pose proof (Navigation.navigate_accepted_place sfv
                  (App.cameraController a) (InteractionManager.index d)
                  now0 now1 R T) as K.
    cbv zeta in K. rewrite N in K. apply K.
  - intro R.
    rewrite (Navigation.navigate_rejected sfv _ _ now0 now1 R) in N.
    inversion N. subst c1 done. split; [reflexivity|].
    rewrite filter_app.
    assert (Z : forall l : list InteractionManager.Action,
               filter (fun x => negb (App.is_select x)
                                && match x with
                                   | App.Interaction _ => false
                                   | _ => true
                                   end) (map App.Interaction l) = []).
    { induction l as [|x l IH]; [reflexivity|].
      cbn [map filter]. rewrite andb_false_r. exact IH. }
    rewrite Z. reflexivity.
Qed.

Lemma click_on_node_navigates_witness :
  let r := App.onClick Sample.from_z_axis Sample.app (3, 4) (0, 0)
             [Sample.hit Sample.work_mesh] 0 0 in
  currentNodeIndex (App.cameraController (fst r)) = 2%Z
  /\ InteractionManager.selectedObject (App.interactionManager (fst r))
     = Some Sample.work_group.
Proof.
  destruct (click_on_node_navigates Sample.from_z_axis Sample.app (3, 4)
              (0, 0) (Sample.hit Sample.work_mesh) [] Sample.work_group
              (InteractionManager.mkUserData true 2 "Work") 0 0)
    as (_ & B & _ & C & _); try reflexivity.
  split; [|exact B].
  apply C; [vm_compute; split; [discriminate | reflexivity] | reflexivity].
Defined.

End AppFacts.

(* ================================================================== *)
(** ** Keyboard navigation of the accessibility manager *)

Module AccessibilityFacts.

Import AccessibilityManager.

Local Open Scope Z_scope.

Lemma key_keeps_focus_on_a_node (m : Manager) (e : KeyEvent) :
  0 < nodeCount m -> on_a_node m (currentFocusIndex m) ->
  nodeCount (fst (onKeyDown m e)) = nodeCount m
  /\ on_a_node m (currentFocusIndex (fst (onKeyDown m e)))
  /\ Forall (names_a_node m) (snd (onKeyDown m e)).
Proof.
  intros N R. unfold on_a_node in *. unfold onKeyDown.
  assert (Nx : 0 <= Z.rem (currentFocusIndex m + 1) (nodeCount m)
               < nodeCount m).
  { rewrite Z.rem_mod_nonneg by lia. apply Z.mod_pos_bound. lia. }
  assert (Pv : 0 <= Z.rem (currentFocusIndex m - 1 + nodeCount m) (nodeCount m)
               < nodeCount m).
  { rewrite Z.rem_mod_nonneg by lia. apply Z.mod_pos_bound. lia. }
  assert (F : forall i, 0 <= i < nodeCount m ->
              Forall (names_a_node m)
                (PreventDefault :: snd (focusNode m i))).
  { intros i Hi. constructor; [exact I|]. unfold focusNode. cbn [snd].
    destruct (onNodeFocus m); [|constructor].
    constructor; [exact Hi | constructor]. }
  destruct (typing e);
    [split; [reflexivity | split; [exact R | constructor]]|].
  destruct (key e =? "Tab")%string.
  { destruct (in_panel_or_list e); cbn [negb];
      [split; [reflexivity | split; [exact R | constructor]]|].
    destruct (shiftKey e); unfold focusPrevNode, focusNextNode;
      cbn [focusNode fst snd nodeCount currentFocusIndex];
      (split; [reflexivity|]); (split; [assumption|]);
      [apply (F _ Pv) | apply (F _ Nx)]. }
  destruct ((key e =? "Enter") || (key e =? " "))%string.
  { destruct (isKeyboardNavActive m); cbn [fst snd];
      (split; [reflexivity|]); (split; [exact R|]); [|constructor].
    constructor; [exact I|]. unfold activateCurrentNode.
    destruct (onNodeActivate m); [|constructor].
    constructor; [exact R | constructor]. }
  destruct (key e =? "Escape")%string.
  { cbn [clearFocus fst snd nodeCount currentFocusIndex].
    split; [reflexivity | split; [exact R | constructor]]. }
  destruct (key e =? "Home")%string.
  { cbn [focusNode fst snd nodeCount currentFocusIndex].
    split; [reflexivity|]. split; [lia|]. apply F. lia. }
  destruct (key e =? "End")%string.
  { cbn [focusNode fst snd nodeCount currentFocusIndex].
    split; [reflexivity|]. split; [lia|]. apply F. lia. }
  destruct (key e =? "?")%string; cbn [fst snd];
    (split; [reflexivity|]); (split; [exact R|]);
    [constructor; [exact I | constructor] | constructor].
Qed.

Lemma names_a_node_same (m m' : Manager) (a : Action) :
  nodeCount m' = nodeCount m -> names_a_node m' a -> names_a_node m a.
Proof.
  intro H. destruct a; cbn; unfold on_a_node; rewrite ?H; trivial.
Qed.

(** X17.  The keyboard focus stays on a node: with at least one node and the
    focus index on a node, whatever keys are pressed the index stays one of
    a node, and every index passed to [onNodeFocus] or [onNodeActivate] is
    one of a node. *)
Theorem keyboard_focus_stays_on_a_node (m : Manager) (l : list KeyEvent) :
  0 < nodeCount m -> on_a_node m (currentFocusIndex m) ->
  on_a_node m (currentFocusIndex (fst (onKeys m l)))
  /\ Forall (names_a_node m) (snd (onKeys m l)).
Proof.
  revert m. induction l as [|e l IH]; intros m N R.
  - split; [exact R | constructor].
  - cbn [onKeys].
    destruct (key_keeps_focus_on_a_node m e N R) as (C & R1 & A1).
    destruct (onKeyDown m e) as [m1 a1]. cbn [fst snd] in C, R1, A1.
    assert (N1 : 0 < nodeCount m1) by lia.
    assert (R1' : on_a_node m1 (currentFocusIndex m1)).
    { unfold on_a_node in *. rewrite C. exact R1. }
    destruct (IH m1 N1 R1') as (R2 & A2).
    destruct (onKeys m1 l) as [m2 a2]. cbn [fst snd] in *.
    split.
    + unfold on_a_node in *. rewrite <- C. exact R2.
    + apply Forall_app. split; [exact A1|].
      apply (Forall_impl _ (fun a => names_a_node_same m m1 a C) A2).
Qed.

Lemma keyboard_focus_stays_on_a_node_witness :
  let r := onKeys (construct 5 true true false)
             [shift_tab; mkKey "End" false false false; tab; tab;
              mkKey "Enter" false false false] in
  on_a_node (construct 5 true true false) (currentFocusIndex (fst r))
  /\ Forall (names_a_node (construct 5 true true false)) (snd r).
Proof.
  apply (keyboard_focus_stays_on_a_node (construct 5 true true false));
    [reflexivity | split; [discriminate | reflexivity]].
Defined.

Lemma tab_index (m : Manager) :
  0 < nodeCount m -> on_a_node m (currentFocusIndex m) ->
  currentFocusIndex (fst (onKeyDown m tab))
  = (currentFocusIndex m + 1) mod nodeCount m
  /\ nodeCount (fst (onKeyDown m tab)) = nodeCount m.
Proof.
  intros N R. unfold on_a_node in R. split; [|reflexivity].
  change (currentFocusIndex (fst (onKeyDown m tab)))
    with (Z.rem (currentFocusIndex m + 1) (nodeCount m)).
  apply Z.rem_mod_nonneg; lia.
Qed.

Lemma shift_tab_index (m : Manager) :
  0 < nodeCount m -> on_a_node m (currentFocusIndex m) ->
  currentFocusIndex (fst (onKeyDown m shift_tab))
  = (currentFocusIndex m - 1) mod nodeCount m
  /\ nodeCount (fst (onKeyDown m shift_tab)) = nodeCount m.
Proof.
  intros N R. unfold on_a_node in R. split; [|reflexivity].
  change (currentFocusIndex (fst (onKeyDown m shift_tab)))
    with (Z.rem (currentFocusIndex m - 1 + nodeCount m) (nodeCount m)).
  rewrite Z.rem_mod_nonneg by lia.
  replace (currentFocusIndex m - 1 + nodeCount m)
    with (currentFocusIndex m - 1 + 1 * nodeCount m) by lia.
  apply Z.mod_add. lia.
Qed.

Lemma onKeys_two (m : Manager) (a b : KeyEvent) :
  fst (onKeys m [a; b]) = fst (onKeyDown (fst (onKeyDown m a)) b).
Proof.
  cbn [onKeys]. destruct (onKeyDown m a) as [m1 a1]. cbn [fst].
  destruct (onKeyDown m1 b) as [m2 a2]. reflexivity.
Qed.

Lemma tabs_index (k : nat) (m : Manager) :
  0 < nodeCount m -> on_a_node m (currentFocusIndex m) ->
  currentFocusIndex (fst (onKeys m (repeat tab k)))
  = (currentFocusIndex m + Z.of_nat k) mod nodeCount m
  /\ nodeCount (fst (onKeys m (repeat tab k))) = nodeCount m.
Proof.
  revert m. induction k as [|k IH]; intros m N R.
  - cbn [repeat onKeys fst]. rewrite Z.add_0_r.
    split; [|reflexivity]. symmetry. apply Z.mod_small. exact R.
  - cbn [repeat onKeys].
    destruct (key_keeps_focus_on_a_node m tab N R) as (C & R1 & _).
    destruct (tab_index m N R) as (X & _).
    destruct (onKeyDown m tab) as [m1 a1]. cbn [fst] in C, R1, X.
    assert (N1 : 0 < nodeCount m1) by lia.
    assert (R1' : on_a_node m1 (currentFocusIndex m1)).
    { unfold on_a_node in *. rewrite C. exact R1. }
    destruct (IH m1 N1 R1') as (I1 & C1).
    destruct (onKeys m1 (repeat tab k)) as [m2 a2]. cbn [fst] in *.
    split; [|congruence].
    rewrite I1, C, X. rewrite Zplus_mod_idemp_l. f_equal. lia.
Qed.

(** X18.  [Tab] goes round the nodes and [Shift+Tab] goes back: pressed in
    the scene, [Tab] followed by [Shift+Tab] leaves the focus index where it
    was, and so does [Shift+Tab] followed by [Tab]; [Tab] pressed as many
    times as there are nodes brings the index back to where it started. *)
Theorem tab_goes_round_the_nodes (m : Manager) :
  0 < nodeCount m -> on_a_node m (currentFocusIndex m) ->
  currentFocusIndex (fst (onKeys m [tab; shift_tab])) = currentFocusIndex m
  /\ currentFocusIndex (fst (onKeys m [shift_tab; tab])) = currentFocusIndex m
  /\ currentFocusIndex
       (fst (onKeys m (repeat tab (Z.to_nat (nodeCount m)))))
     = currentFocusIndex m.
Proof.
  intros N R. pose proof R as R'. unfold on_a_node in R'.
  split; [|split].
  - rewrite onKeys_two.
    destruct (tab_index m N R) as (X & C).
    destruct (key_keeps_focus_on_a_node m tab N R) as (_ & R1 & _).
    set (m1 := fst (onKeyDown m tab)) in *.
    assert (N1 : 0 < nodeCount m1) by lia.
    assert (R1' : on_a_node m1 (currentFocusIndex m1)).
    { unfold on_a_node in *. rewrite C. exact R1. }
    destruct (shift_tab_index m1 N1 R1') as (Y & _).
    rewrite Y, X, C. rewrite Zminus_mod_idemp_l.
    replace (currentFocusIndex m + 1 - 1) with (currentFocusIndex m) by lia.
    apply Z.mod_small. exact R'.
  - rewrite onKeys_two.
    destruct (shift_tab_index m N R) as (X & C).
    destruct (key_keeps_focus_on_a_node m shift_tab N R) as (_ & R1 & _).
    set (m1 := fst (onKeyDown m shift_tab)) in *.
    assert (N1 : 0 < nodeCount m1) by lia.
    assert (R1' : on_a_node m1 (currentFocusIndex m1)).
    { unfold on_a_node in *. rewrite C. exact R1. }
    destruct (tab_index m1 N1 R1') as (Y & _).
    rewrite Y, X, C. rewrite Zplus_mod_idemp_l.
    replace (currentFocusIndex m - 1 + 1) with (currentFocusIndex m) by lia.
    apply Z.mod_small. exact R'.
  - destruct (tabs_index (Z.to_nat (nodeCount m)) m N R) as (X & _).
    rewrite X, Z2Nat.id by lia.
    replace (currentFocusIndex m + nodeCount m)
      with (currentFocusIndex m + 1 * nodeCount m) by lia.
    rewrite Z.mod_add by lia. apply Z.mod_small. exact R'.
Qed.

Lemma tab_goes_round_the_nodes_witness :
  let m := fst (onKeys (construct 5 true true false) [tab; tab; tab]) in
  currentFocusIndex (fst (onKeys m [tab; shift_tab])) = 3
  /\ currentFocusIndex (fst (onKeys m (repeat tab 5))) = 3.
Proof.
  destruct (tab_goes_round_the_nodes
              (fst (onKeys (construct 5 true true false) [tab; tab; tab])))
    as (A & _ & B);
    [reflexivity | split; [discriminate | reflexivity] |].
  split; [exact A | exact B].
Defined.

End AccessibilityFacts.

(* ================================================================== *)
(** ** AnimationHelpers.js: easings, interpolation, timers *)

Module AnimationFacts.

Import AnimationHelpers AnimationHelpers.Easing JsNumFacts.

(** Case analysis on every minimum and maximum, then linear arithmetic. *)
Ltac minmax :=
  repeat match goal with
         | |- context [Qmin ?a ?b] =>
             let x := fresh "m" in
             destruct (Q.min_spec a b) as [[? ?] | [? ?]];
             set (x := Qmin a b) in *; clearbody x
         | |- context [Qmax ?a ?b] =>
             let x := fresh "m" in
             destruct (Q.max_spec a b) as [[? ?] | [? ?]];
             set (x := Qmax a b) in *; clearbody x
         end;
  lra.

Lemma unit_mul (a b : Q) : unit a -> unit b -> unit (a * b).
Proof. unfold unit. intros [A0 A1] [B0 B1]. split; nra. Qed.

Lemma unit_flip (t : Q) : unit t -> unit (1 - t).
Proof. unfold unit. intros [L U]. split; lra. Qed.

(** One minus a half of a number of the unit interval, and a half of it. *)
Lemma unit_half (x : Q) : unit x -> unit (x / 2) /\ unit (1 - x / 2).
Proof.
  unfold unit. intros [L U].
  assert (E : x / 2 == x * (1 # 2)) by field.
  rewrite E. split; split; lra.
Qed.

Lemma out_mirror (t : Q) :
  easeOutQuad t == 1 - easeInQuad (1 - t)
  /\ easeOutCubic t == 1 - easeInCubic (1 - t)
  /\ easeOutQuart t == 1 - easeInQuart (1 - t)
  /\ easeOutQuint t == 1 - easeInQuint (1 - t)
  /\ easeOutBack t == 1 - easeInBack (1 - t)
  /\ easeOutBounce t == 1 - easeInBounce (1 - t).
Proof.
  unfold easeOutQuad, easeInQuad, easeOutCubic, easeInCubic, easeOutQuart,
    easeInQuart, easeOutQuint, easeInQuint, easeOutBack, easeInBack,
    easeInBounce.
  cbv zeta. repeat split; try ring.
  assert (E : 1 - (1 - t) == t) by ring.
  assert (B : easeOutBounce (1 - (1 - t)) == easeOutBounce t).
  { unfold easeOutBounce. cbv zeta.
    assert (L : forall x, Qltb (1 - (1 - t)) x = Qltb t x).
    { intro x. unfold JsNum.Qltb. f_equal.
      destruct (Qle_bool x (1 - (1 - t))) eqn:P, (Qle_bool x t) eqn:R;
        try reflexivity.
      - apply Qle_bool_iff in P. rewrite E in P. apply Qle_bool_iff in P.
        congruence.
      - apply Qle_bool_iff in R. rewrite <- E in R. apply Qle_bool_iff in R.
        congruence. }
    rewrite !L.
    destruct (Qltb t (1 / (275 # 100))); [rewrite E; reflexivity|].
    destruct (Qltb t (2 / (275 # 100))); [rewrite E; reflexivity|].
    destruct (Qltb t ((25 # 10) / (275 # 100))); rewrite E; reflexivity. }
  rewrite B. ring.
Qed.

(** The two halves of an ease-in-out: below one half it is the ease-in at
    twice the time, halved; from one half on it is the mirror of that. *)
Lemma in_out_halves (t : Q) :
  (t < 1 # 2 ->
   easeInOutQuad t == easeInQuad (2 * t) / 2
   /\ easeInOutCubic t == easeInCubic (2 * t) / 2
   /\ easeInOutQuart t == easeInQuart (2 * t) / 2
   /\ easeInOutQuint t == easeInQuint (2 * t) / 2)
  /\ (1 # 2 <= t ->
      easeInOutQuad t == 1 - easeInQuad (2 * (1 - t)) / 2
      /\ easeInOutCubic t == 1 - easeInCubic (2 * (1 - t)) / 2
      /\ easeInOutQuart t == 1 - easeInQuart (2 * (1 - t)) / 2
      /\ easeInOutQuint t == 1 - easeInQuint (2 * (1 - t)) / 2).
Proof.
  unfold easeInOutQuad, easeInOutCubic, easeInOutQuart, easeInOutQuint,
    easeInQuad, easeInCubic, easeInQuart, easeInQuint.
  split; intro H.
  - apply Qltb_lt in H. rewrite H. repeat split; field.
  - apply Qltb_ge in H. rewrite H. cbv zeta. repeat split; field.
Qed.

Lemma unit_eq (a b : Q) : a == b -> unit b -> unit a.
Proof. unfold unit. intros E [L U]. rewrite E. split; assumption. Qed.

Lemma ease_in_unit (t : Q) :
  unit t ->
  unit (easeInQuad t) /\ unit (easeInCubic t)
  /\ unit (easeInQuart t) /\ unit (easeInQuint t).
Proof.
  intro U. unfold easeInQuad, easeInCubic, easeInQuart, easeInQuint.
  pose proof (unit_mul t t U U) as U2.
  pose proof (unit_mul _ t U2 U) as U3.
  pose proof (unit_mul _ t U3 U) as U4.
  pose proof (unit_mul _ t U4 U) as U5.
  repeat split; first [apply U2 | apply U3 | apply U4 | apply U5].
Qed.

(** X20.  The easings of the four polynomial families and the two bounces keep
    the unit interval: a progress between 0 and 1 gives an eased progress
    between 0 and 1. *)
Theorem easing_keeps_unit_interval (t : Q) :
  unit t ->
  unit (linear t)
  /\ unit (easeInQuad t) /\ unit (easeOutQuad t) /\ unit (easeInOutQuad t)
  /\ unit (easeInCubic t) /\ unit (easeOutCubic t) /\ unit (easeInOutCubic t)
  /\ unit (easeInQuart t) /\ unit (easeOutQuart t) /\ unit (easeInOutQuart t)
  /\ unit (easeInQuint t) /\ unit (easeOutQuint t) /\ unit (easeInOutQuint t)
  /\ unit (easeOutBounce t) /\ unit (easeInBounce t).
Proof.
  intro U.
  destruct (ease_in_unit t U) as (I2 & I3 & I4 & I5).
  destruct (ease_in_unit (1 - t) (unit_flip t U)) as (F2 & F3 & F4 & F5).
  destruct (out_mirror t) as (M2 & M3 & M4 & M5 & _ & _).
  assert (InOut : unit (easeInOutQuad t) /\ unit (easeInOutCubic t)
                  /\ unit (easeInOutQuart t) /\ unit (easeInOutQuint t)).
  { destruct (Qlt_le_dec t (1 # 2)) as [Lo | Hi].
    - destruct (proj1 (in_out_halves t) Lo) as (E2 & E3 & E4 & E5).
      assert (U' : unit (2 * t)) by (unfold unit in *; split; lra).
      destruct (ease_in_unit (2 * t) U') as (H2 & H3 & H4 & H5).
      repeat split;
        [apply (unit_eq _ _ E2) | apply (unit_eq _ _ E2)
         | apply (unit_eq _ _ E3) | apply (unit_eq _ _ E3)
         | apply (unit_eq _ _ E4) | apply (unit_eq _ _ E4)
         | apply (unit_eq _ _ E5) | apply (unit_eq _ _ E5)];
        apply unit_half; assumption.
    - destruct (proj2 (in_out_halves t) Hi) as (E2 & E3 & E4 & E5).
      assert (U' : unit (2 * (1 - t))) by (unfold unit in *; split; lra).
      destruct (ease_in_unit (2 * (1 - t)) U') as (H2 & H3 & H4 & H5).
      repeat split;
        [apply (unit_eq _ _ E2) | apply (unit_eq _ _ E2)
         | apply (unit_eq _ _ E3) | apply (unit_eq _ _ E3)
         | apply (unit_eq _ _ E4) | apply (unit_eq _ _ E4)
         | apply (unit_eq _ _ E5) | apply (unit_eq _ _ E5)];
        apply unit_half; assumption. }
  destruct InOut as (O2 & O3 & O4 & O5).
  assert (Bounce : forall x, unit x -> unit (easeOutBounce x)).
  { intros x [L Up]. unfold easeOutBounce. cbv zeta.
    assert (E1 : 1 / (275 # 100) == 4 # 11) by reflexivity.
    assert (E2 : 2 / (275 # 100) == 8 # 11) by reflexivity.
    assert (E3 : (25 # 10) / (275 # 100) == 10 # 11) by reflexivity.
    assert (E4 : (15 # 10) / (275 # 100) == 6 # 11) by reflexivity.
    assert (E5 : (225 # 100) / (275 # 100) == 9 # 11) by reflexivity.
    assert (E6 : (2625 # 1000) / (275 # 100) == 21 # 22) by reflexivity.
    destruct (Qltb x (1 / (275 # 100))) eqn:A.
    { apply Qltb_lt in A. rewrite E1 in A. unfold unit.
      assert (0 <= x * ((4 # 11) - x)) by (apply Qmult_le_0_compat; lra).
      split; nra. }
    apply Qltb_ge in A. rewrite E1 in A.
    destruct (Qltb x (2 / (275 # 100))) eqn:B.
    { apply Qltb_lt in B. rewrite E2 in B. unfold unit. rewrite E4.
      assert (0 <= (x - (4 # 11)) * ((8 # 11) - x))
        by (apply Qmult_le_0_compat; lra).
      split; nra. }
    apply Qltb_ge in B. rewrite E2 in B.
    destruct (Qltb x ((25 # 10) / (275 # 100))) eqn:C.
    { apply Qltb_lt in C. rewrite E3 in C. unfold unit. rewrite E5.
      assert (0 <= (x - (8 # 11)) * ((10 # 11) - x))
        by (apply Qmult_le_0_compat; lra).
      split; nra. }
    apply Qltb_ge in C. rewrite E3 in C. unfold unit. rewrite E6.
    assert (0 <= (x - (10 # 11)) * (1 - x)) by (apply Qmult_le_0_compat; lra).
    split; nra. }
  split; [exact U|].
  split; [exact I2|]. split; [apply (unit_eq _ _ M2), unit_flip, F2|].
  split; [exact O2|].
  split; [exact I3|]. split; [apply (unit_eq _ _ M3), unit_flip, F3|].
  split; [exact O3|].
  split; [exact I4|]. split; [apply (unit_eq _ _ M4), unit_flip, F4|].
  split; [exact O4|].
  split; [exact I5|]. split; [apply (unit_eq _ _ M5), unit_flip, F5|].
  split; [exact O5|].
  split; [apply Bounce, U|].
  unfold easeInBounce. apply unit_flip, Bounce, unit_flip, U.
Qed.

Lemma easing_keeps_unit_interval_witness :
  unit (easeInOutCubic (1 # 3)) /\ unit (easeOutBounce (1 # 3)).
Proof.
  destruct (easing_keeps_unit_interval (1 # 3))
    as (_ & _ & _ & _ & _ & _ & A & _ & _ & _ & _ & _ & _ & B & _).
  - split; discriminate.
  - split; [exact A | exact B].
Defined.

(** X21.  The "back" easings leave the unit interval, and not by rounding:
    for a progress between 0.1 and 0.6 [easeInBack] is below zero by more
    than 0.0005, and [easeOutBack] at the mirrored progress is above one by
    as much. *)
Theorem back_easing_overshoots (t : Q) :
  1 # 10 <= t -> t <= 6 # 10 ->
  easeInBack t <= - (1 # 2000) /\ 1 + (1 # 2000) <= easeOutBack (1 - t).
Proof.
  intros L U.
  assert (N : easeInBack t <= - (1 # 2000)).
  { unfold easeInBack, back_c. cbv zeta.
    setoid_replace (((170158 # 100000) + 1) * t * t * t
                    - (170158 # 100000) * t * t)
      with (- ((t * t) * ((170158 # 100000) - (270158 # 100000) * t)))
      by ring.
    assert (S : 1 # 100 <= t * t) by nra.
    assert (K : 8 # 100 <= (170158 # 100000) - (270158 # 100000) * t) by lra.
    assert (P : (1 # 100) * (8 # 100)
                <= (t * t) * ((170158 # 100000) - (270158 # 100000) * t)).
    { apply Qle_trans with ((t * t) * (8 # 100)).
      - apply Qmult_le_compat_r; [exact S | discriminate].
      - rewrite (Qmult_comm (t * t) (8 # 100)).
        rewrite (Qmult_comm (t * t)).
        apply Qmult_le_compat_r; [exact K | lra]. }
    assert (C : (1 # 100) * (8 # 100) == 8 # 10000) by reflexivity.
    lra. }
  split; [exact N|].
  destruct (out_mirror (1 - t)) as (_ & _ & _ & _ & M & _).
  rewrite M.
  assert (R : easeInBack (1 - (1 - t)) == easeInBack t)
    by (unfold easeInBack; cbv zeta; ring).
  rewrite R. lra.
Qed.

Lemma back_easing_overshoots_witness :
  easeInBack (1 # 2) <= - (1 # 2000)
  /\ 1 + (1 # 2000) <= easeOutBack (1 - (1 # 2)).
Proof. apply (back_easing_overshoots (1 # 2)); discriminate. Defined.

(** *** [animate] *)

Lemma tick_progress_early (o : AnimateOptions) (s now : Q) :
  0 < duration o -> now - s < duration o ->
  Qmin ((now - s) / duration o) 1 == (now - s) / duration o
  /\ Qmin ((now - s) / duration o) 1 < 1.
Proof.
  intros D E.
  assert (L : (now - s) / duration o < 1)
    by (apply Qlt_shift_div_r; [exact D | lra]).
  rewrite Q.min_l by lra. split; [reflexivity | exact L].
Qed.

Lemma tick_progress_late (o : AnimateOptions) (s now : Q) :
  0 < duration o -> duration o <= now - s ->
  Qmin ((now - s) / duration o) 1 == 1.
Proof.
  intros D E. apply Q.min_r. apply Qle_shift_div_l; [exact D | lra].
Qed.



(** *** Interpolation and ranges *)

(** X24.  [lerp] starts at [start], stays there when the two ends are the
    same, and goes one way: with [start <= end] it does not decrease as [t]
    grows and is not below [start] for a [t] that is not negative, and with
    [end <= start] it does not increase. *)
Theorem lerp_goes_one_way (a b t t' : Q) :
  t <= t' ->
  lerp a b 0 == a
  /\ lerp a a t == a
  /\ (a <= b -> lerp a b t <= lerp a b t')
  /\ (a <= b -> 0 <= t -> a <= lerp a b t)
  /\ (b <= a -> lerp a b t' <= lerp a b t)
  /\ (b <= a -> 0 <= t -> lerp a b t <= a).
Proof.
  intro T. unfold lerp.
  split; [ring|]. split; [ring|].
  split; [|split; [|split]].
  - intro H. assert (0 <= (b - a) * (t' - t))
      by (apply Qmult_le_0_compat; lra). lra.
  - intros H P. assert (0 <= (b - a) * t)
      by (apply Qmult_le_0_compat; lra). lra.
  - intro H. assert (0 <= (a - b) * (t' - t))
      by (apply Qmult_le_0_compat; lra). lra.
  - intros H P. assert (0 <= (a - b) * t)
      by (apply Qmult_le_0_compat; lra). lra.
Qed.

Lemma lerp_goes_one_way_witness :
  lerp 2 8 (1 # 4) <= lerp 2 8 (3 # 4) /\ 2 <= lerp 2 8 (1 # 4).
Proof.
  destruct (lerp_goes_one_way 2 8 (1 # 4) (3 # 4)) as (_ & _ & A & B & _).
  - discriminate.
  - split; [apply A | apply B]; discriminate.
Defined.

(** X25.  [mapRange] with [inMin < inMax] sends [inMin] to [outMin] and
    keeps the order of the values when [outMin <= outMax] (it reverses it
    when [outMax <= outMin]); so a value that is not below [inMin] is not
    mapped below [outMin]. *)
Theorem mapRange_keeps_order (v v' a b c d : Q) :
  a < b -> v <= v' ->
  mapRange a a b c d == c
  /\ (c <= d -> mapRange v a b c d <= mapRange v' a b c d)
  /\ (d <= c -> mapRange v' a b c d <= mapRange v a b c d)
  /\ (c <= d -> a <= v -> c <= mapRange v a b c d).
Proof.
  intros AB V. unfold mapRange.
  assert (P : 0 < b - a) by lra.
  assert (I : 0 < / (b - a)) by (apply Qinv_lt_0_compat; exact P).
  assert (Step : forall x y, x <= y -> x / (b - a) <= y / (b - a)).
  { intros x y H. unfold Qdiv.
    apply Qmult_le_compat_r; [exact H | lra]. }
  split; [field; lra|].
  split; [|split].
  - intro H. apply Qplus_le_l. apply Step.
    assert (0 <= (v' - v) * (d - c)) by (apply Qmult_le_0_compat; lra).
    lra.
  - intro H. apply Qplus_le_l. apply Step.
    assert (0 <= (v' - v) * (c - d)) by (apply Qmult_le_0_compat; lra).
    lra.
  - intros H A.
    assert (Z : 0 / (b - a) <= (v - a) * (d - c) / (b - a)).
    { apply Step. apply Qmult_le_0_compat; lra. }
    assert (Z0 : 0 / (b - a) == 0) by (field; lra).
    lra.
Qed.

Lemma mapRange_keeps_order_witness :
  mapRange 0 0 10 (-1) 1 == -1
  /\ mapRange 3 0 10 (-1) 1 <= mapRange 7 0 10 (-1) 1.
Proof.
  destruct (mapRange_keeps_order 3 7 0 10 (-1) 1) as (A & B & _).
  - reflexivity.
  - discriminate.
  - split; [exact A | apply B; discriminate].
Defined.

(** X26.  [smoothstep] with its edges in order is 0 up to the first edge, 1
    from the second on, and between 0 and 1 everywhere. *)
Theorem smoothstep_plateaus (e0 e1 x : Q) :
  e0 < e1 ->
  unit (smoothstep e0 e1 x)
  /\ (x <= e0 -> smoothstep e0 e1 x == 0)
  /\ (e1 <= x -> smoothstep e0 e1 x == 1).
Proof.
  intro E.
  assert (D : 0 < e1 - e0) by lra.
  assert (Clamp : forall z, unit (Qmax 0 (Qmin 1 z))).
  { intro z. unfold unit. split; [apply Q.le_max_l|].
    apply Q.max_lub; [lra | apply Q.le_min_l]. }
  assert (Poly : forall t, unit t -> unit (t * t * (3 - 2 * t))).
  { intros t [L U]. unfold unit.
    assert (0 <= t * t) by nra. assert (t * t <= 1) by nra.
    assert (0 <= t * t * (1 - t)) by (apply Qmult_le_0_compat; lra).
    assert (0 <= (1 - t) * (1 - t) * t)
      by (apply Qmult_le_0_compat; [nra | lra]).
    split; nra. }
  unfold smoothstep. cbv zeta.
  split; [apply Poly, Clamp|].
  split.
  { intro H.
    assert (Z : (x - e0) / (e1 - e0) <= 0).
    { apply Qle_shift_div_r; [exact D | lra]. }
    rewrite (Q.min_r 1) by lra. rewrite Q.max_l by exact Z. ring. }
  intro H.
  assert (Z : 1 <= (x - e0) / (e1 - e0)).
  { apply Qle_shift_div_l; [exact D | lra]. }
  rewrite (Q.min_l 1) by exact Z. rewrite Q.max_r by lra. ring.
Qed.

Lemma smoothstep_plateaus_witness :
  unit (smoothstep 10 20 13) /\ smoothstep 10 20 25 == 1.
Proof.
  destruct (smoothstep_plateaus 10 20 13) as (A & _); [reflexivity|].
  destruct (smoothstep_plateaus 10 20 25) as (_ & _ & B); [reflexivity|].
  split; [exact A | apply B; discriminate].
Defined.

(** X27.  [clamp] with its bounds in order gives a value between them, the
    value itself when it is between them already; with the bounds out of
    order it gives [min], whatever the value. *)
Theorem clamp_cases (v lo hi : Q) :
  (lo <= hi -> lo <= clamp v lo hi /\ clamp v lo hi <= hi)
  /\ (lo <= v -> v <= hi -> clamp v lo hi == v)
  /\ (hi < lo -> clamp v lo hi == lo)
  /\ clamp (clamp v lo hi) lo hi == clamp v lo hi.
Proof.
  unfold clamp. repeat split; intros; minmax.
Qed.

Lemma clamp_cases_witness : clamp 5 10 0 == 10.
Proof.
  destruct (clamp_cases 5 10 0) as (_ & _ & A & _). apply A. reflexivity.
Defined.

(** *** [debounce] and [throttle] *)

Lemma debounce_burst_pending {A : Type} (calls : list (Q * A)) :
  forall (w t0 : Q) (a0 : A) (finally : Q),
    burst w t0 calls ->
    fst (last_call (t0, a0) calls) + w <= finally ->
    debounce_run (mkDebounced w (Some (t0 + w, a0))) calls finally
    = [(fst (last_call (t0, a0) calls) + w, snd (last_call (t0, a0) calls))].
Proof.
  induction calls as [|[t a] rest IH]; intros w t0 a0 finally B F.
  - cbn in *. unfold debounce_elapse. cbn.
    apply Qle_bool_iff in F. rewrite F. reflexivity.
  - cbn [burst] in B. destruct B as (B0 & B1 & B2).
    cbn [debounce_run last_call]. unfold debounce_call, debounce_elapse.
    cbn [timeout wait].
    assert (N : Qle_bool (t0 + w) t = false).
    { destruct (Qle_bool (t0 + w) t) eqn:E; [|reflexivity].
      apply Qle_bool_iff in E. lra. }
    rewrite N. cbn [app wait]. apply IH; assumption.
Qed.

Lemma debounce_spaced_pending {A : Type} (calls : list (Q * A)) :
  forall (w t0 : Q) (a0 : A) (finally : Q),
    spaced w t0 calls ->
    fst (last_call (t0, a0) calls) + w <= finally ->
    debounce_run (mkDebounced w (Some (t0 + w, a0))) calls finally
    = map (fun c => (fst c + w, snd c)) ((t0, a0) :: calls).
Proof.
  induction calls as [|[t a] rest IH]; intros w t0 a0 finally S F.
  - cbn in *. unfold debounce_elapse. cbn.
    apply Qle_bool_iff in F. rewrite F. reflexivity.
  - cbn [spaced] in S. destruct S as (S0 & S1).
    cbn [debounce_run last_call]. unfold debounce_call, debounce_elapse.
    cbn [timeout wait].
    apply Qle_bool_iff in S0. rewrite S0. cbn [wait app map fst snd].
    f_equal. apply IH; assumption.
Qed.

(** X28.  A debounced function called again and again, each call less than
    [wait] after the one before, calls [func] once, [wait] after the last
    call and with the arguments of the last call; called at intervals of
    [wait] or more, it calls [func] once per call, [wait] later. *)
Theorem debounce_trailing_edge {A : Type} (w t : Q) (a : A)
  (rest : list (Q * A)) (finally : Q) :
  fst (last_call (t, a) rest) + w <= finally ->
  (burst w t rest ->
   debounce_run (debounce w) ((t, a) :: rest) finally
   = [(fst (last_call (t, a) rest) + w, snd (last_call (t, a) rest))])
  /\ (spaced w t rest ->
      debounce_run (debounce w) ((t, a) :: rest) finally
      = map (fun c => (fst c + w, snd c)) ((t, a) :: rest)).
Proof.
  intro F. split; intro H.
  - apply (debounce_burst_pending rest w t a finally H F).
  - apply (debounce_spaced_pending rest w t a finally H F).
Qed.

Lemma debounce_trailing_edge_witness :
  debounce_run (debounce 100) [(0, 1%nat); (40, 2%nat); (90, 3%nat)] 500
  = [(90 + 100, 3%nat)].
Proof.
  destruct (debounce_trailing_edge 100 0 1%nat [(40, 2%nat); (90, 3%nat)] 500)
    as (A & _).
  - discriminate.
  - apply A. vm_compute. repeat split; discriminate.
Defined.

Lemma throttle_elapse_limit (th : Throttled) (now : Q) :
  limit (throttle_elapse th now) = limit th.
Proof.
  unfold throttle_elapse. destruct (inThrottle th) as [due|]; [|reflexivity].
  destruct (Qle_bool due now); reflexivity.
Qed.

Lemma throttle_head_after {A : Type} (calls : list (Q * A)) :
  forall th due,
    inThrottle th = Some due ->
    match throttle_run th calls with
    | (t, _) :: _ => due <= t
    | [] => True
    end.
Proof.
  induction calls as [|[now args] rest IH]; intros th due H; [exact I|].
  cbn [throttle_run]. unfold throttle_call, throttle_elapse. rewrite H.
  destruct (Qle_bool due now) eqn:E.
  - cbn. apply Qle_bool_iff, E.
  - rewrite H. cbn [app]. apply IH, H.
Qed.

Lemma throttle_apart {A : Type} (calls : list (Q * A)) :
  forall th, apart (limit th) (throttle_run th calls).
Proof.
  induction calls as [|[now args] rest IH]; intro th; [exact I|].
  cbn [throttle_run]. unfold throttle_call.
  pose proof (throttle_elapse_limit th now) as L.
  destruct (inThrottle (throttle_elapse th now)) eqn:E.
  - cbn [app]. rewrite <- L. apply IH.
  - cbn [app apart]. split.
    + pose proof (throttle_head_after rest
                    (mkThrottled (limit (throttle_elapse th now))
                       (Some (now + limit (throttle_elapse th now))))
                    _ eq_refl) as H.
      destruct (throttle_run _ rest) as [|[t' a'] l]; [exact I|].
      rewrite <- L. exact H.
    + rewrite <- L.
      apply (IH (mkThrottled (limit (throttle_elapse th now))
                   (Some (now + limit (throttle_elapse th now))))).
Qed.

Lemma throttle_incl {A : Type} (calls : list (Q * A)) :
  forall th, incl (throttle_run th calls) calls.
Proof.
  induction calls as [|[now args] rest IH]; intro th; [apply incl_refl|].
  cbn [throttle_run]. unfold throttle_call.
  destruct (inThrottle (throttle_elapse th now)).
  - cbn [app]. apply incl_tl, IH.
  - cbn [app]. apply incl_cons; [left; reflexivity | apply incl_tl, IH].
Qed.

(** X29.  A throttled function passes the first call on at once; every call of
    [func] is one of the calls made, at its own time and with its own
    arguments (a call made while the throttle holds is dropped, not put
    off); and two calls of [func] in a row are at least [limit] apart. *)
Theorem throttle_leading_edge {A : Type} (lim : Q) (calls : list (Q * A)) :
  apart lim (throttle_run (throttle lim) calls)
  /\ incl (throttle_run (throttle lim) calls) calls
  /\ match calls with
     | c :: _ => exists later, throttle_run (throttle lim) calls = c :: later
     | [] => throttle_run (throttle lim) calls = []
     end.
Proof.
  split; [apply (throttle_apart calls (throttle lim))|].
  split; [apply throttle_incl|].
  destruct calls as [|[now args] rest]; [reflexivity|].
  cbn. eauto.
Qed.

(** *** [DeltaTime] *)

Lemma last_cons (rest : list Q) :
  forall t x, last (t :: rest) x = last rest t.
Proof.
  induction rest as [|u l IH]; intros t x; [reflexivity|].
  change (last (t :: u :: l) x) with (last (u :: l) x).
  rewrite (IH u x), (IH u t). reflexivity.
Qed.

Lemma dt_update_grows (d : DeltaTime) (t : Q) :
  lastTime d <= t ->
  0 <= delta (dt_update d t)
  /\ elapsed d <= elapsed (dt_update d t)
  /\ lastTime (dt_update d t) = t.
Proof.
  intro H. cbn [delta elapsed lastTime dt_update].
  assert (E : (t - lastTime d) / 1000 == (t - lastTime d) * (1 # 1000))
    by field.
  rewrite E. repeat split; lra.
Qed.

Lemma dt_updates_grow (times : list Q) :
  forall d,
    0 <= delta d -> ascending (lastTime d) times ->
    0 <= delta (dt_updates d times)
    /\ elapsed d <= elapsed (dt_updates d times)
    /\ lastTime (dt_updates d times) = last times (lastTime d).
Proof.
  unfold dt_updates.
  induction times as [|t rest IH]; intros d P A.
  - cbn. repeat split; [exact P | apply Qle_refl].
  - cbn [ascending] in A. destruct A as [A1 A2].
    destruct (dt_update_grows d t A1) as (D & E & L).
    cbn [fold_left]. rewrite <- L in A2.
    destruct (IH (dt_update d t) D A2) as (D' & E' & L').
    rewrite last_cons. rewrite L in L'.
    repeat split; [exact D' | lra | exact L'].
Qed.

(** X30.  As long as the clock does not go back, a [DeltaTime] does not
    either: after any calls of [update] the delta is not negative, the
    elapsed time is not negative and is not lowered by another call, and
    the time kept is that of the last call; [reset] puts delta and elapsed
    time back to zero. *)
Theorem deltaTime_never_goes_back (t0 : Q) (times : list Q) (t : Q) :
  ascending t0 (times ++ [t]) ->
  let before := dt_updates (newDeltaTime t0) times in
  let d := dt_update before t in
  0 <= delta d
  /\ 0 <= elapsed before
  /\ elapsed before <= elapsed d
  /\ lastTime d = t
  /\ lastTime before = last times t0
  /\ dt_reset d t = newDeltaTime t.
Proof.
  intro A. cbv zeta.
  assert (A' : ascending t0 times /\ last times t0 <= t).
  { clear - A. revert t0 A. induction times as [|u rest IH]; intros t0 A.
    - cbn in *. split; [exact I | tauto].
    - cbn [app ascending] in A. destruct A as [A1 A2].
      destruct (IH u A2) as [B1 B2]. rewrite last_cons.
      split; [split; assumption | exact B2]. }
  destruct A' as [As Al].
  destruct (dt_updates_grow times (newDeltaTime t0)) as (D & E & L);
    [apply Qle_refl | exact As |].
  cbn [lastTime elapsed newDeltaTime] in E, L.
  rewrite <- L in Al.
  destruct (dt_update_grows _ t Al) as (D' & E' & L').
  repeat split; first [assumption | reflexivity].
Qed.

Lemma deltaTime_never_goes_back_witness :
  let d := dt_update (dt_updates (newDeltaTime 0) [16; 33; 50]) 66 in
  0 <= delta d /\ lastTime d = 66.
Proof.
  destruct (deltaTime_never_goes_back 0 [16; 33; 50] 66) as (A & _ & _ & B & _).
  - vm_compute. repeat split; discriminate.
  - split; [exact A | exact B].
Defined.

End AnimationFacts.
